(** * twitter_scrapper: the resumable paginated crawl engine of [twitter.py]

    A shallow embedding of [TwitterAPI] (src/twitter.py) and the properties
    its specification states about it.

    Conventions of the embedding.
    - Python [str] is [string]: the bytes of the UTF-8 encoding of the
      text, so that a character above U+007F takes two or three bytes, and
      a string literal of this file stands for the text it shows.  The
      bytes below 128 are the ASCII characters themselves and occur nowhere
      else in an encoding, which is why [startswith], [split] and the
      ASCII classes of the regular expressions read a [string] byte by
      byte.  Python [int] is [Z].  Time stamps ([publication_datetime], in seconds, and
      [last_tweet_pub_time], in milliseconds) are [Z]: the page parser reads
      them from the numeric attributes [data-time] and [data-time-ms], and
      the source only compares them.
    - A Python dict with a fixed set of optional keys is a record of
      [option] fields ([Stage]); a dict literal handed to the consumer is an
      insertion-ordered association list ([Dict]).
    - The network is a script of canned replies consumed in order; every
      request, pause and [yield] is written to a trace, so that statements
      about "what was requested before what" are statements about lists.
    - A coroutine that awaits a reply the script does not hold, or that has
      used up its budget ([fuel]), is [Pending]: the model gives no answer
      there.  [fuel] bounds the turns of the page loop and the depth to
      which the fetcher and the check of the profile call themselves.  The
      interpreter bounds that depth too (about a thousand nested calls),
      and past its bound the source ends in a [RecursionError] raised from
      inside the deepest call; the model does not follow the source there,
      so nothing is stated of a run that is [Pending], and what is stated
      of the other runs is stated of the runs of the source that stay
      within the bound of the interpreter.
    - What the source raises outside the exceptions of exceptions.py and
      the two faults of the transport ([RecursionError],
      [json.JSONDecodeError] for a body that is no JSON, the errors of
      [datetime.fromtimestamp] for a time it cannot represent, the
      [AttributeError] and [ValueError] of the page parser) has no
      constructor in [Exn]: the runs of the model are the runs without
      them.
    - The calls of the logger are left out. *)

From Stdlib Require Import ZArith List String Ascii Bool Lia DecimalString.
Import ListNotations.

Open Scope string_scope.
Open Scope Z_scope.

(** ** Exceptions (src/exceptions.py) *)

(** The text of an [ApiError]; each constructor is one message of twitter.py. *)
Inductive ApiMsg : Type :=
| QueryIsMissing                       (* 'Query is missing.' *)
| ErrorQueryIsMissing                  (* 'Error: Query is missing!' *)
| OwnerIdIsMissing                     (* 'Owner_id (profile) is missing.' *)
| InternalResponseError                (* 'Iternal server response error: ...' *)
| UrlNotAvailable (url : string * list (string * string)) (status : Z).
                                       (* 'URL="{url}" is not available, response_status={status}.' *)

Inductive Exn : Type :=
| CriticalError
| NonCriticalError
| InvalidOwnerId (owner : string)
| InvalidProfile (profile : string)
| PrivateProfile (profile : string)
| InvalidGroup (owner : string)
| PrivateGroup (owner : string)
| InvalidTaskParams
| ApiError (msg : ApiMsg)
| PermissionDenied
| AsyncTimeoutError                    (* asyncio.TimeoutError *)
| ClientError.                         (* aiohttp.ClientError *)

(** What running a piece of code gives: a value, a raised exception, or no
    answer yet. *)
Inductive outcome (A : Type) : Type :=
| Ok (a : A)
| Raise (e : Exn)
| Pending.
Arguments Ok {A} a.
Arguments Raise {A} e.
Arguments Pending {A}.

(** ** Strings *)

Definition nonempty (s : string) : bool :=
  match s with EmptyString => false | String _ _ => true end.

Definition str (z : Z) : string := NilZero.string_of_int (Z.to_int z).

(** A byte of an ASCII character. *)
Definition is_ascii (c : ascii) : bool := (nat_of_ascii c <? 128)%nat.

(** [str.isspace], character by character.  Python counts as white space
    U+0009..U+000D, U+001C..U+0020, U+0085, U+00A0, U+1680, U+2000..U+200A,
    U+2028, U+2029, U+202F, U+205F and U+3000.  [isspace] decides a
    character below U+0100 by its number, [isspace2] a character of two
    bytes by its bytes (U+0085 is the bytes 194 133, U+00A0 is 194 160) and
    [isspace3] a character of three bytes. *)
Definition isspace (c : ascii) : bool :=
  let n := nat_of_ascii c in
  ((9 <=? n) && (n <=? 13) || (28 <=? n) && (n <=? 32)
   || (n =? 133) || (n =? 160))%nat.

Definition isspace2 (a b : ascii) : bool :=
  let m := nat_of_ascii a in
  let n := nat_of_ascii b in
  ((m =? 194) && ((n =? 133) || (n =? 160)))%nat.

Definition isspace3 (a b c : ascii) : bool :=
  let l := nat_of_ascii a in
  let m := nat_of_ascii b in
  let n := nat_of_ascii c in
  ((l =? 225) && (m =? 154) && (n =? 128)                  (* U+1680 *)
   || (l =? 226) && (m =? 128)
      && ((128 <=? n) && (n <=? 138)                       (* U+2000..U+200A *)
          || (n =? 168) || (n =? 169) || (n =? 175))       (* U+2028, U+2029, U+202F *)
   || (l =? 226) && (m =? 129) && (n =? 159)               (* U+205F *)
   || (l =? 227) && (m =? 128) && (n =? 128))%nat.         (* U+3000 *)

(** [s.lstrip()]: the string without the white space it starts with.  What
    is left of an encoded text begins with the first byte of a character,
    which the bytes 133 and 160 never are; where a string begins with one
    of them all the same, the byte is taken for the character of its
    number and stripped. *)
Fixpoint lstrip (s : string) : string :=
  match s with
  | EmptyString => EmptyString
  | String a s1 =>
      if isspace a then lstrip s1
      else
        match s1 with
        | EmptyString => s
        | String b s2 =>
            if isspace2 a b then lstrip s2
            else
              match s2 with
              | EmptyString => s
              | String c s3 => if isspace3 a b c then lstrip s3 else s
              end
        end
  end.

Definition startswith (s p : string) : bool := String.prefix p s.

(** [s.split(sep)] for a one-character separator: the pieces between the
    separators, the piece under construction first. *)
Fixpoint split_acc (sep : ascii) (cur : string) (s : string) : list string :=
  match s with
  | EmptyString => [cur]
  | String c s' =>
      if Ascii.eqb c sep then cur :: split_acc sep EmptyString s'
      else split_acc sep (cur ++ String c EmptyString) s'
  end.

Definition split (s : string) (sep : ascii) : list string :=
  split_acc sep EmptyString s.

(** [l.pop(-1)] of a list that is never empty here. *)
Definition pop_last (l : list string) : string := last l EmptyString.

(** ** Query builder: [TwitterAPI.construct_query] *)

Definition construct_query (search_query profile : string) (reply : bool)
           (since until : string) (since_id : Z) : outcome string :=
  let query := search_query in
  let query :=
    if nonempty profile
    then (query ++ (if reply then " to:" else " from:")) ++ profile
    else query in
  let query := if reply then query ++ " filter:replies" else query in
  let query := if nonempty until then query ++ " until:" ++ until else query in
  let query := if nonempty since then query ++ " since:" ++ since else query in
  let query :=
    if negb (since_id =? 0) then query ++ " since_id:" ++ str since_id
    else query in
  if negb (nonempty query) then Raise (ApiError QueryIsMissing)
  else Ok (lstrip query).

(** ** Regular expressions, as far as [re.search] is used by [parse_url] *)

Module Re.

Inductive regex : Type :=
| Eps
| Class (p : ascii -> bool)
| Cat (r1 r2 : regex)
| Alt (r1 r2 : regex)
| Star (r : regex).

(** The words of a regular expression. *)
Inductive Matches : regex -> list ascii -> Prop :=
| MEps : Matches Eps []
| MClass p c : p c = true -> Matches (Class p) [c]
| MCat r1 r2 s1 s2 :
    Matches r1 s1 -> Matches r2 s2 -> Matches (Cat r1 r2) (s1 ++ s2)
| MAltL r1 r2 s : Matches r1 s -> Matches (Alt r1 r2) s
| MAltR r1 r2 s : Matches r2 s -> Matches (Alt r1 r2) s
| MStar0 r : Matches (Star r) []
| MStarS r s1 s2 :
    Matches r s1 -> Matches (Star r) s2 -> Matches (Star r) (s1 ++ s2).

Fixpoint nullable (r : regex) : bool :=
  match r with
  | Eps => true
  | Class _ => false
  | Cat r1 r2 => nullable r1 && nullable r2
  | Alt r1 r2 => nullable r1 || nullable r2
  | Star _ => true
  end.

(** [None] is the expression without words. *)
Fixpoint deriv (c : ascii) (r : regex) : option regex :=
  match r with
  | Eps => None
  | Class p => if p c then Some Eps else None
  | Cat r1 r2 =>
      let left :=
        match deriv c r1 with
        | Some d => Some (Cat d r2)
        | None => None
        end in
      if nullable r1 then
        match left, deriv c r2 with
        | Some l, Some d => Some (Alt l d)
        | Some l, None => Some l
        | None, o => o
        end
      else left
  | Alt r1 r2 =>
      match deriv c r1, deriv c r2 with
      | Some d1, Some d2 => Some (Alt d1 d2)
      | Some d1, None => Some d1
      | None, o => o
      end
  | Star r' =>
      match deriv c r' with
      | Some d => Some (Cat d (Star r'))
      | None => None
      end
  end.

Fixpoint matchb (r : regex) (s : list ascii) : bool :=
  match s with
  | [] => nullable r
  | c :: s' =>
      match deriv c r with
      | Some d => matchb d s'
      | None => false
      end
  end.

(** A compiled pattern: whether it opens with [^], its body, and whether it
    closes with [$]. *)
Record pattern : Type := {
  at_start : bool;
  body : regex;
  at_end : bool
}.

Definition any : regex := Class (fun _ => true).
Definition opt (r : regex) : regex := Alt r Eps.
Definition plus (r : regex) : regex := Cat r (Star r).
Definition newline : ascii := ascii_of_nat 10.
Definition chr (c : ascii) : regex := Class (Ascii.eqb c).

(** The bytes of one character outside ASCII. *)
Fixpoint bytes (l : list nat) : regex :=
  match l with
  | [] => Eps
  | n :: l' => Cat (chr (ascii_of_nat n)) (bytes l')
  end.

Definition none : regex := Class (fun _ => false).

(** Lower-casing of the ASCII letters. *)
Definition lower (c : ascii) : ascii :=
  let n := nat_of_ascii c in
  if ((65 <=? n) && (n <=? 90))%nat then ascii_of_nat (n + 32) else c.

(** The characters outside ASCII that [re.I] takes for an ASCII letter
    (CPython 3.11): for the letter i, U+0130 and U+0131 (bytes 196 176 and
    196 177); for s, U+017F (197 191); for k, U+212A (226 132 170); for no
    other ASCII character is there one. *)
Definition folds_to (c : ascii) : regex :=
  let n := nat_of_ascii (lower c) in
  if (n =? 105)%nat then Alt (bytes [196; 176]%nat) (bytes [196; 177]%nat)
  else if (n =? 115)%nat then bytes [197; 191]%nat
  else if (n =? 107)%nat then bytes [226; 132; 170]%nat
  else none.

(** One ASCII character of a pattern compiled with [re.I]: the character
    in either case, and what folds to it. *)
Definition chr_i (c : ascii) : regex :=
  Alt (Class (fun x => Ascii.eqb (lower x) (lower c))) (folds_to c).

(** A literal under [re.I]. *)
Fixpoint lit_i (s : string) : regex :=
  match s with
  | EmptyString => Eps
  | String c s' => Cat (chr_i c) (lit_i s')
  end.

(** The class [[a-zA-Z_0-9]]. *)
Definition word_char (c : ascii) : bool :=
  let n := nat_of_ascii c in
  ((97 <=? n) && (n <=? 122) || (65 <=? n) && (n <=? 90)
   || (n =? 95) || (48 <=? n) && (n <=? 57))%nat.

(** The same class in a pattern compiled with [re.I]: beside its own
    characters, the four that fold to one of its letters. *)
Definition word_i : regex :=
  Alt (Class word_char)
      (Alt (folds_to "i") (Alt (folds_to "s") (folds_to "k"))).

(** What the whole subject string has to match for [search] to succeed:
    without [^] the match may start anywhere; [$] holds at the end of the
    string and just before a newline that ends it.  The expressions read
    the bytes of the subject; the two patterns of [parse_url] begin with an
    ASCII character, so that what they find begins where a character
    begins. *)
Definition whole (p : pattern) : regex :=
  Cat (if at_start p then Eps else Star any)
      (Cat (body p)
           (if at_end p then opt (chr newline) else Star any)).

Definition search (p : pattern) (s : string) : bool :=
  matchb (whole p) (list_ascii_of_string s).

End Re.

(** ** [TwitterAPI.parse_url] *)

(** [re.compile(r'https?:\/\/(www\.)?twitter\.com\/[a-zA-Z_0-9]+$', re.I)] *)
Definition profile_url_pattern : Re.pattern :=
  {| Re.at_start := false;
     Re.body :=
       Re.Cat (Re.lit_i "http")
      (Re.Cat (Re.opt (Re.chr_i "s"))
      (Re.Cat (Re.lit_i "://")
      (Re.Cat (Re.opt (Re.lit_i "www."))
      (Re.Cat (Re.lit_i "twitter.com/")
              (Re.plus Re.word_i)))));
     Re.at_end := true |}.

(** [r'^[a-zA-Z_0-9]+$'] *)
Definition alias_pattern : Re.pattern :=
  {| Re.at_start := true;
     Re.body := Re.plus (Re.Class Re.word_char);
     Re.at_end := true |}.

Definition parse_url (source_url : string) : outcome string :=
  let url := source_url in
  if startswith url "http" then
    if negb (Re.search profile_url_pattern url) then Raise (InvalidProfile url)
    else Ok (pop_last (split url "/"))
  else if Re.search alias_pattern url then Ok url
  else Raise (InvalidOwnerId url).

(** ** Data model *)

Open Scope list_scope.

(** The checkpoint dict of a task.  A key that is absent is [None]; [{}] is
    [empty_stage]. *)
Record Stage : Type := {
  max_position : option string;
  counter : option Z;
  last_tweet_pub_time : option Z;
  task_stage : option Z
}.

Definition empty_stage : Stage :=
  {| max_position := None; counter := None;
     last_tweet_pub_time := None; task_stage := None |}.

(** The ['stage'] entry of a post.  [parse_tweets] creates it with its three
    keys, so here they are always present. *)
Module TwitStage.
Record t : Type := {
  last_tweet_pub_time : Z;
  max_position : string;
  counter : Z
}.
End TwitStage.

(** The same dict, seen as a checkpoint. *)
Definition checkpoint (s : TwitStage.t) : Stage :=
  {| max_position := Some (TwitStage.max_position s);
     counter := Some (TwitStage.counter s);
     last_tweet_pub_time := Some (TwitStage.last_tweet_pub_time s);
     task_stage := None |}.

(** [stage['task_stage'] = task_stage] *)
Definition set_task_stage (s : Stage) (n : Z) : Stage :=
  {| max_position := max_position s; counter := counter s;
     last_tweet_pub_time := last_tweet_pub_time s; task_stage := Some n |}.

(** One harvested post without its ['stage'] entry: what is left of the dict
    once the task runner has popped that entry. *)
Record Item : Type := {
  id : Z;
  publication_datetime : Z;
  url : string;
  author : string;
  text : string;
  is_reply : bool
}.

(** One harvested post as [parse_tweets] builds it. *)
Record Twit : Type := {
  item : Item;
  stage : TwitStage.t
}.

(** The decoded JSON body of a search reply.  [items_html] stands for
    [parse_tweets(response['items_html'])]: the posts that the page parser
    finds in the markup, [None] when the key is missing or the value is not
    markup (the [TypeError]/[KeyError] of the source).  [has_more_items] is
    the truth value of what is under that key.  [min_position] is [None]
    when the key is missing; a JSON null under it does what the empty
    string does, since both are false in [if max_position] and neither is
    sent as a parameter. *)
Record Json : Type := {
  items_html : option (list Twit);
  has_more_items : option bool;
  min_position : option string
}.

(** The body of the mobile profile page: whether
    [soup.find("div", class_="protected")] finds something. *)
Record Html : Type := {
  protected_div : bool
}.

(** What [session.get] and the reading of the body can come back with: an
    answer with a status and a decoded body, or one of the two faults that
    [emitter] knows, [asyncio.TimeoutError] and [aiohttp.ClientError].  A
    body that [response.json()] cannot decode is neither: the source then
    raises [json.JSONDecodeError], which is no [ClientError], and no reply
    of the model stands for it. *)
Inductive Reply (B : Type) : Type :=
| Http (status : Z) (body : B)
| TimeoutFault
| ClientFault.
Arguments Http {B} status body.
Arguments TimeoutFault {B}.
Arguments ClientFault {B}.

(** Values of the dict that a task runner yields. *)
Inductive Value : Type :=
| VList (l : list Item)
| VStage (s : Stage).

Definition Dict : Type := list (string * Value).

Fixpoint dict_get (k : string) (d : Dict) : option Value :=
  match d with
  | [] => None
  | (k', v) :: d' => if String.eqb k k' then Some v else dict_get k d'
  end.

(** The URL of a request: the address and the query parameters in the order
    in which the source fills [params]. *)
Definition Url : Type := (string * list (string * string))%type.

(** Everything a run does that can be seen from outside it. *)
Inductive Event : Type :=
| EvSearch (u : Url) (r : option (Reply Json))   (* GET on the search endpoint *)
| EvProfile (u : Url) (r : option (Reply Html))  (* GET on the mobile profile page *)
| EvSleep (seconds : Z)                          (* async_sleep *)
| EvYield (t : Twit)                             (* yield of _search *)
| EvEmit (d : Dict).                             (* yield of search / get_owner *)

Definition Trace : Type := list Event.

(** The object and its surroundings: [self.counter], the clock in
    milliseconds, and the replies the two endpoints still hold. *)
Record World : Type := {
  self_counter : Z;
  clock_ms : Z;
  search_replies : list (Reply Json);
  profile_replies : list (Reply Html)
}.

(** ** Effects *)

Definition M (A : Type) : Type := World -> outcome A * World * Trace.

Definition ret {A} (a : A) : M A := fun w => (Ok a, w, []).

Definition bind {A B} (m : M A) (k : A -> M B) : M B :=
  fun w =>
    match m w with
    | (Ok a, w1, t1) =>
        match k a w1 with
        | (r, w2, t2) => (r, w2, t1 ++ t2)
        end
    | (Raise e, w1, t1) => (Raise e, w1, t1)
    | (Pending, w1, t1) => (Pending, w1, t1)
    end.

Notation "x <- m ;; k" := (bind m (fun x => k))
  (at level 61, m at next level, right associativity).
Notation "m ;;; k" := (bind m (fun _ => k))
  (at level 61, right associativity).

Definition raise {A} (e : Exn) : M A := fun w => (Raise e, w, []).
Definition pending {A} : M A := fun w => (Pending, w, []).
Definition lift {A} (o : outcome A) : M A := fun w => (o, w, []).
Definition tell (e : Event) : M unit := fun w => (Ok tt, w, [e]).

Definition result_of {A} (x : outcome A * World * Trace) : outcome A := fst (fst x).
Definition world_of {A} (x : outcome A * World * Trace) : World := snd (fst x).
Definition trace_of {A} (x : outcome A * World * Trace) : Trace := snd x.

Definition get_counter : M Z := fun w => (Ok (self_counter w), w, []).

Definition set_counter (n : Z) : M unit :=
  fun w => (Ok tt,
            {| self_counter := n; clock_ms := clock_ms w;
               search_replies := search_replies w;
               profile_replies := profile_replies w |}, []).

(** [time_now() * 1000] *)
Definition time_now_ms : M Z := fun w => (Ok (clock_ms w), w, []).

Definition async_sleep (seconds : Z) : M unit :=
  fun w => (Ok tt,
            {| self_counter := self_counter w;
               clock_ms := clock_ms w + 1000 * seconds;
               search_replies := search_replies w;
               profile_replies := profile_replies w |}, [EvSleep seconds]).

Definition reply_outcome {B} (r : Reply B) : outcome (Z * B) :=
  match r with
  | Http status b => Ok (status, b)
  | TimeoutFault => Raise AsyncTimeoutError
  | ClientFault => Raise ClientError
  end.

(** [session.get(url, ...)] on the search endpoint: the request goes out and
    the next canned reply, when there is one, comes back. *)
Definition get_search (u : Url) : M (Z * Json) :=
  fun w =>
    match search_replies w with
    | [] => (Pending, w, [EvSearch u None])
    | r :: rest =>
        (reply_outcome r,
         {| self_counter := self_counter w; clock_ms := clock_ms w;
            search_replies := rest; profile_replies := profile_replies w |},
         [EvSearch u (Some r)])
    end.

Definition get_profile (u : Url) : M (Z * Html) :=
  fun w =>
    match profile_replies w with
    | [] => (Pending, w, [EvProfile u None])
    | r :: rest =>
        (reply_outcome r,
         {| self_counter := self_counter w; clock_ms := clock_ms w;
            search_replies := search_replies w; profile_replies := rest |},
         [EvProfile u (Some r)])
    end.

(** ** [class TwitterAPI] *)

Definition RESPONSE_DELAY : Z := 300.
Definition URL : string := "https://www.twitter.com".
Definition MOBILE_URL : string := "https://mobile.twitter.com/".
Definition SEARCH_URL : string := (URL ++ "/i/search/timeline")%string.

Definition default {A} (d : A) (o : option A) : A :=
  match o with Some a => a | None => d end.

(** How the body of an [async for] ends: it falls through to the next
    iteration, or it executes [return] and so ends the function around it. *)
Inductive control : Type := Continue | Returned.

(** *** [_get_query_response] *)

Definition search_url (query max_position : string) : Url :=
  let params := [("f", "tweets"); ("q", query)] in
  let params :=
    if nonempty max_position
    then params ++ [("max_position", max_position)]
    else params in
  (SEARCH_URL, params).

(** A retry is a call of the function by itself inside the two [async
    with] blocks of the caller: [fuel] is the number of calls that may be
    open at once, and the run that needs more is [Pending] (the source
    raises [RecursionError] once the stack of the interpreter is full). *)
Fixpoint _get_query_response (fuel : nat) (query max_position : string)
  : M Json :=
  match fuel with
  | O => pending
  | S fuel' =>
      let url := search_url query max_position in
      response <- get_search url ;;
      let status := fst response in
      if negb (status =? 200) then
        if status =? 503 then
          _get_query_response fuel' query max_position
        else if status =? 429 then
          async_sleep RESPONSE_DELAY ;;;
          _get_query_response fuel' query max_position
        else if (500 <=? status) && (status <? 527) then
          async_sleep RESPONSE_DELAY ;;;
          _get_query_response fuel' query max_position
        else raise (ApiError (UrlNotAvailable url status))
      else ret (snd response)
  end.

(** *** [_search] *)

(** [self.parse_tweets(response['items_html'])] under its [try]. *)
Definition parse_tweets (response : Json) : M (list Twit) :=
  match items_html response with
  | Some twits => ret twits
  | None => raise (ApiError InternalResponseError)
  end.

(** The two assignments into [twit['stage']] before the [yield]. *)
Definition stamp (twit : Twit) (n : Z) (max_position : string) : Twit :=
  {| item := item twit;
     stage :=
       {| TwitStage.last_tweet_pub_time :=
            TwitStage.last_tweet_pub_time (stage twit);
          TwitStage.max_position := max_position;
          TwitStage.counter := n |} |}.

(** [for twit in twits: if last_tweet_time > ...: ...; yield twit], the same
    in both places of the source.  [body] is the loop body of the consumer
    that iterates over the generator: it runs at every [yield], and once it
    has returned the generator is not resumed. *)
Fixpoint for_twits (last_tweet_time : Z) (max_position : string)
         (body : Twit -> M control) (twits : list Twit) : M control :=
  match twits with
  | [] => ret Continue
  | twit :: rest =>
      c <- (if last_tweet_time >? TwitStage.last_tweet_pub_time (stage twit)
            then
              n <- get_counter ;;
              set_counter (n + 1) ;;;
              n <- get_counter ;;
              let twit := stamp twit n max_position in
              tell (EvYield twit) ;;;
              body twit
            else ret Continue) ;;
      match c with
      | Returned => ret Returned
      | Continue => for_twits last_tweet_time max_position body rest
      end
  end.

(** [f'TWEET-{max_tweet_id}-{min_tweet_id}'] *)
Definition tweet_position (max_tweet_id min_tweet_id : Z) : string :=
  ("TWEET-" ++ str max_tweet_id ++ "-" ++ str min_tweet_id)%string.

(** [while twits: ...] *)
Fixpoint paginate (fuel : nat) (query : string) (last_tweet_time : Z)
         (min_tweet_id : Z) (response : Json) (twits : list Twit)
         (body : Twit -> M control) : M control :=
  match twits with
  | [] => ret Continue
  | first :: _ =>
      match fuel with
      | O => pending
      | S fuel' =>
          let max_tweet_id := id (item (last twits first)) in
          let max_position :=
            default (tweet_position max_tweet_id min_tweet_id)
                    (min_position response) in
          response <- _get_query_response fuel' query max_position ;;
          twits <- parse_tweets response ;;
          c <- for_twits last_tweet_time max_position body twits ;;
          match c with
          | Returned => ret Returned
          | Continue =>
              paginate fuel' query last_tweet_time min_tweet_id
                       response twits body
          end
      end
  end.

Definition _search (fuel : nat) (query : string) (stage : Stage)
           (body : Twit -> M control) : M control :=
  let max_position := default "" (max_position stage) in
  set_counter (default 0 (counter stage)) ;;;
  now <- time_now_ms ;;
  let last_tweet_time := default now (last_tweet_pub_time stage) in
  response <- _get_query_response fuel query max_position ;;
  twits <- parse_tweets response ;;
  match twits with
  | [] => ret Continue
  | first :: _ =>
      let has_no_more_items := negb (default false (has_more_items response)) in
      let min_tweet_id := id (item first) in
      if nonempty max_position || has_no_more_items then
        c <- for_twits last_tweet_time max_position body twits ;;
        match c with
        | Returned => ret Returned
        | Continue =>
            if has_no_more_items then ret Continue
            else paginate fuel query last_tweet_time min_tweet_id
                          response twits body
        end
      else
        paginate fuel query last_tweet_time min_tweet_id response twits body
  end.

(** *** [emitter] *)

Definition emitter (asyncgen : M unit) : M unit :=
  fun w =>
    match asyncgen w with
    | (Raise AsyncTimeoutError, w1, t1) =>
        match async_sleep 1 w1 with
        | (r, w2, t2) => (r, w2, t1 ++ t2)
        end
    | (Raise ClientError, w1, t1) => (Raise NonCriticalError, w1, t1)
    | x => x
    end.

(** *** [check_profile] *)

(** Retries nest as in [_get_query_response], with the same reading of
    [fuel]. *)
Fixpoint check_profile (fuel : nat) (profile : string) : M unit :=
  match fuel with
  | O => pending
  | S fuel' =>
      let url := ((MOBILE_URL ++ profile)%string, []) in
      response <- get_profile url ;;
      let status := fst response in
      if negb (status =? 200) then
        if status =? 503 then check_profile fuel' profile
        else if status =? 429 then
          async_sleep RESPONSE_DELAY ;;;
          check_profile fuel' profile
        else if (500 <=? status) && (status <? 527) then
          async_sleep RESPONSE_DELAY ;;;
          check_profile fuel' profile
        else if status =? 404 then raise (InvalidProfile profile)
        else raise (ApiError (UrlNotAvailable url status))
      else
        if protected_div (snd response) then raise (PrivateProfile profile)
        else ret tt
  end.

(** *** The task runners [search] and [get_owner] *)

(** The keyword arguments of a task.  A key that is absent has the default
    that the runner's [.get] gives it: [0], [''] or [{}]. *)
Module Kwargs.
Record extra_t : Type := {
  query : string;
  owner_id : string;
  stage : Stage
}.
Record t : Type := {
  last_execution_time : Z;
  id : Z;
  extra : extra_t
}.
End Kwargs.

(** The dict that a runner yields for one post; [twit.pop('stage', {})] has
    taken the ['stage'] entry out of the post by then. *)
Definition envelope (twit : Twit) (stage : Stage) : Dict :=
  [("twits", VList [item twit]); ("stage", VStage stage)].

Section Runners.

(** [datetime.fromtimestamp(t).strftime(DATE_FORMAT)], which depends on the
    time zone of the host.  For a time that the host cannot represent
    [fromtimestamp] raises ([ValueError], [OverflowError] or [OSError])
    before the task has made a request; the runners are modelled for the
    times it accepts. *)
Variable strftime_date : Z -> string.

Definition since_of (search_until : Z) : string :=
  if negb (search_until =? 0) then strftime_date search_until else "".

(** The body of [async for twit in self._search(...)] in [search]. *)
Definition search_body (search_until : Z) (twit : Twit) : M control :=
  if publication_datetime (item twit) <? search_until then ret Returned
  else
    tell (EvEmit (envelope twit (checkpoint (stage twit)))) ;;;
    ret Continue.

Definition search_gen (fuel : nat) (kwargs : Kwargs.t) : M unit :=
  let search_until := Kwargs.last_execution_time kwargs in
  let since := since_of search_until in
  let extra := Kwargs.extra kwargs in
  let stage := Kwargs.stage extra in
  let search_query := Kwargs.query extra in
  if negb (nonempty search_query) then raise (ApiError ErrorQueryIsMissing)
  else
    query <- lift (construct_query search_query "" false since "" 0) ;;
    _search fuel query stage (search_body search_until) ;;;
    ret tt.

Definition search (fuel : nat) (kwargs : Kwargs.t) : M unit :=
  emitter (search_gen fuel kwargs).

(** The body of both [async for] loops of [get_owner]. *)
Definition owner_body (search_until task_stage : Z) (twit : Twit)
  : M control :=
  let stage := set_task_stage (checkpoint (stage twit)) task_stage in
  if publication_datetime (item twit) <? search_until then ret Returned
  else
    tell (EvEmit (envelope twit stage)) ;;;
    ret Continue.

(** Stage 1 of [get_owner]: how the [if task_stage == 1] block ends, and the
    value of the variable [stage] after it. *)
Definition owner_stage_1 (fuel : nat) (profile since : string)
           (search_until : Z) (stage : Stage) (task_stage : Z)
  : M (control * Stage) :=
  if task_stage =? 1 then
    query <- lift (construct_query "" profile false since "" 0) ;;
    c <- _search fuel query stage (owner_body search_until task_stage) ;;
    match c with
    | Returned => ret (Returned, stage)
    | Continue => ret (Continue, empty_stage)
    end
  else ret (Continue, stage).

Definition owner_stage_2 (fuel : nat) (profile since : string)
           (search_until : Z) (stage : Stage) : M unit :=
  let task_stage := 2 in
  query <- lift (construct_query "" profile true since "" 0) ;;
  _search fuel query stage (owner_body search_until task_stage) ;;;
  ret tt.

Definition get_owner_gen (fuel : nat) (kwargs : Kwargs.t) : M unit :=
  let search_until := Kwargs.last_execution_time kwargs in
  let since := since_of search_until in
  let extra := Kwargs.extra kwargs in
  let stage := Kwargs.stage extra in
  let profile := Kwargs.owner_id extra in
  if negb (nonempty profile) then raise (ApiError OwnerIdIsMissing)
  else
    check_profile fuel profile ;;;
    let task_stage := default 1 (task_stage stage) in
    r <- owner_stage_1 fuel profile since search_until stage task_stage ;;
    match r with
    | (Returned, _) => ret tt
    | (Continue, stage) =>
        owner_stage_2 fuel profile since search_until stage
    end.

Definition get_owner (fuel : nat) (kwargs : Kwargs.t) : M unit :=
  emitter (get_owner_gen fuel kwargs).

End Runners.

(** * The rest of the code *)

From Stdlib Require Import DecimalZ.

(** ** [TwitterAPI.construct_video_url] *)

Definition VIDEOS_URL : string := (URL ++ "/i/videos/")%string.

Definition construct_video_url (video_material_id : Z) : string :=
  (VIDEOS_URL ++ str video_material_id)%string.

(** ** The tree of a page, as far as the page parser asks BeautifulSoup

    [to_soup] hands the markup to BeautifulSoup, and [parse_tweets] works on
    the tree that comes back.  Here the tree is given: a tag has a name, its
    [attrs] (a dict, so a key is looked up from the front) and its children,
    and a string is a leaf.  The attribute [class] holds a list of names
    separated by white space, and [class_='c'] asks for a tag that has [c]
    among them.  [find_all] runs through the descendants in the order of the
    document; [find] is its first result or [None]. *)

Module Soup.

#[local] Set Warnings "-register-all".

Inductive Node : Type :=
| Tag (name : string) (attrs : list (string * string))
      (children : list Node)
| Str (s : string).

Definition attrs (n : Node) : list (string * string) :=
  match n with
  | Tag _ a _ => a
  | Str _ => []
  end.

Fixpoint assoc (k : string) (l : list (string * string)) : option string :=
  match l with
  | [] => None
  | (k', v) :: l' => if String.eqb k k' then Some v else assoc k l'
  end.

(** [tag.get(k)] *)
Definition get (n : Node) (k : string) : option string := assoc k (attrs n).

(** [k in tag.attrs] *)
Definition has_attr (k : string) (n : Node) : bool :=
  match get n k with
  | Some _ => true
  | None => false
  end.

(** The names in the value of a [class] attribute: bs4 cuts it at white
    space, which is that of [str.isspace].  Inside a text a byte above 127
    is part of a longer character, so here only the ASCII white space is
    one byte long. *)
Definition flush (cur : string) (l : list string) : list string :=
  if nonempty cur then cur :: l else l.

Fixpoint words_acc (cur : string) (s : string) : list string :=
  match s with
  | EmptyString => flush cur []
  | String a s1 =>
      if is_ascii a && isspace a then flush cur (words_acc EmptyString s1)
      else
        match s1 with
        | EmptyString => words_acc (cur ++ String a EmptyString) s1
        | String b s2 =>
            if isspace2 a b then flush cur (words_acc EmptyString s2)
            else
              match s2 with
              | EmptyString => words_acc (cur ++ String a EmptyString) s1
              | String c s3 =>
                  if isspace3 a b c then flush cur (words_acc EmptyString s3)
                  else words_acc (cur ++ String a EmptyString) s1
              end
        end
  end.

Definition words (s : string) : list string := words_acc EmptyString s.

Definition has_class (c : string) (n : Node) : bool :=
  match get n "class" with
  | Some v => existsb (String.eqb c) (words v)
  | None => false
  end.

Definition is_tag (name : string) (n : Node) : bool :=
  match n with
  | Tag name' _ _ => String.eqb name' name
  | Str _ => false
  end.

Fixpoint descendants (n : Node) : list Node :=
  match n with
  | Tag _ _ children =>
      (fix each (l : list Node) : list Node :=
         match l with
         | [] => []
         | c :: l' => c :: descendants c ++ each l'
         end) children
  | Str _ => []
  end.

(** [tag.find_all(name)] and [tag.find_all(name, class_=c)] *)
Definition find_all (name : string) (class_ : option string) (n : Node)
  : list Node :=
  filter (fun d => is_tag name d
                   && match class_ with
                      | Some c => has_class c d
                      | None => true
                      end)
         (descendants n).

(** [tag.find(name, class_=c)] *)
Definition find (name class_ : string) (n : Node) : option Node :=
  hd_error (find_all name (Some class_) n).

(** [tag.get_text()] *)
Fixpoint get_text (n : Node) : string :=
  match n with
  | Str s => s
  | Tag _ _ children =>
      (fix each (l : list Node) : string :=
         match l with
         | [] => EmptyString
         | c :: l' => (get_text c ++ each l')%string
         end) children
  end.

End Soup.

(** ** The page parser: [TwitterAPI.parse_tweets] *)

Module Page.

(** The exceptions of Python that the parser can run into. *)
Inductive PyError : Type :=
| AttributeError                  (* an attribute of [None] *)
| KeyError (key : string)         (* [tag[key]] without that attribute *)
| TypeError                       (* [None] where a string is expected *)
| ValueError.                     (* [int] or [float] of other text *)

Inductive res (A : Type) : Type :=
| Val (a : A)
| Err (e : PyError).
Arguments Val {A} a.
Arguments Err {A} e.

Definition bind {A B} (m : res A) (k : A -> res B) : res B :=
  match m with
  | Val a => k a
  | Err e => Err e
  end.

(** [except (TypeError, KeyError)] around the call in [_search]. *)
Definition caught (e : PyError) : bool :=
  match e with
  | TypeError | KeyError _ => true
  | _ => false
  end.

(** [tag[k]] *)
Definition getitem (n : Soup.Node) (k : string) : res string :=
  match Soup.get n k with
  | Some v => Val v
  | None => Err (KeyError k)
  end.

(** One entry of [twit['video']]. *)
Record Video : Type := {
  video_url : string;
  video_image : string
}.

(** The dict of a post as [parse_tweets] leaves it.  A key that the code
    sets on some paths only is an [option]; ['photo'] holds the ['url'] of
    each of its dicts. *)
Record Parsed : Type := {
  id : Z;
  url : string;
  detected_at : Z;
  text : string;
  attachments_photo : option (list string);
  is_reply : bool;
  author : string;
  stage : TwitStage.t;
  publication_datetime : Z;
  link : option (list string);
  hash : option string;
  video : option (list Video);
  photo : option (list string)
}.

(** [try: d[k].append(x) except KeyError: d[k] = [x, ]] *)
Definition push {A} (o : option (list A)) (x : A) : option (list A) :=
  match o with
  | Some l => Some (l ++ [x])
  | None => Some [x]
  end.

(** [if s:] for what [tag.get] gives. *)
Definition truthy (o : option string) : option string :=
  match o with
  | Some s => if nonempty s then Some s else None
  | None => None
  end.

Section Parser.

(** [int(s)] and [float(s)], [None] for the [ValueError]; [sha256] with
    [hexdigest]; and the [re.search] for the address of an image in a
    [style], with [group(0)] where one is found and [''] where none is. *)
Variable py_int : string -> option Z.
Variable py_float : string -> option Z.
Variable sha256_hexdigest : string -> string.
Variable image_in : string -> string.

(** [time_now()] while the page is parsed. *)
Variable now : Z.

Definition to_int (o : option string) : res Z :=
  match o with
  | None => Err TypeError
  | Some s =>
      match py_int s with
      | Some z => Val z
      | None => Err ValueError
      end
  end.

Definition to_float (s : string) : res Z :=
  match py_float s with
  | Some z => Val z
  | None => Err ValueError
  end.

(** The entry of ['video'] for a video or a gif. *)
Definition playable (media_div : Soup.Node) (twit_id : Z) : res Video :=
  match Soup.find "div" "PlayableMedia-player" media_div with
  | None => Err AttributeError
  | Some player =>
      match Soup.get player "style" with
      | None => Err TypeError
      | Some style =>
          Val {| video_url := construct_video_url twit_id;
                 video_image := image_in style |}
      end
  end.

(** [for photo in tweet_photo_div.find_all('img'): ...] *)
Fixpoint photos (imgs : list Soup.Node) (alts urls : option (list string))
  : option (list string) * option (list string) :=
  match imgs with
  | [] => (alts, urls)
  | img :: rest =>
      let alts :=
        match truthy (Soup.get img "alt") with
        | Some a => push alts a
        | None => alts
        end in
      let urls :=
        match truthy (Soup.get img "src") with
        | Some s => push urls s
        | None => urls
        end in
      photos rest alts urls
  end.

(** The body of the loop for a [li] that has ['data-item-id']. *)
Definition parse_li (li : Soup.Node) : res Parsed :=
  bind (to_int (Soup.get li "data-item-id")) (fun twit_id =>
  bind (match Soup.find "div" "original-tweet" li with
        | None => Err AttributeError
        | Some d => Val (Soup.has_attr "data-is-reply-to" d)
        end) (fun reply =>
  bind (match Soup.find "span" "_timestamp" li with
        | Some date_span =>
            bind (bind (getitem date_span "data-time")
                       (fun s => to_int (Some s))) (fun t =>
            bind (bind (getitem date_span "data-time-ms") to_float)
                 (fun ms => Val (t, ms)))
        | None => Val (now, 0)
        end) (fun published =>
  let '(text_, links) :=
    match Soup.find "p" "tweet-text" li with
    | Some text_p =>
        (Soup.get_text text_p,
         Some (flat_map
                 (fun a => match Soup.get a "data-expanded-url" with
                           | Some u => [u]
                           | None => []
                           end)
                 (Soup.find_all "a" (Some "twitter-timeline-link") text_p)))
    | None => (EmptyString, None)
    end in
  bind (match Soup.find "div" "tweet" li with
        | Some user_details_div =>
            bind (getitem user_details_div "data-permalink-path")
                 (fun path =>
            let url := (URL ++ path)%string in
            bind (getitem user_details_div "data-screen-name")
                 (fun name => Val (url, Some (sha256_hexdigest url), name)))
        | None => Val (EmptyString, None, EmptyString)
        end) (fun user =>
  let tweet_video_div := Soup.find "div" "PlayableMedia--video" li in
  let tweet_gif_div := Soup.find "div" "PlayableMedia--gif" li in
  bind (match tweet_video_div, tweet_gif_div with
        | Some div, _ =>
            bind (playable div twit_id)
                 (fun v => Val (push None v, None, None))
        | None, Some div =>
            bind (playable div twit_id)
                 (fun v => Val (push None v, None, None))
        | None, None =>
            match Soup.find "div" "AdaptiveMedia" li with
            | Some tweet_photo_div =>
                let '(alts, urls) :=
                  photos (Soup.find_all "img" None tweet_photo_div)
                         None None in
                Val (None, alts, urls)
            | None => Val (None, None, None)
            end
        end) (fun media =>
  Val {| id := twit_id;
         url := fst (fst user);
         detected_at := now;
         text := text_;
         attachments_photo := snd (fst media);
         is_reply := reply;
         author := snd user;
         stage := {| TwitStage.last_tweet_pub_time := snd published;
                     TwitStage.max_position := EmptyString;
                     TwitStage.counter := 0 |};
         publication_datetime := fst published;
         link := links;
         hash := snd (fst user);
         video := fst (fst media);
         photo := snd media |}))))).

(** [for li in soup.find_all("li", class_='js-stream-item'): ...] *)
Fixpoint parse_items (lis : list Soup.Node) : res (list Parsed) :=
  match lis with
  | [] => Val []
  | li :: rest =>
      if negb (Soup.has_attr "data-item-id" li) then parse_items rest
      else
        bind (parse_li li) (fun twit =>
        bind (parse_items rest) (fun twits => Val (twit :: twits)))
  end.

Definition parse_tweets (soup : Soup.Node) : res (list Parsed) :=
  parse_items (Soup.find_all "li" (Some "js-stream-item") soup).

End Parser.

End Page.

(** What the stream reads of a post. *)
Definition to_twit (p : Page.Parsed) : Twit :=
  {| item := {| id := Page.id p;
                publication_datetime := Page.publication_datetime p;
                url := Page.url p; author := Page.author p;
                text := Page.text p; is_reply := Page.is_reply p |};
     stage := Page.stage p |}.

(** * Vocabulary of the properties *)

(** ** Query builder *)

(** All six inputs of [construct_query] are empty. *)
Definition inputs_empty (search_query profile : string) (reply : bool)
           (since until : string) (since_id : Z) : bool :=
  negb (nonempty search_query) && negb (nonempty profile) && negb reply
  && negb (nonempty since) && negb (nonempty until) && (since_id =? 0).

(** ** Fetcher *)

(** The classification table of the fetcher, in the words of the
    specification: what is done with a reply of a given status. *)
Inductive action : Type :=
| ReturnBody          (* 200: the decoded body is the result *)
| RetryAtOnce         (* 503: the same request again, no pause *)
| PauseThenRetry      (* 429, 500..526: fixed pause, the same request again *)
| FailApiError.       (* any other status *)

Definition classify (status : Z) : action :=
  if status =? 200 then ReturnBody
  else if status =? 503 then RetryAtOnce
  else if (status =? 429) || ((500 <=? status) && (status <=? 526))
  then PauseThenRetry
  else FailApiError.

Definition mkWorld (n now : Z) (sr : list (Reply Json))
           (pr : list (Reply Html)) : World :=
  {| self_counter := n; clock_ms := now;
     search_replies := sr; profile_replies := pr |}.

(** Put events in front of what a run gives. *)
Definition after {A} (evs : Trace) (x : outcome A * World * Trace)
  : outcome A * World * Trace :=
  (result_of x, world_of x, evs ++ trace_of x).

Definition is_sleep (e : Event) : bool :=
  match e with EvSleep _ => true | _ => false end.

(** The URLs of the search requests of a trace, in order. *)
Fixpoint requests_of (tr : Trace) : list Url :=
  match tr with
  | [] => []
  | EvSearch u _ :: tr' => u :: requests_of tr'
  | _ :: tr' => requests_of tr'
  end.

(** ** Regular expressions and profile names *)

(** The words of a derivative, which may be missing. *)
Definition MatchesO (o : option Re.regex) (s : list ascii) : Prop :=
  match o with
  | Some d => Re.Matches d s
  | None => False
  end.

(** No character of [l] is the separator. *)
Definition free_of (sep : ascii) (l : list ascii) : bool :=
  forallb (fun c => negb (Ascii.eqb c sep)) l.

Definition is_nil {A} (l : list A) : bool :=
  match l with [] => true | _ :: _ => false end.

(** A run of word characters that may be closed by one newline. *)
Fixpoint word_run (l : list ascii) : bool :=
  match l with
  | [] => true
  | c :: l' =>
      if Re.word_char c then word_run l'
      else Ascii.eqb c Re.newline && is_nil l'
  end.

(** One or more ASCII letters, digits and underscores, and possibly one
    newline after them. *)
Definition is_alias (s : string) : bool :=
  match list_ascii_of_string s with
  | [] => false
  | c :: l => Re.word_char c && word_run l
  end.

(** The pattern of the aliases as [re.I] reads it, which is how the last
    part of [profile_url_pattern] is read. *)
Definition alias_pattern_i : Re.pattern :=
  {| Re.at_start := true;
     Re.body := Re.plus Re.word_i;
     Re.at_end := true |}.

(** One or more characters that are ASCII letters, digits, underscores or
    one of U+0130, U+0131, U+017F and U+212A, and possibly one newline
    after them. *)
Definition is_alias_i (s : string) : bool := Re.search alias_pattern_i s.

(** No character outside ASCII. *)
Definition only_ascii (s : string) : bool :=
  forallb is_ascii (list_ascii_of_string s).

(** Only ASCII letters, digits and underscores. *)
Definition only_word_chars (s : string) : bool :=
  forallb Re.word_char (list_ascii_of_string s).

(** ** Runs and traces *)

(** How a run goes on with the code that follows it. *)
Definition bind_on {A B} (x : outcome A * World * Trace) (k : A -> M B)
  : outcome B * World * Trace :=
  match x with
  | (Ok a, w1, t1) => after t1 (k a w1)
  | (Raise e, w1, t1) => (Raise e, w1, t1)
  | (Pending, w1, t1) => (Pending, w1, t1)
  end.

(** What follows a [for] loop over the posts of a page: nothing when the
    consumer has returned, otherwise [k]. *)
Definition and_then (k : M control) (c : control) : M control :=
  match c with
  | Returned => ret Returned
  | Continue => k
  end.

(** An event of the fetcher at work for [query]: a request for that query
    with some cursor, or a pause. *)
Definition is_fetch (query : string) (e : Event) : Prop :=
  match e with
  | EvSearch u _ => exists max_position, u = search_url query max_position
  | EvSleep _ => True
  | _ => False
  end.

(** The shape of every trace of the crawl stream for [query] when [body]
    consumes it: requests and pauses of the fetcher, and posts yielded to
    the body, each followed by what the body does with it; the first body
    that does not fall through ends the trace and decides the result. *)
Inductive Stream (query : string) (body : Twit -> M control)
  : outcome control -> Trace -> Prop :=
| St_end r :
    r <> Ok Returned -> Stream query body r []
| St_fetch e r tr :
    is_fetch query e -> Stream query body r tr ->
    Stream query body r (e :: tr)
| St_yield t w w' btr r tr :
    body t w = (Ok Continue, w', btr) -> Stream query body r tr ->
    Stream query body r (EvYield t :: btr ++ tr)
| St_stop t w w' btr r :
    body t w = (r, w', btr) -> r <> Ok Continue ->
    Stream query body r (EvYield t :: btr).

(** ** What the task runners do with the stream *)

(** The common form of the loop bodies of [search] and [get_owner]: a post
    older than the last execution ends the task, any other is handed on in
    an envelope with the checkpoint [mk] makes of it. *)
Definition RunnerBody (T : Z) (mk : Twit -> Stage) (body : Twit -> M control)
  : Prop :=
  forall (t : Twit) (w : World),
    body t w
    = if publication_datetime (item t) <? T then (Ok Returned, w, [])
      else (Ok Continue, w, [EvEmit (envelope t (mk t))]).

Definition search_stage (t : Twit) : Stage := checkpoint (stage t).

Definition owner_stage (task_stage : Z) (t : Twit) : Stage :=
  set_task_stage (checkpoint (stage t)) task_stage.

(** A post published before the last execution of the task. *)
Definition stale (T : Z) (t : Twit) : Prop :=
  publication_datetime (item t) < T.

(** Every stale post that the stream yields is the last event of the
    trace. *)
Fixpoint stops_at_stale (T : Z) (tr : Trace) : Prop :=
  match tr with
  | [] => True
  | EvYield t :: tr' => (stale T t -> tr' = []) /\ stops_at_stale T tr'
  | _ :: tr' => stops_at_stale T tr'
  end.

(** The trace holds a stale post. *)
Fixpoint has_stale (T : Z) (tr : Trace) : Prop :=
  match tr with
  | [] => False
  | EvYield t :: tr' => stale T t \/ has_stale T tr'
  | _ :: tr' => has_stale T tr'
  end.

(** Every envelope comes right after the post it holds, carries the
    checkpoint [mk] makes of that post, and the post is not stale.  [prev]
    is the post yielded just before [tr], if the event before is a yield. *)
Fixpoint enveloped_from (T : Z) (mk : Twit -> Stage) (prev : option Twit)
         (tr : Trace) : Prop :=
  match tr with
  | [] => True
  | e :: tr' =>
      match e with
      | EvEmit d =>
          match prev with
          | Some t =>
              d = envelope t (mk t) /\ T <= publication_datetime (item t)
          | None => False
          end
      | _ => True
      end
      /\ enveloped_from T mk
           (match e with EvYield t => Some t | _ => None end) tr'
  end.

(** A pause. *)
Definition is_pause (e : Event) : Prop :=
  match e with
  | EvSleep _ => True
  | _ => False
  end.

(** Events of a check of the profile: requests for the profile page and
    pauses. *)
Definition is_check (e : Event) : Prop :=
  match e with
  | EvProfile _ _ => True
  | EvSleep _ => True
  | _ => False
  end.

(** Events of one phase of a crawl for [query]: requests for that query,
    pauses, posts and envelopes. *)
Definition is_phase (query : string) (e : Event) : Prop :=
  match e with
  | EvSearch u _ => exists max_position, u = search_url query max_position
  | EvProfile _ _ => False
  | _ => True
  end.

(** What [emitter] adds to the trace of the generator it wraps. *)
Definition emitter_tail (r : outcome unit) : Trace :=
  match r with
  | Raise AsyncTimeoutError => [EvSleep 1]
  | _ => []
  end.

(** The query of a phase of an owner crawl. *)
Definition owner_query (profile : string) (reply : bool) (since : string)
  : string :=
  match construct_query "" profile reply since "" 0 with
  | Ok query => query
  | _ => ""
  end.

(** The end of a generator whose last part is [x]. *)
Definition finish {A} (x : outcome A * World * Trace)
  : outcome unit * World * Trace :=
  (match result_of x with
   | Ok _ => Ok tt
   | Raise e => Raise e
   | Pending => Pending
   end, world_of x, trace_of x).

(** The query of a search task. *)
Definition task_query (search_query since : string) : string :=
  match construct_query search_query "" false since "" 0 with
  | Ok query => query
  | _ => ""
  end.

(** The two phases of an owner crawl, as runs of the stream. *)
Definition owner_phase_1 (fuel : nat) (profile since : string) (T : Z)
           (stage : Stage) (w : World) : outcome control * World * Trace :=
  _search fuel (owner_query profile false since) stage (owner_body T 1) w.

Definition owner_phase_2 (fuel : nat) (profile since : string) (T : Z)
           (stage : Stage) (w : World) : outcome control * World * Trace :=
  _search fuel (owner_query profile true since) stage (owner_body T 2) w.

(** An owner crawl, part by part: the check of the profile, then, for a
    checkpoint of stage 1, phase 1 and after its normal end phase 2 with an
    empty checkpoint, and for any other checkpoint phase 2 alone. *)
Definition owner_run (fuel : nat) (profile since : string) (T : Z)
           (stage : Stage) (w : World) : outcome unit * World * Trace :=
  let chk := check_profile fuel profile w in
  match result_of chk with
  | Ok _ =>
      if default 1 (task_stage stage) =? 1 then
        let p1 := owner_phase_1 fuel profile since T stage (world_of chk) in
        match result_of p1 with
        | Ok Continue =>
            after (trace_of chk ++ trace_of p1)
                  (finish (owner_phase_2 fuel profile since T empty_stage
                                         (world_of p1)))
        | _ => after (trace_of chk) (finish p1)
        end
      else
        after (trace_of chk)
              (finish (owner_phase_2 fuel profile since T stage
                                     (world_of chk)))
  | _ => finish chk
  end.

(** No request for the profile page. *)
Definition not_profile (e : Event) : Prop :=
  match e with
  | EvProfile _ _ => False
  | _ => True
  end.

(** Every envelope of the trace holds one post, and that post is not
    stale. *)
Definition emits_fresh (T : Z) (tr : Trace) : Prop :=
  forall d : Dict,
    In (EvEmit d) tr ->
    exists (t : Twit) (s : Stage),
      d = envelope t s /\ T <= publication_datetime (item t).

(** ** Sample tasks and worlds *)

Definition post (i published published_ms : Z) : Twit :=
  {| item := {| id := i; publication_datetime := published;
                url := ""; author := "bob"; text := "";
                is_reply := false |};
     stage := {| TwitStage.last_tweet_pub_time := published_ms;
                 TwitStage.max_position := "";
                 TwitStage.counter := 0 |} |}.

Definition page (twits : list Twit) (more : bool)
           (position : option string) : Reply Json :=
  Http 200 {| items_html := Some twits; has_more_items := Some more;
              min_position := position |}.

Definition no_body : Json :=
  {| items_html := None; has_more_items := None; min_position := None |}.

Definition open_profile : Reply Html := Http 200 {| protected_div := false |}.

(** A host on which every time stamp falls on the same day. *)
Definition one_day (t : Z) : string := "2019-01-01".

(** A task that was last executed at second 55. *)
Definition a_task (stage : Stage) : Kwargs.t :=
  {| Kwargs.last_execution_time := 55; Kwargs.id := 1;
     Kwargs.extra := {| Kwargs.query := "cats"; Kwargs.owner_id := "bob";
                        Kwargs.stage := stage |} |}.

(** One last page of two posts; the second is older than second 55. *)
Definition last_page_world : World :=
  mkWorld 0 100000
          [page [post 9 90 90000; post 4 40 40000] false None]
          [open_profile].

(** The profile page is not there. *)
Definition no_profile_world : World :=
  mkWorld 0 100000
          [page [post 9 90 90000] false None]
          [Http 503 {| protected_div := false |};
           Http 404 {| protected_div := false |}].

(** Phase 1 of two posts on a last page, phase 2 of one. *)
Definition two_phase_world : World :=
  mkWorld 0 100000
          [page [post 9 90 90000; post 8 80 80000] false None;
           page [post 7 70 70000] false None]
          [open_profile].

(** ** The crawl stream, page by page *)

(** A consumer that takes every post and goes on. *)
Definition drain (t : Twit) : M control := ret Continue.

(** A page of a run, as the trace shows it: the URL it was fetched with,
    its body, the posts the stream yielded for it, and the URLs of the
    requests made after it, up to the one that fetched the next page. *)
Record Page : Type := {
  pg_url : Url;
  pg_json : Json;
  pg_yield : list Twit;
  pg_next : list Url
}.

(** The posts yielded at the head of a trace. *)
Fixpoint yields_of (tr : Trace) : list Twit :=
  match tr with
  | EvYield t :: tr' => t :: yields_of tr'
  | _ => []
  end.

Definition is_page (r : option (Reply Json)) : bool :=
  match r with
  | Some (Http status _) => status =? 200
  | _ => false
  end.

(** The URLs of the search requests at the head of a trace, up to the first
    one that is answered by a page. *)
Fixpoint next_requests (tr : Trace) : list Url :=
  match tr with
  | [] => []
  | EvSearch u r :: tr' =>
      u :: (if is_page r then [] else next_requests tr')
  | _ :: tr' => next_requests tr'
  end.

Fixpoint pages_of (tr : Trace) : list Page :=
  match tr with
  | [] => []
  | EvSearch u (Some (Http status j)) :: tr' =>
      if status =? 200
      then {| pg_url := u; pg_json := j; pg_yield := yields_of tr';
              pg_next := next_requests tr' |} :: pages_of tr'
      else pages_of tr'
  | _ :: tr' => pages_of tr'
  end.

Fixpoint lookup (k : string) (l : list (string * string)) : option string :=
  match l with
  | [] => None
  | (k', v) :: l' => if String.eqb k k' then Some v else lookup k l'
  end.

(** The cursor a URL carries; none is the empty cursor. *)
Definition cursor_of (u : Url) : string :=
  default "" (lookup "max_position" (snd u)).

Definition pg_twits (p : Page) : list Twit :=
  default [] (items_html (pg_json p)).

(** The page is the last one of the source. *)
Definition pg_last (p : Page) : bool :=
  negb (default false (has_more_items (pg_json p))).

(** The post was published before the watermark. *)
Definition unseen (watermark : Z) (t : Twit) : bool :=
  TwitStage.last_tweet_pub_time (stage t) <? watermark.

(** The watermark of an invocation: the checkpoint's
    [last_tweet_pub_time], or the time at its start. *)
Definition watermark_of (stage : Stage) (w : World) : Z :=
  default (clock_ms w) (last_tweet_pub_time stage).

(** The posts of [l] as the stream yields them from counter [n] on. *)
Fixpoint stamp_all (max_position : string) (n : Z) (l : list Twit)
  : list Twit :=
  match l with
  | [] => []
  | t :: l' => stamp t (n + 1) max_position
               :: stamp_all max_position (n + 1) l'
  end.

(** All posts of the page that are before the watermark are yielded, in
    order, and nothing else. *)
Definition yields_unseen (watermark : Z) (p : Page) : Prop :=
  exists n,
    pg_yield p
    = stamp_all (cursor_of (pg_url p)) n
                (filter (unseen watermark) (pg_twits p)).

(** The gate of the first page: it was fetched with a cursor, or it is the
    last page. *)
Definition gate (p : Page) : bool :=
  nonempty (cursor_of (pg_url p)) || pg_last p.

(** The rule of emission as the specification words it: a page emits its
    unseen posts if the gate is open, and nothing otherwise. *)
Definition emission_rule_stated (watermark : Z) (p : Page) : Prop :=
  if gate p then yields_unseen watermark p else pg_yield p = [].

(** The post [t] of the page was yielded (with some counter). *)
Definition emitted (p : Page) (t : Twit) : Prop :=
  exists n, In (stamp t n (cursor_of (pg_url p))) (pg_yield p).

(** The cursor after a page: the [min_position] of its body, or the one
    made of the id of its last post and the id [first_id]. *)
Definition cursor_after (first_id : Z) (response : Json)
           (twits : list Twit) : string :=
  match twits with
  | [] => ""
  | first :: _ =>
      default (tweet_position (id (item (last twits first))) first_id)
              (min_position response)
  end.

(** The id of the first post of a list. *)
Definition first_id_of (twits : list Twit) : Z :=
  match twits with
  | [] => 0
  | first :: _ => id (item first)
  end.

(** The smallest id of a list of posts. *)
Definition min_id_of (twits : list Twit) : Z :=
  match twits with
  | [] => 0
  | first :: rest =>
      fold_left (fun m t => Z.min m (id (item t))) rest (id (item first))
  end.

(** The cursor after a page as the specification words it:
    "RANGE-{oldest_id}-{first_seen_min_id}" with the id of the oldest (last)
    post of the page and the smallest id of the first page. *)
Definition cursor_stated (first_page : list Twit) (twits : list Twit)
  : string :=
  match twits with
  | [] => ""
  | first :: _ =>
      ("RANGE-" ++ str (id (item (last twits first))) ++ "-"
       ++ str (min_id_of first_page))%string
  end.

(** Every request after the page carries the cursor [c]. *)
Definition next_with (query c : string) (p : Page) : Prop :=
  Forall (fun u => u = search_url query c) (pg_next p).

(** The first page has more items but an empty [min_position]: the second
    page is fetched without a cursor. *)
Definition empty_position_world : World :=
  mkWorld 0 100000
          [page [post 9 90 90000] true (Some "");
           page [post 7 70 70000] true None;
           page [] false None]
          [open_profile].

(** Two pages without [min_position]; the first holds the ids 9 and 8. *)
Definition no_position_world : World :=
  mkWorld 0 100000
          [page [post 9 90 90000; post 8 80 80000] true None;
           page [post 7 70 70000] true None;
           page [] false None]
          [open_profile].

(** Pages that are not sorted by time: the second page holds a post that
    is newer than the posts of the first page and a post that is newer than
    the start of the run. *)
Definition unsorted_world : World :=
  mkWorld 0 100000
          [page [post 9 90 50000; post 8 80 40000] true (Some "a");
           page [post 7 70 70000; post 6 60 120000; post 5 50 30000]
                true (Some "b");
           page [] false None]
          [open_profile].

(** A checkpoint with a cursor and nothing else. *)
Definition resumed_stage : Stage :=
  {| max_position := Some "s"; counter := None;
     last_tweet_pub_time := None; task_stage := None |}.

(** An event of the fetcher while it has no page yet: a request for [u]
    that no page answers, or a pause. *)
Definition is_retry (u : Url) (e : Event) : Prop :=
  match e with
  | EvSearch u' r => u' = u /\ is_page r = false
  | EvSleep _ => True
  | _ => False
  end.

(** What holds of every page after the first: it was asked for with the
    query, all its unseen posts were yielded, the requests after it carry
    the cursor after it, and after a page without posts there is none. *)
Definition page_ok (query : string) (watermark first_id : Z) (p : Page)
  : Prop :=
  (exists c, pg_url p = search_url query c)
  /\ yields_unseen watermark p
  /\ next_with query (cursor_after first_id (pg_json p) (pg_twits p)) p
  /\ (pg_twits p = [] -> pg_next p = []).

(** After a page with posts there is a request. *)
Definition advances (p : Page) : Prop :=
  pg_twits p <> [] -> pg_next p <> [].

(** What holds of the pages of an invocation of the stream for [query] that
    starts at cursor [c0] with the watermark [watermark]: the first page was
    fetched at [c0] and emits by the gated rule, a first page that is not
    the last one is followed by requests at the cursor after it, and every
    later page is as [page_ok] says, with the id of the first post of the
    first page in the cursors that are made up.  [enough] says that the
    recursion budget does not run out. *)
Definition pages_ok (query c0 : string) (watermark : Z) (enough : Prop)
           (pages : list Page) : Prop :=
  match pages with
  | [] => True
  | p0 :: ps =>
      let first_id := first_id_of (pg_twits p0) in
      pg_url p0 = search_url query c0
      /\ emission_rule_stated watermark p0
      /\ (if pg_last p0 then pg_next p0 = []
          else next_with query
                         (cursor_after first_id (pg_json p0) (pg_twits p0))
                         p0)
      /\ (pg_twits p0 = [] -> pg_next p0 = [])
      /\ Forall (page_ok query watermark first_id) ps
      /\ (enough ->
          (pg_twits p0 <> [] -> pg_last p0 = false -> pg_next p0 <> [])
          /\ Forall advances ps)
  end.

(** The id of the last post of a list. *)
Definition last_id_of (twits : list Twit) : Z :=
  match twits with
  | [] => 0
  | first :: _ => id (item (last twits first))
  end.

(** * Vocabulary of further properties *)

(** ** Posts, counters and events of a whole trace *)

(** All posts that a trace yields, in order. *)
Fixpoint all_yields (tr : Trace) : list Twit :=
  match tr with
  | [] => []
  | EvYield t :: tr' => t :: all_yields tr'
  | _ :: tr' => all_yields tr'
  end.




(** Every event of what the code does is as [P] says. *)
Definition Emits (P : Event -> Prop) {A} (c : M A) : Prop :=
  forall w, Forall P (trace_of (c w)).

(** ** Laws of runs *)

(** How a run ends, whatever it returns. *)
Inductive kind : Type :=
| KOk
| KRaise (e : Exn)
| KPending.

Definition kind_of {A} (o : outcome A) : kind :=
  match o with
  | Ok _ => KOk
  | Raise e => KRaise e
  | Pending => KPending
  end.

Definition with_counter (n : Z) (w : World) : World :=
  mkWorld n (clock_ms w) (search_replies w) (profile_replies w).

(** A relation between the world before a run, its trace, its end and the
    world after it, kept by every run of the code. *)
Definition Steps (R : World -> Trace -> kind -> World -> Prop) {A} (c : M A)
  : Prop :=
  forall w, R w (trace_of (c w)) (kind_of (result_of (c w))) (world_of (c w)).

(** What such a relation has to hold of, for the crawl stream to keep it:
    the steps of the code one by one, and their sequence. *)
Record Law (R : World -> Trace -> kind -> World -> Prop) : Prop := {
  law_ret : forall w, R w [] KOk w;
  law_seq : forall w a w1 b k w2,
      R w a KOk w1 -> R w1 b k w2 -> R w (a ++ b) k w2;
  law_pending : forall w, R w [] KPending w;
  law_search : forall u, Steps R (get_search u);
  law_sleep : Steps R (async_sleep RESPONSE_DELAY);
  law_yield : forall t w,
      TwitStage.counter (stage t) = self_counter w + 1 ->
      R w [EvYield t] KOk (with_counter (self_counter w + 1) w);
  law_emit : forall d w, R w [EvEmit d] KOk w;
  law_api : forall m w, R w [] (KRaise (ApiError m)) w
}.

(** And for the check of [profile] to keep it. *)
Record ProfileLaw (profile : string)
       (R : World -> Trace -> kind -> World -> Prop) : Prop := {
  law_profile : forall u, Steps R (get_profile u);
  law_invalid : forall w, R w [] (KRaise (InvalidProfile profile)) w;
  law_private : forall w, R w [] (KRaise (PrivateProfile profile)) w
}.

(** A law that does not look at the counter. *)
Definition counter_blind (R : World -> Trace -> kind -> World -> Prop)
  : Prop :=
  forall n w, R w [] KOk (with_counter n w).

(** *** Pauses *)

(** A pause, if the event is one, is of the fixed delay. *)
Definition fixed_pause (e : Event) : Prop :=
  match e with
  | EvSleep s => s = RESPONSE_DELAY
  | _ => True
  end.

(** ** More sample worlds *)


(** The first request runs into the timeout. *)
Definition timeout_world : World :=
  mkWorld 0 100000 [TimeoutFault; page [] false None] [open_profile].

(** One last page whose first post is older than its second. *)
Definition unsorted_page_world : World :=
  mkWorld 0 100000
          [page [post 8 80 40000; post 7 70 70000] false None]
          [open_profile].

(** ** Replies that are asked again *)

(** The reply has a status on which the request is repeated. *)
Definition retried {B} (r : Reply B) : bool :=
  match r with
  | Http status _ =>
      match classify status with
      | RetryAtOnce | PauseThenRetry => true
      | _ => false
      end
  | _ => false
  end.

(** The reply has a status on which the code pauses before it repeats the
    request. *)
Definition paused {B} (r : Reply B) : bool :=
  match r with
  | Http status _ =>
      match classify status with
      | PauseThenRetry => true
      | _ => false
      end
  | _ => false
  end.

(** What the fetcher makes of a reply on which it does not repeat the
    request for [u]. *)
Definition fetch_verdict (u : Url) (r : Reply Json) : outcome Json :=
  match r with
  | Http status j =>
      if status =? 200 then Ok j
      else Raise (ApiError (UrlNotAvailable u status))
  | TimeoutFault => Raise AsyncTimeoutError
  | ClientFault => Raise ClientError
  end.

(** What the check of [profile] makes of such a reply. *)
Definition check_verdict (profile : string) (u : Url) (r : Reply Html)
  : outcome unit :=
  match r with
  | Http status html =>
      if status =? 200 then
        if protected_div html then Raise (PrivateProfile profile) else Ok tt
      else if status =? 404 then Raise (InvalidProfile profile)
      else Raise (ApiError (UrlNotAvailable u status))
  | TimeoutFault => Raise AsyncTimeoutError
  | ClientFault => Raise ClientError
  end.

(** The events of the requests for [u] that got the replies [rs], each with
    the pause that follows it. *)
Definition retry_events {B} (ev : Url -> option (Reply B) -> Event) (u : Url)
           (rs : list (Reply B)) : Trace :=
  flat_map (fun r => ev u (Some r)
                     :: (if paused r then [EvSleep RESPONSE_DELAY] else []))
           rs.

Definition pauses_in {B} (rs : list (Reply B)) : Z :=
  Z.of_nat (List.length (filter paused rs)).

(** A busy server, then the page. *)
Definition busy_replies : list (Reply Json) :=
  [Http 503 no_body; Http 500 no_body; Http 429 no_body; Http 503 no_body].

(** A busy server, then no such profile. *)
Definition busy_profile_replies : list (Reply Html) :=
  [Http 526 {| protected_div := false |};
   Http 503 {| protected_div := true |}].

(** ** White space outside ASCII *)

(** U+00A0, the no-break space. *)
Definition nbsp : string :=
  String (ascii_of_nat 194) (String (ascii_of_nat 160) EmptyString).

(** U+0085, the next-line character. *)
Definition nel : string :=
  String (ascii_of_nat 194) (String (ascii_of_nat 133) EmptyString).

(** U+3000, the ideographic space. *)
Definition wide_space : string :=
  String (ascii_of_nat 227)
         (String (ascii_of_nat 128) (String (ascii_of_nat 128) EmptyString)).

(** ** Links to profiles *)

(** The address of the profile page of [alias], with or without TLS and
    with or without the [www.] of the host. *)
Definition profile_link (secure www : bool) (alias : string) : string :=
  ("http" ++ (if secure then "s" else "") ++ "://"
   ++ (if www then "www." else "") ++ "twitter.com/" ++ alias)%string.

(** ** Runs that wait *)

(** The run has just sent a request for which the endpoint has no reply
    left. *)
Definition starved {A} (x : outcome A * World * Trace) : Prop :=
  match last (trace_of x) (EvSleep 0) with
  | EvSearch _ None => search_replies (world_of x) = []
  | EvProfile _ None => profile_replies (world_of x) = []
  | _ => False
  end.

(** From a world as [pre] says, the code waits only when it is starved, and
    when it returns the world is as [post] says. *)
Definition Waits (pre : World -> Prop) {A} (c : M A) (post : World -> Prop)
  : Prop :=
  forall w,
    pre w ->
    (result_of (c w) = Pending -> starved (c w))
    /\ (forall a, result_of (c w) = Ok a -> post (world_of (c w))).

(** The endpoints hold no more than [n] and [m] replies. *)
Definition budget (n m : nat) (w : World) : Prop :=
  (List.length (search_replies w) <= n)%nat
  /\ (List.length (profile_replies w) <= m)%nat.

(** The endpoints have nothing to say. *)
Definition silent_world : World := mkWorld 0 100000 [] [].

(** ** The end of the stream *)

(** The pages end with a page without posts, or they are one page that is
    the last page of the source. *)
Definition ends_at (pages : list Page) : Prop :=
  exists before p,
    pages = before ++ [p]
    /\ (pg_twits p = [] \/ (before = [] /\ pg_last p = true)).

(** Three pages that all say they are the last; the third has no posts. *)
Definition all_last_world : World :=
  mkWorld 0 100000
          [page [post 9 90 90000] true (Some "a");
           page [post 7 70 70000] false (Some "b");
           page [] false None;
           page [post 5 50 50000] false None]
          [open_profile].

(** ** The requests of a search task *)

(** The event is no request for a profile, and if it is a search request,
    it is one to the search endpoint for posts with the query [q]. *)
Definition asks_for (q : string) (e : Event) : Prop :=
  match e with
  | EvSearch u _ =>
      fst u = SEARCH_URL
      /\ lookup "f" (snd u) = Some "tweets"
      /\ lookup "q" (snd u) = Some q
  | EvProfile _ _ => False
  | _ => True
  end.

(** ** The requests of an owner task *)

(** [' since:' + since], where there is a date. *)
Definition since_clause (since : string) : string :=
  if nonempty since then (" since:" ++ since)%string else EmptyString.

(** A request for the profile is one for the mobile page of [profile], and
    a search request is one to the search endpoint for the posts from
    [profile] or for the replies to it. *)
Definition owner_asks (profile since : string) (e : Event) : Prop :=
  match e with
  | EvSearch u _ =>
      fst u = SEARCH_URL
      /\ lookup "f" (snd u) = Some "tweets"
      /\ (lookup "q" (snd u)
          = Some ("from:" ++ profile ++ since_clause since)%string
          \/ lookup "q" (snd u)
             = Some ("to:" ++ profile ++ " filter:replies"
                     ++ since_clause since)%string)
  | EvProfile u _ => u = ((MOBILE_URL ++ profile)%string, [])
  | _ => True
  end.

(** ** Pages *)

(** The items of a page: the [li] of the class of stream items that carry
    an id, in the order of the document. *)
Definition page_items (soup : Soup.Node) : list Soup.Node :=
  filter (Soup.has_attr "data-item-id")
         (Soup.find_all "li" (Some "js-stream-item") soup).

Section PageVocabulary.

Variable py_int : string -> option Z.
Variable py_float : string -> option Z.
Variable sha256_hexdigest : string -> string.
Variable now : Z.

(** What a post says of the item it was read from: its id, whether it is a
    reply, and when it was published; for an item without a time stamp that
    is the time of parsing, with the time in milliseconds left at zero, so
    that the post is before every watermark of the stream. *)
Definition read_from (li : Soup.Node) (t : Page.Parsed) : Prop :=
  (exists s, Soup.get li "data-item-id" = Some s
             /\ py_int s = Some (Page.id t))
  /\ (exists d, Soup.find "div" "original-tweet" li = Some d
                /\ Page.is_reply t = Soup.has_attr "data-is-reply-to" d)
  /\ match Soup.find "span" "_timestamp" li with
     | Some date_span =>
         exists s ms,
           Soup.get date_span "data-time" = Some s
           /\ py_int s = Some (Page.publication_datetime t)
           /\ Soup.get date_span "data-time-ms" = Some ms
           /\ py_float ms
              = Some (TwitStage.last_tweet_pub_time (Page.stage t))
     | None =>
         Page.publication_datetime t = now
         /\ TwitStage.last_tweet_pub_time (Page.stage t) = 0
         /\ forall watermark,
             0 < watermark -> unseen watermark (to_twit t) = true
     end.

(** What holds of every post that the parser builds. *)
Definition well_formed (t : Page.Parsed) : Prop :=
  Page.detected_at t = now
  /\ TwitStage.counter (Page.stage t) = 0
  /\ TwitStage.max_position (Page.stage t) = EmptyString
  /\ match Page.hash t with
     | Some h =>
         h = sha256_hexdigest (Page.url t)
         /\ startswith (Page.url t) URL = true
     | None => Page.url t = EmptyString /\ Page.author t = EmptyString
     end
  /\ (Page.link t = None -> Page.text t = EmptyString)
  /\ match Page.video t with
     | Some vs =>
         (exists image,
             vs = [{| Page.video_url := construct_video_url (Page.id t);
                      Page.video_image := image |}])
         /\ Page.photo t = None /\ Page.attachments_photo t = None
     | None => True
     end
  /\ match Page.photo t with
     | Some urls => urls <> [] /\ Forall (fun u => nonempty u = true) urls
     | None => True
     end
  /\ match Page.attachments_photo t with
     | Some alts => alts <> [] /\ Forall (fun a => nonempty a = true) alts
     | None => True
     end.

End PageVocabulary.

(** ** A sample page *)

(** [int] and [float] on decimal numerals. *)
Definition decimal (s : string) : option Z :=
  option_map Z.of_int (NilZero.int_of_string s).

Definition no_digest (s : string) : string := EmptyString.

Definition no_image (s : string) : string := EmptyString.

(** A post of "bob" with a link and a video. *)
Definition item_with_video : Soup.Node :=
  Soup.Tag "li" [("class", "js-stream-item stream-item");
                 ("data-item-id", "9")]
    [Soup.Tag "div" [("class", "tweet original-tweet");
                     ("data-permalink-path", "/bob/status/9");
                     ("data-screen-name", "bob")]
       [Soup.Tag "span" [("class", "_timestamp"); ("data-time", "90");
                         ("data-time-ms", "90000")] [];
        Soup.Tag "p" [("class", "tweet-text")]
          [Soup.Str "see ";
           Soup.Tag "a" [("class", "twitter-timeline-link");
                         ("data-expanded-url", "http://example.org/")]
             [Soup.Str "example.org"]];
        Soup.Tag "div" [("class", "PlayableMedia PlayableMedia--video")]
          [Soup.Tag "div" [("class", "PlayableMedia-player");
                           ("style", "background:url(x)")] []];
        Soup.Tag "div" [("class", "AdaptiveMedia")]
          [Soup.Tag "img" [("src", "http://example.org/a.png")] []]]].

(** A stream item that is no post: it has no id. *)
Definition item_without_id : Soup.Node :=
  Soup.Tag "li" [("class", "js-stream-item")] [Soup.Str "promoted"].

(** A reply without a time stamp, with two photos. *)
Definition item_with_photos : Soup.Node :=
  Soup.Tag "li" [("class", "js-stream-item"); ("data-item-id", "7")]
    [Soup.Tag "div" [("class", "original-tweet");
                     ("data-is-reply-to", "true")]
       [Soup.Tag "div" [("class", "AdaptiveMedia")]
          [Soup.Tag "img" [("src", "http://example.org/b.png");
                           ("alt", "a cat")] [];
           Soup.Tag "img" [("alt", "")] [];
           Soup.Tag "img" [("src", "http://example.org/c.png")] []]]].

(** An item with an id and nothing in it. *)
Definition item_without_tweet : Soup.Node :=
  Soup.Tag "li" [("class", "js-stream-item"); ("data-item-id", "5")] [].

Definition sample_page : Soup.Node :=
  Soup.Tag "[document]" []
    [Soup.Tag "ol" []
       [item_with_video; item_without_id; item_with_photos]].

Definition broken_page : Soup.Node :=
  Soup.Tag "[document]" []
    [item_with_photos; item_without_tweet; item_with_video].

(** * Properties *)

(** ** The model at work *)

Example construct_query_text :
  construct_query "hello" "" false "" "" 0 = Ok "hello".
Proof. reflexivity. Qed.

Example construct_query_reply :
  construct_query "" "alice" true "" "" 0 = Ok "to:alice filter:replies".
Proof. reflexivity. Qed.

Example construct_query_all :
  construct_query "cats" "bob" false "2019-01-02" "2019-02-03" 17
  = Ok "cats from:bob until:2019-02-03 since:2019-01-02 since_id:17".
Proof. reflexivity. Qed.

Example parse_url_https :
  parse_url "https://www.twitter.com/Jack_99" = Ok "Jack_99".
Proof. vm_compute. reflexivity. Qed.

Example parse_url_upper :
  parse_url "HTTP://TWITTER.COM/jack" = Raise (InvalidOwnerId "HTTP://TWITTER.COM/jack").
Proof. vm_compute. reflexivity. Qed.

Example parse_url_alias : parse_url "jack" = Ok "jack".
Proof. vm_compute. reflexivity. Qed.

Example parse_url_http_alias : parse_url "httpster" = Raise (InvalidProfile "httpster").
Proof. vm_compute. reflexivity. Qed.

Example parse_url_status :
  parse_url "https://twitter.com/jack/status/1" = Raise (InvalidProfile "https://twitter.com/jack/status/1").
Proof. vm_compute. reflexivity. Qed.

Example parse_url_embedded :
  parse_url "http://example.org/?next=https://twitter.com/jack" = Ok "jack".
Proof. vm_compute. reflexivity. Qed.

Example parse_url_empty : parse_url "" = Raise (InvalidOwnerId "").
Proof. vm_compute. reflexivity. Qed.

(** A search task on one last page: the post of second 90 is handed on, the
    post of second 40 is older than the last execution and ends the task. *)
Example search_last_page :
  let run := search one_day 3 (a_task empty_stage) last_page_world in
  result_of run = Ok tt
  /\ trace_of run
     = [EvSearch (search_url "cats since:2019-01-01" "")
                 (Some (page [post 9 90 90000; post 4 40 40000] false None));
        EvYield (stamp (post 9 90 90000) 1 "");
        EvEmit [("twits", VList [item (post 9 90 90000)]);
                ("stage",
                 VStage {| max_position := Some ""; counter := Some 1;
                           last_tweet_pub_time := Some 90000;
                           task_stage := None |})];
        EvYield (stamp (post 4 40 40000) 2 "")].
Proof. vm_compute. split; reflexivity. Qed.

(** A fresh stream does not yield a first page that has more items; it goes
    on from the cursor made of the ids 8 and 9. *)
Example stream_no_position :
  map (fun p => (cursor_of (pg_url p), map (fun t => id (item t)) (pg_yield p)))
      (pages_of (trace_of (_search 5 "cats" empty_stage drain
                                   no_position_world)))
  = [("", []); ("TWEET-8-9", [7]); ("TWEET-7-9", [])].
Proof. vm_compute. reflexivity. Qed.

(** The fetcher on the replies 503, 429, 200. *)
Example fetch_503_429_200 :
  trace_of (_get_query_response 3 "cats" ""
              (mkWorld 0 0 [Http 503 no_body; Http 429 no_body;
                            page [] false None] []))
  = [EvSearch (search_url "cats" "") (Some (Http 503 no_body));
     EvSearch (search_url "cats" "") (Some (Http 429 no_body));
     EvSleep 300;
     EvSearch (search_url "cats" "") (Some (page [] false None))].
Proof. vm_compute. reflexivity. Qed.

(** ** Query builder *)

Lemma nonempty_app (s1 s2 : string) :
  nonempty (s1 ++ s2)%string = nonempty s1 || nonempty s2.
Proof. destruct s1; simpl; reflexivity. Qed.

(** C5, as the specification words it, fails: with every input empty the
    builder raises [ApiError], not [InvalidTaskParams]. *)
Lemma construct_query_empty_not_InvalidTaskParams :
  construct_query "" "" false "" "" 0 <> Raise InvalidTaskParams.
Proof. vm_compute. discriminate. Qed.

(** The two ways [construct_query] can end. *)
Lemma construct_query_cases :
  forall (search_query profile : string) (reply : bool)
         (since until : string) (since_id : Z),
    (inputs_empty search_query profile reply since until since_id = true
     /\ construct_query search_query profile reply since until since_id
        = Raise (ApiError QueryIsMissing))
    \/
    (inputs_empty search_query profile reply since until since_id = false
     /\ exists query,
         construct_query search_query profile reply since until since_id
         = Ok query).
Proof.
  intros q p r s u i. unfold inputs_empty, construct_query.
  destruct (nonempty q) eqn:Hq, (nonempty p) eqn:Hp, r,
           (nonempty u) eqn:Hu, (nonempty s) eqn:Hs, (i =? 0) eqn:Hi;
    cbn [negb andb orb];
    repeat rewrite nonempty_app;
    rewrite ?Hq, ?Hp, ?Hu, ?Hs;
    cbn [nonempty negb andb orb];
    rewrite ?orb_true_r;
    cbn [negb];
    first [ left; split; reflexivity
          | right; split; [reflexivity | eexists; reflexivity] ].
Qed.

(** C5, amended: the query builder raises [ApiError('Query is missing.')]
    exactly when all of its inputs are empty; for every other combination
    of inputs it returns a query and does not fail. *)
Theorem construct_query_fails_iff_empty :
  forall (search_query profile : string) (reply : bool)
         (since until : string) (since_id : Z),
    (inputs_empty search_query profile reply since until since_id = true
     /\ construct_query search_query profile reply since until since_id
        = Raise (ApiError QueryIsMissing))
    \/
    (inputs_empty search_query profile reply since until since_id = false
     /\ exists query,
         construct_query search_query profile reply since until since_id
         = Ok query).
Proof. exact construct_query_cases. Qed.

(** ** Fetcher *)

(** One step of [_get_query_response] on a reply that is an HTTP answer. *)
Lemma fetch_step (fuel : nat) (query max_position : string) (n now : Z)
      (status : Z) (body : Json) (rest : list (Reply Json))
      (pr : list (Reply Html)) :
  _get_query_response (S fuel) query max_position
    (mkWorld n now (Http status body :: rest) pr)
  = let req := EvSearch (search_url query max_position)
                        (Some (Http status body)) in
    match classify status with
    | ReturnBody => (Ok body, mkWorld n now rest pr, [req])
    | RetryAtOnce =>
        after [req]
          (_get_query_response fuel query max_position
             (mkWorld n now rest pr))
    | PauseThenRetry =>
        after [req; EvSleep RESPONSE_DELAY]
          (_get_query_response fuel query max_position
             (mkWorld n (now + 1000 * RESPONSE_DELAY) rest pr))
    | FailApiError =>
        (Raise (ApiError (UrlNotAvailable (search_url query max_position)
                                          status)),
         mkWorld n now rest pr, [req])
    end.
Proof.
  unfold classify. cbn [_get_query_response].
  unfold bind at 1. unfold get_search. cbn [search_replies mkWorld reply_outcome fst snd].
  cbn [self_counter clock_ms profile_replies].
  destruct (status =? 200) eqn:H200; cbn [negb].
  { reflexivity. }
  destruct (status =? 503) eqn:H503.
  { unfold after, mkWorld.
    destruct (_get_query_response fuel query max_position _) as [[r w'] tr].
    reflexivity. }
  destruct (status =? 429) eqn:H429; cbn [orb].
  { unfold bind, async_sleep, after, mkWorld.
    cbn [self_counter clock_ms profile_replies search_replies].
    destruct (_get_query_response fuel query max_position _) as [[r w'] tr].
    reflexivity. }
  replace (status <? 527) with (status <=? 526)
    by (destruct (status <=? 526) eqn:E1, (status <? 527) eqn:E2; try reflexivity; lia).
  destruct ((500 <=? status) && (status <=? 526)) eqn:H5.
  { unfold bind, async_sleep, after, mkWorld.
    cbn [self_counter clock_ms profile_replies search_replies].
    destruct (_get_query_response fuel query max_position _) as [[r w'] tr].
    reflexivity. }
  reflexivity.
Qed.

(** C6: the fetcher treats a reply by its status as the classification
    table says (200: the body is returned; 503: the same request again with
    no pause; 429 and 500..526: a pause of the fixed delay of 300 s, then the
    same request again; anything else: [ApiError] with the URL and the
    status), so the canned replies 503, 429, 200 cost exactly three requests
    for one and the same URL and exactly one pause, and give the body of the
    200 reply. *)
Theorem fetcher_classifies_and_converges :
  forall (fuel : nat) (query max_position : string) (n now : Z)
         (rest : list (Reply Json)) (pr : list (Reply Html)),
    (forall (status : Z) (body : Json),
        _get_query_response (S fuel) query max_position
          (mkWorld n now (Http status body :: rest) pr)
        = let req := EvSearch (search_url query max_position)
                              (Some (Http status body)) in
          match classify status with
          | ReturnBody => (Ok body, mkWorld n now rest pr, [req])
          | RetryAtOnce =>
              after [req]
                (_get_query_response fuel query max_position
                   (mkWorld n now rest pr))
          | PauseThenRetry =>
              after [req; EvSleep RESPONSE_DELAY]
                (_get_query_response fuel query max_position
                   (mkWorld n (now + 1000 * RESPONSE_DELAY) rest pr))
          | FailApiError =>
              (Raise (ApiError
                        (UrlNotAvailable (search_url query max_position)
                                         status)),
               mkWorld n now rest pr, [req])
          end)
    /\ RESPONSE_DELAY = 300
    /\ (forall (b1 b2 payload : Json),
           let run :=
             _get_query_response (3 + fuel) query max_position
               (mkWorld n now
                  (Http 503 b1 :: Http 429 b2 :: Http 200 payload :: rest)
                  pr) in
           result_of run = Ok payload
           /\ requests_of (trace_of run)
              = [search_url query max_position;
                 search_url query max_position;
                 search_url query max_position]
           /\ filter is_sleep (trace_of run) = [EvSleep 300]
           /\ search_replies (world_of run) = rest).
Proof.
  intros fuel query max_position n now rest pr.
  split; [intros; apply fetch_step|].
  split; [reflexivity|].
  intros b1 b2 payload run. subst run.
  change (3 + fuel)%nat with (S (S (S fuel))).
  rewrite fetch_step. cbn [classify Z.eqb Pos.eqb].
  rewrite fetch_step.
  change (classify 429) with PauseThenRetry.
  change (classify 503) with RetryAtOnce.
  cbv iota beta zeta.
  rewrite fetch_step.
  change (classify 200) with ReturnBody.
  cbv iota beta zeta.
  repeat split.
Qed.

(** ** Regular expressions: the matcher decides membership *)

Lemma Matches_Eps_inv (s : list ascii) : Re.Matches Re.Eps s -> s = [].
Proof. inversion 1; reflexivity. Qed.

Lemma Matches_Class_inv (p : ascii -> bool) (s : list ascii) :
  Re.Matches (Re.Class p) s -> exists c, s = [c] /\ p c = true.
Proof. inversion 1; subst; eauto. Qed.

Lemma Matches_Cat_inv (r1 r2 : Re.regex) (s : list ascii) :
  Re.Matches (Re.Cat r1 r2) s ->
  exists s1 s2, s = s1 ++ s2 /\ Re.Matches r1 s1 /\ Re.Matches r2 s2.
Proof. inversion 1; subst; eauto. Qed.

Lemma Matches_Alt_inv (r1 r2 : Re.regex) (s : list ascii) :
  Re.Matches (Re.Alt r1 r2) s -> Re.Matches r1 s \/ Re.Matches r2 s.
Proof. inversion 1; subst; auto. Qed.

(** A non-empty word of a star starts with a non-empty word of its body. *)
Lemma Matches_Star_cons (r : Re.regex) (c : ascii) (s : list ascii) :
  Re.Matches (Re.Star r) (c :: s) ->
  exists s1 s2,
    s = s1 ++ s2 /\ Re.Matches r (c :: s1) /\ Re.Matches (Re.Star r) s2.
Proof.
  intros H.
  remember (Re.Star r) as r' eqn:Er.
  remember (c :: s) as l eqn:El.
  revert c s El.
  induction H; intros c0 s0 El; try discriminate.
  injection Er as ->.
  destruct s1 as [|a s1'].
  - simpl in El. apply (IHMatches2 eq_refl c0 s0 El).
  - simpl in El. injection El as -> <-.
    exists s1', s2. auto.
Qed.

Lemma nullable_correct (r : Re.regex) :
  Re.nullable r = true <-> Re.Matches r [].
Proof.
  induction r; simpl.
  - split; [constructor | reflexivity].
  - split; [discriminate|]. intros H. apply Matches_Class_inv in H.
    destruct H as [c [H _]]. discriminate.
  - rewrite andb_true_iff, IHr1, IHr2. split.
    + intros [H1 H2]. change (@nil ascii) with (@nil ascii ++ []).
      constructor; assumption.
    + intros H. apply Matches_Cat_inv in H.
      destruct H as [s1 [s2 [E [H1 H2]]]].
      symmetry in E. apply app_eq_nil in E. destruct E; subst. auto.
  - rewrite orb_true_iff, IHr1, IHr2. split.
    + intros [H|H]; [apply Re.MAltL | apply Re.MAltR]; assumption.
    + apply Matches_Alt_inv.
  - split; [constructor | reflexivity].
Qed.

Lemma deriv_correct (r : Re.regex) :
  forall (c : ascii) (s : list ascii),
    MatchesO (Re.deriv c r) s <-> Re.Matches r (c :: s).
Proof.
  induction r; intros c s; simpl.
  - split; [contradiction|]. intros H. apply Matches_Eps_inv in H. discriminate.
  - destruct (p c) eqn:Hp; simpl.
    + split.
      * intros H. apply Matches_Eps_inv in H. subst. constructor. exact Hp.
      * intros H. apply Matches_Class_inv in H.
        destruct H as [c' [E _]]. injection E as _ ->. constructor.
    + split; [contradiction|]. intros H. apply Matches_Class_inv in H.
      destruct H as [c' [E Hc]]. injection E as -> _. congruence.
  - (* Cat *)
    assert (Hleft : forall s,
               MatchesO (match Re.deriv c r1 with
                         | Some d => Some (Re.Cat d r2)
                         | None => None
                         end) s
               <-> exists s1 s2, s = s1 ++ s2 /\ Re.Matches r1 (c :: s1)
                                 /\ Re.Matches r2 s2).
    { intros s0. specialize (IHr1 c). destruct (Re.deriv c r1); simpl in *.
      - split.
        + intros H. apply Matches_Cat_inv in H.
          destruct H as [s1 [s2 [E [H1 H2]]]].
          exists s1, s2. rewrite <- IHr1. auto.
        + intros [s1 [s2 [E [H1 H2]]]]. subst. constructor; [|assumption].
          apply IHr1. assumption.
      - split; [contradiction|]. intros [s1 [s2 [E [H1 H2]]]].
        apply IHr1 in H1. assumption. }
    assert (Hcat : Re.Matches (Re.Cat r1 r2) (c :: s)
                   <-> (exists s1 s2, s = s1 ++ s2 /\ Re.Matches r1 (c :: s1)
                                      /\ Re.Matches r2 s2)
                       \/ (Re.Matches r1 [] /\ Re.Matches r2 (c :: s))).
    { split.
      - intros H. apply Matches_Cat_inv in H.
        destruct H as [s1 [s2 [E [H1 H2]]]].
        destruct s1 as [|a s1']; simpl in E.
        + right. subst. auto.
        + left. injection E as <- ->. eauto.
      - intros [[s1 [s2 [E [H1 H2]]]] | [H1 H2]].
        + subst. change (c :: s1 ++ s2) with ((c :: s1) ++ s2).
          constructor; assumption.
        + change (c :: s) with ([] ++ c :: s). constructor; assumption. }
    rewrite Hcat. rewrite <- Hleft. rewrite <- nullable_correct.
    rewrite <- IHr2.
    destruct (Re.nullable r1); simpl.
    + destruct (match Re.deriv c r1 with
                | Some d => Some (Re.Cat d r2)
                | None => None
                end) as [l|], (Re.deriv c r2) as [d|]; simpl.
      * split.
        -- intros H. apply Matches_Alt_inv in H. tauto.
        -- intros [H | [_ H]]; [apply Re.MAltL | apply Re.MAltR]; assumption.
      * tauto.
      * tauto.
      * tauto.
    + split; [auto|]. intros [H | [H _]]; [assumption | discriminate].
  - (* Alt *)
    specialize (IHr1 c s). specialize (IHr2 c s).
    destruct (Re.deriv c r1), (Re.deriv c r2); simpl in *.
    + split.
      * intros H. apply Matches_Alt_inv in H.
        destruct H; [apply Re.MAltL; tauto | apply Re.MAltR; tauto].
      * intros H. apply Matches_Alt_inv in H.
        destruct H; [apply Re.MAltL; tauto | apply Re.MAltR; tauto].
    + split.
      * intros H. apply Re.MAltL. tauto.
      * intros H. apply Matches_Alt_inv in H. tauto.
    + split.
      * intros H. apply Re.MAltR. tauto.
      * intros H. apply Matches_Alt_inv in H. tauto.
    + split; [contradiction|]. intros H. apply Matches_Alt_inv in H. tauto.
  - (* Star *)
    specialize (IHr c). destruct (Re.deriv c r); simpl in *.
    + split.
      * intros H. apply Matches_Cat_inv in H.
        destruct H as [s1 [s2 [E [H1 H2]]]]. subst.
        change (c :: s1 ++ s2) with ((c :: s1) ++ s2).
        constructor; [|assumption]. apply IHr. assumption.
      * intros H. apply Matches_Star_cons in H.
        destruct H as [s1 [s2 [E [H1 H2]]]]. subst.
        constructor; [|assumption]. apply IHr. assumption.
    + split; [contradiction|]. intros H. apply Matches_Star_cons in H.
      destruct H as [s1 [s2 [E [H1 H2]]]]. apply IHr in H1. assumption.
Qed.

Lemma matchb_correct (s : list ascii) :
  forall r : Re.regex, Re.matchb r s = true <-> Re.Matches r s.
Proof.
  induction s as [|c s IH]; intros r; simpl.
  - apply nullable_correct.
  - rewrite <- deriv_correct. destruct (Re.deriv c r); simpl.
    + apply IH.
    + split; [discriminate | contradiction].
Qed.

(** ** [parse_url] *)

Lemma string_app_assoc (s1 s2 s3 : string) :
  ((s1 ++ s2) ++ s3 = s1 ++ (s2 ++ s3))%string.
Proof. induction s1; simpl; congruence. Qed.

Lemma split_acc_not_nil (sep : ascii) (s : string) :
  forall cur, split_acc sep cur s <> [].
Proof.
  induction s as [|c s IH]; intros cur; simpl.
  - discriminate.
  - destruct (Ascii.eqb c sep); [discriminate | apply IH].
Qed.

Lemma split_acc_free (sep : ascii) (l : list ascii) :
  forall cur,
    free_of sep l = true ->
    split_acc sep cur (string_of_list_ascii l)
    = [(cur ++ string_of_list_ascii l)%string].
Proof.
  induction l as [|c l IH]; intros cur H; simpl in *.
  - f_equal. induction cur; simpl; congruence.
  - apply andb_true_iff in H. destruct H as [Hc Hl].
    apply negb_true_iff in Hc. rewrite Hc. rewrite (IH _ Hl).
    rewrite string_app_assoc. reflexivity.
Qed.

Lemma last_cons_not_nil {A} (a d : A) (l : list A) :
  l <> [] -> last (a :: l) d = last l d.
Proof. destruct l; [congruence | reflexivity]. Qed.

(** The last piece of a split is what follows the last separator. *)
Lemma split_acc_last (sep : ascii) (l1 l2 : list ascii) :
  forall cur,
    free_of sep l2 = true ->
    last (split_acc sep cur (string_of_list_ascii (l1 ++ sep :: l2)))
         EmptyString
    = string_of_list_ascii l2.
Proof.
  induction l1 as [|c l1 IH]; intros cur H; simpl.
  - rewrite Ascii.eqb_refl. rewrite (split_acc_free _ _ _ H). reflexivity.
  - destruct (Ascii.eqb c sep).
    + rewrite last_cons_not_nil by apply split_acc_not_nil. apply IH, H.
    + apply IH, H.
Qed.

Lemma Matches_Star_Class (p : ascii -> bool) (w : list ascii) :
  Re.Matches (Re.Star (Re.Class p)) w <-> forallb p w = true.
Proof.
  split.
  - intros H. remember (Re.Star (Re.Class p)) as r eqn:Er.
    induction H; try discriminate; [reflexivity|].
    injection Er as ->. apply Matches_Class_inv in H.
    destruct H as [c [-> Hc]]. simpl. rewrite Hc. auto.
  - induction w as [|c w IH]; simpl; intros H.
    + constructor.
    + apply andb_true_iff in H. destruct H as [Hc Hw].
      change (c :: w) with ([c] ++ w).
      constructor; [constructor; exact Hc | auto].
Qed.

Lemma word_run_intro (w : list ascii) :
  forall tail,
    forallb Re.word_char w = true ->
    tail = [] \/ tail = [Re.newline] ->
    word_run (w ++ tail) = true.
Proof.
  induction w as [|c w IH]; intros tail Hw Ht; simpl in *.
  - destruct Ht as [-> | ->]; reflexivity.
  - apply andb_true_iff in Hw. destruct Hw as [Hc Hw]. rewrite Hc. auto.
Qed.

Lemma word_run_elim (l : list ascii) :
  word_run l = true ->
  exists w tail,
    l = w ++ tail /\ forallb Re.word_char w = true
    /\ (tail = [] \/ tail = [Re.newline]).
Proof.
  induction l as [|c l IH]; simpl; intros H.
  - exists [], []. auto.
  - destruct (Re.word_char c) eqn:Hc.
    + destruct (IH H) as [w [tail [-> [Hw Ht]]]].
      exists (c :: w), tail. simpl. rewrite Hc. auto.
    + apply andb_true_iff in H. destruct H as [Hn Hl].
      apply Ascii.eqb_eq in Hn. destruct l; [|discriminate].
      exists [], [c]. subst c. auto.
Qed.

(** The words of [[a-zA-Z_0-9]+] followed by the end of the subject. *)
Lemma Matches_alias_tail (l : list ascii) :
  Re.Matches (Re.Cat (Re.plus (Re.Class Re.word_char))
                     (Re.opt (Re.chr Re.newline))) l
  <-> match l with
      | [] => False
      | c :: l' => Re.word_char c = true /\ word_run l' = true
      end.
Proof.
  split.
  - intros H. apply Matches_Cat_inv in H.
    destruct H as [s1 [tail [-> [H1 H2]]]].
    apply Matches_Cat_inv in H1. destruct H1 as [a [w [-> [Ha Hw]]]].
    apply Matches_Class_inv in Ha. destruct Ha as [c [-> Hc]].
    apply Matches_Star_Class in Hw. simpl. split; [exact Hc|].
    apply word_run_intro; [exact Hw|].
    apply Matches_Alt_inv in H2. destruct H2 as [H2|H2].
    + apply Matches_Class_inv in H2. destruct H2 as [c' [-> Hc']].
      apply Ascii.eqb_eq in Hc'. subst. auto.
    + apply Matches_Eps_inv in H2. auto.
  - destruct l as [|c l']; [contradiction|]. intros [Hc Hr].
    apply word_run_elim in Hr. destruct Hr as [w [tail [-> [Hw Ht]]]].
    change (c :: w ++ tail) with (([c] ++ w) ++ tail).
    constructor.
    + constructor; [constructor; exact Hc | apply Matches_Star_Class, Hw].
    + destruct Ht as [-> | ->].
      * apply Re.MAltR. constructor.
      * apply Re.MAltL. constructor. apply Ascii.eqb_refl.
Qed.

Lemma bool_eq_iff (a b : bool) : (a = true <-> b = true) -> a = b.
Proof. destruct a, b; intuition congruence. Qed.

(** [re.search(r'^[a-zA-Z_0-9]+$', s)] finds something exactly in the
    aliases. *)
Lemma search_alias_pattern (s : string) :
  Re.search alias_pattern s = is_alias s.
Proof.
  apply bool_eq_iff. unfold Re.search, is_alias.
  rewrite matchb_correct. unfold Re.whole, alias_pattern; simpl.
  split.
  - intros H. apply Matches_Cat_inv in H.
    destruct H as [s1 [s2 [E [H1 H2]]]].
    apply Matches_Eps_inv in H1. subst s1. simpl in E. rewrite E.
    apply Matches_alias_tail in H2. destruct s2; [contradiction|].
    apply andb_true_iff. exact H2.
  - intros H. change (list_ascii_of_string s)
      with ([] ++ list_ascii_of_string s).
    constructor; [constructor|]. apply Matches_alias_tail.
    destruct (list_ascii_of_string s); [discriminate|].
    apply andb_true_iff. exact H.
Qed.

Lemma word_char_not_slash (c : ascii) :
  Re.word_char c = true -> Ascii.eqb c "/" = false.
Proof.
  destruct c as [b0 b1 b2 b3 b4 b5 b6 b7].
  destruct b0, b1, b2, b3, b4, b5, b6, b7; vm_compute;
    intros H; first [reflexivity | discriminate H].
Qed.

Lemma lower_slash (c : ascii) :
  Ascii.eqb (Re.lower c) (Re.lower "/") = true -> c = "/"%char.
Proof.
  destruct c as [b0 b1 b2 b3 b4 b5 b6 b7].
  destruct b0, b1, b2, b3, b4, b5, b6, b7; vm_compute;
    intros H; first [reflexivity | discriminate H].
Qed.

Lemma word_run_free (l : list ascii) :
  word_run l = true -> free_of "/" l = true.
Proof.
  induction l as [|c l IH]; simpl; intros H; [reflexivity|].
  destruct (Re.word_char c) eqn:Hc.
  - rewrite (word_char_not_slash _ Hc). simpl. auto.
  - apply andb_true_iff in H. destruct H as [Hn Hl].
    apply Ascii.eqb_eq in Hn. subst c. destruct l; [|discriminate].
    reflexivity.
Qed.

Lemma free_of_app (sep : ascii) (l1 l2 : list ascii) :
  free_of sep (l1 ++ l2) = free_of sep l1 && free_of sep l2.
Proof. unfold free_of. apply forallb_app. Qed.

Lemma Matches_chr_inv (c : ascii) (s : list ascii) :
  Re.Matches (Re.chr c) s -> s = [c].
Proof.
  intros H. apply Matches_Class_inv in H. destruct H as [y [-> Hy]].
  apply Ascii.eqb_eq in Hy. subst y. reflexivity.
Qed.

Lemma Matches_none_inv (s : list ascii) : Re.Matches Re.none s -> False.
Proof.
  intros H. apply Matches_Class_inv in H. destruct H as [y [_ Hy]].
  discriminate Hy.
Qed.

Lemma folds_to_i :
  Re.folds_to "i" = Re.Alt (Re.bytes [196; 176]%nat) (Re.bytes [196; 177]%nat).
Proof. reflexivity. Qed.

Lemma folds_to_s : Re.folds_to "s" = Re.bytes [197; 191]%nat.
Proof. reflexivity. Qed.

Lemma folds_to_k : Re.folds_to "k" = Re.bytes [226; 132; 170]%nat.
Proof. reflexivity. Qed.

Lemma Matches_bytes_inv (l : list nat) :
  forall s, Re.Matches (Re.bytes l) s -> s = map ascii_of_nat l.
Proof.
  induction l as [|n l IH]; intros s H; simpl in H.
  - apply Matches_Eps_inv in H. subst s. reflexivity.
  - apply Matches_Cat_inv in H. destruct H as [s1 [s2 [-> [H1 H2]]]].
    apply Matches_chr_inv in H1. subst s1. rewrite (IH _ H2). reflexivity.
Qed.

(** The characters of [word_i], spelled out. *)
Lemma Matches_word_i_inv (x : list ascii) :
  Re.Matches Re.word_i x ->
  (exists c, x = [c] /\ Re.word_char c = true)
  \/ x = map ascii_of_nat [196; 176]%nat
  \/ x = map ascii_of_nat [196; 177]%nat
  \/ x = map ascii_of_nat [197; 191]%nat
  \/ x = map ascii_of_nat [226; 132; 170]%nat.
Proof.
  unfold Re.word_i. rewrite folds_to_i, folds_to_s, folds_to_k. intros H.
  repeat (apply Matches_Alt_inv in H; destruct H as [H|H]);
    try (apply Matches_bytes_inv in H; auto 6).
  left. apply Matches_Class_inv, H.
Qed.

Lemma word_i_free (x : list ascii) :
  Re.Matches Re.word_i x -> free_of "/" x = true.
Proof.
  intros H. apply Matches_word_i_inv in H.
  destruct H as [[c [-> Hc]] | [-> | [-> | [-> | ->]]]]; try reflexivity.
  simpl. rewrite (word_char_not_slash _ Hc). reflexivity.
Qed.

(** From the words of a body to the words of its star, for the words whose
    characters all pass [q]. *)
Lemma Matches_Star_mono_on (q : ascii -> bool) (r r' : Re.regex) :
  (forall x, forallb q x = true -> Re.Matches r x -> Re.Matches r' x) ->
  forall w,
    Re.Matches (Re.Star r) w -> forallb q w = true ->
    Re.Matches (Re.Star r') w.
Proof.
  intros Hr w H. remember (Re.Star r) as r0 eqn:Er.
  induction H; try discriminate; intros Hq; [constructor|].
  injection Er as ->. rewrite forallb_app in Hq.
  apply andb_true_iff in Hq. destruct Hq as [Hq1 Hq2].
  constructor; [apply Hr; assumption | apply IHMatches2; auto].
Qed.

Lemma Matches_Star_free (sep : ascii) (r : Re.regex) :
  (forall x, Re.Matches r x -> free_of sep x = true) ->
  forall w, Re.Matches (Re.Star r) w -> free_of sep w = true.
Proof.
  intros Hr w H. remember (Re.Star r) as r0 eqn:Er.
  induction H; try discriminate; [reflexivity|].
  injection Er as ->. rewrite free_of_app, (Hr _ H).
  apply IHMatches2. reflexivity.
Qed.

Lemma Matches_plus_word_i_free (w : list ascii) :
  Re.Matches (Re.plus Re.word_i) w -> free_of "/" w = true.
Proof.
  intros H. apply Matches_Cat_inv in H.
  destruct H as [x [y [-> [Hx Hy]]]].
  rewrite free_of_app, (word_i_free _ Hx).
  apply (Matches_Star_free _ _ word_i_free _ Hy).
Qed.

Lemma Matches_opt_newline_inv (tail : list ascii) :
  Re.Matches (Re.opt (Re.chr Re.newline)) tail ->
  tail = [] \/ tail = [Re.newline].
Proof.
  intros H. apply Matches_Alt_inv in H. destruct H as [H|H].
  - right. apply Matches_chr_inv, H.
  - left. apply Matches_Eps_inv, H.
Qed.

(** The strings that [alias_pattern_i] is found in. *)
Lemma is_alias_i_iff (s : string) :
  is_alias_i s = true
  <-> exists w tail,
        list_ascii_of_string s = w ++ tail
        /\ Re.Matches (Re.plus Re.word_i) w
        /\ (tail = [] \/ tail = [Re.newline]).
Proof.
  unfold is_alias_i, Re.search. rewrite matchb_correct.
  unfold Re.whole, alias_pattern_i; simpl. split.
  - intros H. apply Matches_Cat_inv in H.
    destruct H as [s1 [s2 [E [H1 H2]]]].
    apply Matches_Eps_inv in H1. subst s1. simpl in E.
    apply Matches_Cat_inv in H2. destruct H2 as [w [tail [-> [Hw Ht]]]].
    exists w, tail. split; [exact E|]. split; [exact Hw|].
    apply Matches_opt_newline_inv, Ht.
  - intros [w [tail [E [Hw Ht]]]]. rewrite E.
    change (w ++ tail) with ([] ++ (w ++ tail)).
    constructor; [constructor|]. constructor; [exact Hw|].
    destruct Ht as [-> | ->].
    + apply Re.MAltR. constructor.
    + apply Re.MAltL. constructor. apply Ascii.eqb_refl.
Qed.

Lemma is_alias_i_free (s : string) :
  is_alias_i s = true -> free_of "/" (list_ascii_of_string s) = true.
Proof.
  intros H. apply is_alias_i_iff in H.
  destruct H as [w [tail [-> [Hw Ht]]]].
  rewrite free_of_app, (Matches_plus_word_i_free _ Hw).
  destruct Ht as [-> | ->]; reflexivity.
Qed.

Lemma is_alias_iff (s : string) :
  is_alias s = true
  <-> exists w tail,
        list_ascii_of_string s = w ++ tail
        /\ Re.Matches (Re.plus (Re.Class Re.word_char)) w
        /\ (tail = [] \/ tail = [Re.newline]).
Proof.
  rewrite <- search_alias_pattern.
  unfold Re.search. rewrite matchb_correct.
  unfold Re.whole, alias_pattern; simpl. split.
  - intros H. apply Matches_Cat_inv in H.
    destruct H as [s1 [s2 [E [H1 H2]]]].
    apply Matches_Eps_inv in H1. subst s1. simpl in E.
    apply Matches_Cat_inv in H2. destruct H2 as [w [tail [-> [Hw Ht]]]].
    exists w, tail. split; [exact E|]. split; [exact Hw|].
    apply Matches_opt_newline_inv, Ht.
  - intros [w [tail [E [Hw Ht]]]]. rewrite E.
    change (w ++ tail) with ([] ++ (w ++ tail)).
    constructor; [constructor|]. constructor; [exact Hw|].
    destruct Ht as [-> | ->].
    + apply Re.MAltR. constructor.
    + apply Re.MAltL. constructor. apply Ascii.eqb_refl.
Qed.

Lemma Matches_plus_mono_on (q : ascii -> bool) (r r' : Re.regex) :
  (forall x, forallb q x = true -> Re.Matches r x -> Re.Matches r' x) ->
  forall w,
    Re.Matches (Re.plus r) w -> forallb q w = true ->
    Re.Matches (Re.plus r') w.
Proof.
  intros Hr w H Hq. apply Matches_Cat_inv in H.
  destruct H as [x [y [-> [Hx Hy]]]]. rewrite forallb_app in Hq.
  apply andb_true_iff in Hq. destruct Hq as [Hq1 Hq2].
  constructor; [apply Hr; assumption|].
  apply (Matches_Star_mono_on q r r' Hr); assumption.
Qed.

(** An alias is an alias under [re.I] too. *)
Lemma is_alias_is_alias_i (s : string) :
  is_alias s = true -> is_alias_i s = true.
Proof.
  rewrite is_alias_iff, is_alias_i_iff.
  intros [w [tail [E [Hw Ht]]]]. exists w, tail.
  split; [exact E|]. split; [|exact Ht].
  apply (Matches_plus_mono_on (fun _ => true)
           (Re.Class Re.word_char) Re.word_i); [| exact Hw |].
  - intros x _ Hx. apply Re.MAltL, Hx.
  - apply forallb_forall. reflexivity.
Qed.

(** And an alias under [re.I] is an alias when all of it is ASCII: the four
    characters that [re.I] adds are not. *)
Lemma is_alias_i_ascii (s : string) :
  is_alias_i s = true -> only_ascii s = true -> is_alias s = true.
Proof.
  rewrite is_alias_iff, is_alias_i_iff. unfold only_ascii.
  intros [w [tail [E [Hw Ht]]]] Ha. exists w, tail.
  split; [exact E|]. split; [|exact Ht].
  rewrite E, forallb_app in Ha. apply andb_true_iff in Ha.
  destruct Ha as [Ha _].
  apply (Matches_plus_mono_on is_ascii Re.word_i (Re.Class Re.word_char));
    [| exact Hw | exact Ha].
  intros x Hq Hx. apply Matches_word_i_inv in Hx.
  destruct Hx as [[c [-> Hc]] | [-> | [-> | [-> | ->]]]];
    try discriminate Hq.
  constructor. exact Hc.
Qed.

Lemma Matches_chr_i_slash (y : list ascii) :
  Re.Matches (Re.chr_i "/") y -> y = ["/"%char].
Proof.
  intros H. apply Matches_Alt_inv in H. destruct H as [H|H].
  - apply Matches_Class_inv in H. destruct H as [c [-> Hc]].
    apply lower_slash in Hc. subst c. reflexivity.
  - exfalso. apply (Matches_none_inv _ H).
Qed.

(** A word of a case-blind literal ends in a word of its last character. *)
Lemma Matches_lit_i_last (s : string) (c : ascii) :
  forall b,
    Re.Matches (Re.lit_i (s ++ String c EmptyString)) b ->
    exists x y, b = x ++ y /\ Re.Matches (Re.chr_i c) y.
Proof.
  induction s as [|a s IH]; intros b H; simpl in H.
  - apply Matches_Cat_inv in H. destruct H as [s1 [s2 [-> [H1 H2]]]].
    apply Matches_Eps_inv in H2. subst s2. exists [], s1.
    rewrite app_nil_r. auto.
  - apply Matches_Cat_inv in H. destruct H as [s1 [s2 [-> [H1 H2]]]].
    destruct (IH _ H2) as [x [y [-> Hy]]].
    exists (s1 ++ x), y. rewrite app_assoc. auto.
Qed.

(** Where [profile_url_pattern] is found, the subject ends in a slash, one
    or more characters of [word_i] and possibly a newline. *)
Lemma profile_url_shape (l : list ascii) :
  Re.Matches (Re.whole profile_url_pattern) l ->
  exists front w tail,
    l = front ++ "/"%char :: w ++ tail
    /\ Re.Matches (Re.plus Re.word_i) w
    /\ (tail = [] \/ tail = [Re.newline]).
Proof.
  unfold Re.whole, profile_url_pattern; simpl Re.at_start;
    simpl Re.at_end; simpl Re.body. cbv iota.
  intros H.
  apply Matches_Cat_inv in H. destruct H as [pre [l1 [-> [_ H]]]].
  apply Matches_Cat_inv in H. destruct H as [bd [tail [-> [H Ht]]]].
  apply Matches_Cat_inv in H. destruct H as [b1 [l2 [-> [_ H]]]].
  apply Matches_Cat_inv in H. destruct H as [b2 [l3 [-> [_ H]]]].
  apply Matches_Cat_inv in H. destruct H as [b3 [l4 [-> [_ H]]]].
  apply Matches_Cat_inv in H. destruct H as [b4 [l5 [-> [_ H]]]].
  apply Matches_Cat_inv in H. destruct H as [b5 [wd [-> [H5 Hw]]]].
  apply (Matches_lit_i_last "twitter.com" "/") in H5.
  destruct H5 as [x [y [-> Hy]]].
  apply Matches_chr_i_slash in Hy. subst y.
  exists (pre ++ b1 ++ b2 ++ b3 ++ b4 ++ x), wd, tail.
  split; [|split; [exact Hw | apply Matches_opt_newline_inv, Ht]].
  repeat rewrite <- app_assoc. reflexivity.
Qed.

(** The last path segment of a URL in which the pattern is found is an
    alias as [re.I] reads the pattern of the aliases. *)
Lemma profile_url_last_segment (s : string) :
  Re.search profile_url_pattern s = true ->
  is_alias_i (pop_last (split s "/")) = true.
Proof.
  unfold Re.search. rewrite matchb_correct. intros H.
  apply profile_url_shape in H.
  destruct H as [front [w [tail [E [Hw Ht]]]]].
  unfold pop_last, split.
  rewrite <- (string_of_list_ascii_of_string s). rewrite E.
  rewrite split_acc_last.
  - apply is_alias_i_iff. exists w, tail.
    rewrite list_ascii_of_string_of_list_ascii. auto.
  - rewrite free_of_app, (Matches_plus_word_i_free _ Hw).
    destruct Ht as [-> | ->]; reflexivity.
Qed.

Lemma only_word_chars_alias (s : string) :
  only_word_chars s = true -> nonempty s = true -> is_alias s = true.
Proof.
  unfold only_word_chars, is_alias. destruct s as [|c s]; [discriminate|].
  simpl. intros H _. apply andb_true_iff in H. destruct H as [Hc Hs].
  rewrite Hc. simpl.
  rewrite <- (app_nil_r (list_ascii_of_string s)).
  apply word_run_intro; auto.
Qed.

Lemma parse_url_equation (s : string) :
  parse_url s
  = (if startswith s "http" then
       if Re.search profile_url_pattern s
       then Ok (pop_last (split s "/"))
       else Raise (InvalidProfile s)
     else if is_alias s then Ok s
          else Raise (InvalidOwnerId s)).
Proof.
  unfold parse_url. rewrite search_alias_pattern.
  destruct (startswith s "http"); [|reflexivity].
  destruct (Re.search profile_url_pattern s); reflexivity.
Qed.

(** What [parse_url] returns: an alias as [re.I] reads the pattern. *)
Lemma parse_url_returns_alias_i (s r : string) :
  parse_url s = Ok r -> is_alias_i r = true.
Proof.
  rewrite parse_url_equation. destruct (startswith s "http").
  - destruct (Re.search profile_url_pattern s) eqn:Hs; [|discriminate].
    intros H. injection H as <-. apply profile_url_last_segment, Hs.
  - destruct (is_alias s) eqn:Ha; [|discriminate].
    intros H. injection H as <-. apply is_alias_is_alias_i, Ha.
Qed.

(** C10, as it is worded, fails: ["http"] consists only of ASCII letters,
    and [parse_url] does not return it but raises [InvalidProfile]. *)
Lemma parse_url_http_is_not_returned :
  only_word_chars "http" = true
  /\ parse_url "http" = Raise (InvalidProfile "http")
  /\ parse_url "http" <> Ok "http".
Proof. vm_compute. repeat split; discriminate. Qed.

(** The pattern of the addresses is compiled with [re.I], under which the
    letters i and s of 'https' and 'twitter' and the letters of the last
    segment also stand for U+0130, U+0131 and U+017F: an address written
    with a dotless i is taken, and a last segment with a long s is
    returned although [parse_url] itself refuses it as an alias. *)
Lemma parse_url_folds_case :
  parse_url "https://twıtter.com/jack" = Ok "jack"
  /\ parse_url "https://twitter.com/ſam" = Ok "ſam"
  /\ is_alias "ſam" = false
  /\ parse_url "ſam" = Raise (InvalidOwnerId "ſam").
Proof. vm_compute. repeat split. Qed.

(** C10, amended: for every string [s], [parse_url] returns the final path
    segment when [s] starts with 'http' and the twitter.com profile URL
    pattern is found in it; raises [InvalidProfile] when [s] starts with
    'http' and the pattern is not found; returns [s] unchanged when [s]
    does not start with 'http' and is one or more ASCII letters, digits and
    underscores, possibly followed by one newline; and raises
    [InvalidOwnerId] for every other string.  So every string of letters,
    digits and underscores that is not empty and does not start with 'http'
    is returned unchanged.  Whatever is returned is one or more characters
    of the class [[a-zA-Z_0-9]] as [re.I] reads it (the class and the
    characters U+0130, U+0131, U+017F and U+212A), possibly followed by one
    newline; it is such a string of ASCII letters, digits and underscores
    when [s] does not start with 'http', and also when it holds no
    character outside ASCII. *)
Theorem parse_url_cases :
  forall s : string,
    parse_url s
    = (if startswith s "http" then
         if Re.search profile_url_pattern s
         then Ok (pop_last (split s "/"))
         else Raise (InvalidProfile s)
       else if is_alias s then Ok s
            else Raise (InvalidOwnerId s))
    /\ (only_word_chars s && nonempty s && negb (startswith s "http") = true
        -> parse_url s = Ok s)
    /\ (forall r,
           parse_url s = Ok r ->
           is_alias_i r = true
           /\ (startswith s "http" = false \/ only_ascii r = true ->
               is_alias r = true)).
Proof.
  intros s. pose proof (parse_url_equation s) as E.
  split; [exact E|]. split.
  - intros H. apply andb_true_iff in H. destruct H as [H Hh].
    apply andb_true_iff in H. destruct H as [Hw Hn].
    apply negb_true_iff in Hh. rewrite E, Hh.
    rewrite (only_word_chars_alias _ Hw Hn). reflexivity.
  - intros r Hr. pose proof (parse_url_returns_alias_i _ _ Hr) as Hi.
    split; [exact Hi|]. intros [Hh | Ha].
    + rewrite E, Hh in Hr. destruct (is_alias s) eqn:Hs; [|discriminate].
      injection Hr as <-. exact Hs.
    + apply is_alias_i_ascii; assumption.
Qed.

(** ** Runs: how the results and traces of the parts make up the whole *)

Lemma result_of_after {A} (evs : Trace) (x : outcome A * World * Trace) :
  result_of (after evs x) = result_of x.
Proof. reflexivity. Qed.

Lemma world_of_after {A} (evs : Trace) (x : outcome A * World * Trace) :
  world_of (after evs x) = world_of x.
Proof. reflexivity. Qed.

Lemma trace_of_after {A} (evs : Trace) (x : outcome A * World * Trace) :
  trace_of (after evs x) = evs ++ trace_of x.
Proof. reflexivity. Qed.

Lemma after_nil {A} (x : outcome A * World * Trace) : after [] x = x.
Proof. destruct x as [[r w] tr]. reflexivity. Qed.

Lemma bind_run {A B} (m : M A) (k : A -> M B) (w : World) :
  bind m k w = bind_on (m w) k.
Proof.
  unfold bind, bind_on. destruct (m w) as [[r w1] t1].
  destruct r; try reflexivity.
  destruct (k a w1) as [[r2 w2] t2]. reflexivity.
Qed.

Lemma bind_on_after {A B} (evs : Trace) (x : outcome A * World * Trace)
      (k : A -> M B) :
  bind_on (after evs x) k = after evs (bind_on x k).
Proof.
  destruct x as [[r w] tr]. destruct r; simpl; unfold after; simpl;
    try reflexivity.
  rewrite app_assoc. reflexivity.
Qed.

Lemma bind_on_ok {A B} (a : A) (w : World) (tr : Trace) (k : A -> M B) :
  bind_on (Ok a, w, tr) k = after tr (k a w).
Proof. reflexivity. Qed.

(** One post of the [for] loop of the stream. *)
Lemma for_twits_cons (last_tweet_time : Z) (max_position : string)
      (body : Twit -> M control) (twit : Twit) (rest : list Twit)
      (w : World) :
  for_twits last_tweet_time max_position body (twit :: rest) w
  = if last_tweet_time >? TwitStage.last_tweet_pub_time (stage twit) then
      let n := self_counter w + 1 in
      let twit' := stamp twit n max_position in
      let w1 := mkWorld n (clock_ms w) (search_replies w)
                        (profile_replies w) in
      after [EvYield twit']
            (bind_on (body twit' w1)
                     (and_then (for_twits last_tweet_time max_position
                                          body rest)))
    else for_twits last_tweet_time max_position body rest w.
Proof.
  cbn [for_twits]. rewrite bind_run.
  destruct (last_tweet_time >? TwitStage.last_tweet_pub_time (stage twit)).
  - unfold bind at 1. unfold get_counter at 1.
    unfold bind at 1. unfold set_counter at 1.
    unfold bind at 1. unfold get_counter at 1.
    cbn [self_counter]. unfold bind at 1. unfold tell at 1.
    fold (mkWorld (self_counter w + 1) (clock_ms w) (search_replies w)
                  (profile_replies w)).
    cbv zeta.
    destruct (body _ _) as [[rb w2] btr]. unfold and_then, after.
    destruct rb as [[|]| |]; simpl; rewrite ?app_nil_r; try reflexivity;
      try (destruct (for_twits last_tweet_time max_position body rest w2)
            as [[r3 w3] t3]);
      unfold after, ret, result_of, world_of, trace_of; simpl;
      rewrite ?app_nil_r; reflexivity.
  - cbn [ret bind_on]. rewrite after_nil. reflexivity.
Qed.

(** One step of [_get_query_response], whatever the script holds. *)
Lemma fetch_unfold (fuel : nat) (query max_position : string) (n now : Z)
      (sr : list (Reply Json)) (pr : list (Reply Html)) :
  _get_query_response (S fuel) query max_position (mkWorld n now sr pr)
  = let u := search_url query max_position in
    match sr with
    | [] => (Pending, mkWorld n now sr pr, [EvSearch u None])
    | Http status body :: rest =>
        let req := EvSearch u (Some (Http status body)) in
        match classify status with
        | ReturnBody => (Ok body, mkWorld n now rest pr, [req])
        | RetryAtOnce =>
            after [req]
              (_get_query_response fuel query max_position
                 (mkWorld n now rest pr))
        | PauseThenRetry =>
            after [req; EvSleep RESPONSE_DELAY]
              (_get_query_response fuel query max_position
                 (mkWorld n (now + 1000 * RESPONSE_DELAY) rest pr))
        | FailApiError =>
            (Raise (ApiError (UrlNotAvailable u status)),
             mkWorld n now rest pr, [req])
        end
    | TimeoutFault :: rest =>
        (Raise AsyncTimeoutError, mkWorld n now rest pr,
         [EvSearch u (Some TimeoutFault)])
    | ClientFault :: rest =>
        (Raise ClientError, mkWorld n now rest pr,
         [EvSearch u (Some ClientFault)])
    end.
Proof.
  destruct sr as [|[status body| |] rest]; try reflexivity.
  apply fetch_step.
Qed.

Lemma world_eta (w : World) :
  w = mkWorld (self_counter w) (clock_ms w) (search_replies w)
              (profile_replies w).
Proof. destruct w; reflexivity. Qed.

Lemma is_fetch_search (query max_position : string) (r : option (Reply Json)) :
  is_fetch query (EvSearch (search_url query max_position) r).
Proof. simpl. eauto. Qed.

(** The fetcher asks for its query only, and pauses. *)
Lemma fetch_trace_is_fetch (fuel : nat) (query max_position : string) :
  forall w,
    Forall (is_fetch query)
           (trace_of (_get_query_response fuel query max_position w)).
Proof.
  induction fuel as [|fuel IH]; intros w.
  - constructor.
  - rewrite (world_eta w). rewrite fetch_unfold. cbv zeta.
    destruct (search_replies w) as [|[status body| |] rest].
    + repeat constructor. apply is_fetch_search.
    + destruct (classify status); cbn [trace_of snd after].
      * repeat constructor. apply is_fetch_search.
      * constructor; [apply is_fetch_search | apply IH].
      * constructor; [apply is_fetch_search|].
        constructor; [exact I | apply IH].
      * repeat constructor. apply is_fetch_search.
    + repeat constructor. apply is_fetch_search.
    + repeat constructor. apply is_fetch_search.
Qed.

(** ** The shape of the traces of the crawl stream *)

Lemma Stream_fetch_app (query : string) (body : Twit -> M control)
      (r : outcome control) (evs tr : Trace) :
  Forall (is_fetch query) evs -> Stream query body r tr ->
  Stream query body r (evs ++ tr).
Proof.
  intros Hf Hs. induction Hf; simpl; [exact Hs|].
  apply St_fetch; auto.
Qed.

Lemma Stream_bind (query : string) (body : Twit -> M control) {A}
      (m : M A) (k : A -> M control) (w : World) :
  Forall (is_fetch query) (trace_of (m w)) ->
  (forall a w', Stream query body (result_of (k a w')) (trace_of (k a w'))) ->
  Stream query body (result_of (bind m k w)) (trace_of (bind m k w)).
Proof.
  intros Hm Hk. rewrite bind_run.
  destruct (m w) as [[r w1] t1]. simpl in Hm.
  destruct r; simpl.
  - apply Stream_fetch_app; [exact Hm | apply Hk].
  - rewrite <- (app_nil_r t1). apply Stream_fetch_app; [exact Hm|].
    apply St_end. discriminate.
  - rewrite <- (app_nil_r t1). apply Stream_fetch_app; [exact Hm|].
    apply St_end. discriminate.
Qed.

Lemma Stream_for_twits (query : string) (body : Twit -> M control)
      (last_tweet_time : Z) (max_position : string) (k : M control)
      (twits : list Twit) :
  (forall w', Stream query body (result_of (k w')) (trace_of (k w'))) ->
  forall w,
    Stream query body
      (result_of
         (bind_on (for_twits last_tweet_time max_position body twits w)
                  (and_then k)))
      (trace_of
         (bind_on (for_twits last_tweet_time max_position body twits w)
                  (and_then k))).
Proof.
  intros Hk. induction twits as [|twit rest IH]; intros w.
  - simpl. rewrite after_nil. apply Hk.
  - rewrite for_twits_cons.
    destruct (last_tweet_time >? TwitStage.last_tweet_pub_time (stage twit));
      [|apply IH].
    cbv zeta. rewrite bind_on_after.
    rewrite result_of_after, trace_of_after.
    destruct (body _ _) as [[rb w2] btr] eqn:Eb.
    destruct rb as [[|]| |].
    + rewrite bind_on_ok. unfold and_then at 2 4.
      rewrite bind_on_after, result_of_after, trace_of_after.
      simpl. eapply St_yield; [exact Eb | apply IH].
    + simpl. rewrite !app_nil_r.
      eapply St_stop; [exact Eb | discriminate].
    + simpl. eapply St_stop; [exact Eb | discriminate].
    + simpl. eapply St_stop; [exact Eb | discriminate].
Qed.

Lemma parse_tweets_trace (response : Json) (w : World) :
  trace_of (parse_tweets response w) = [].
Proof. unfold parse_tweets. destruct (items_html response); reflexivity. Qed.

Lemma Stream_paginate (query : string) (body : Twit -> M control)
      (last_tweet_time min_tweet_id : Z) (fuel : nat) :
  forall (response : Json) (twits : list Twit) (w : World),
    Stream query body
      (result_of (paginate fuel query last_tweet_time min_tweet_id
                           response twits body w))
      (trace_of (paginate fuel query last_tweet_time min_tweet_id
                          response twits body w)).
Proof.
  induction fuel as [|fuel IH]; intros response twits w;
    destruct twits as [|first rest]; simpl;
    try (apply St_end; discriminate).
  apply Stream_bind; [apply fetch_trace_is_fetch|].
  intros response' w1.
  apply Stream_bind; [rewrite parse_tweets_trace; constructor|].
  intros twits' w2. rewrite bind_run.
  apply (Stream_for_twits query body last_tweet_time _
           (paginate fuel query last_tweet_time min_tweet_id
                     response' twits' body)).
  intros w3. apply IH.
Qed.

(** Every trace of [_search] has the shape of a stream. *)
Lemma Stream_search (query : string) (body : Twit -> M control)
      (fuel : nat) (stage : Stage) (w : World) :
  Stream query body
    (result_of (_search fuel query stage body w))
    (trace_of (_search fuel query stage body w)).
Proof.
  unfold _search.
  apply Stream_bind; [constructor|]. intros [] w0.
  apply Stream_bind; [constructor|]. intros now w1.
  apply Stream_bind; [apply fetch_trace_is_fetch|]. intros response w2.
  apply Stream_bind; [rewrite parse_tweets_trace; constructor|].
  intros twits w3.
  destruct twits as [|first rest]; [apply St_end; discriminate|].
  destruct (nonempty (default "" (max_position stage))
            || negb (default false (has_more_items response))).
  - rewrite bind_run.
    destruct (negb (default false (has_more_items response))).
    + apply (Stream_for_twits query body _ _ (ret Continue)).
      intros w4. apply St_end. discriminate.
    + apply (Stream_for_twits query body _ _
               (paginate fuel query
                         (default now (last_tweet_pub_time stage))
                         (id (item first)) response (first :: rest) body)).
      intros w4. apply Stream_paginate.
  - apply Stream_paginate.
Qed.

(** ** The loop bodies of the task runners *)

Lemma search_body_runner (T : Z) : RunnerBody T search_stage (search_body T).
Proof.
  intros t w. unfold search_body, search_stage.
  destruct (publication_datetime (item t) <? T); reflexivity.
Qed.

Lemma owner_body_runner (T task_stage : Z) :
  RunnerBody T (owner_stage task_stage) (owner_body T task_stage).
Proof.
  intros t w. unfold owner_body, owner_stage.
  destruct (publication_datetime (item t) <? T); reflexivity.
Qed.

Lemma enveloped_from_any (T : Z) (mk : Twit -> Stage) (tr : Trace) :
  forall prev,
    enveloped_from T mk None tr -> enveloped_from T mk prev tr.
Proof.
  destruct tr as [|e tr]; intros prev H; [exact I|].
  simpl in *. destruct H as [He Ht]. split; [|exact Ht].
  destruct e; try exact I. contradiction.
Qed.

(** What a stream gives when a task runner consumes it. *)
Lemma runner_stream (T : Z) (mk : Twit -> Stage) (query : string)
      (body : Twit -> M control) (r : outcome control) (tr : Trace) :
  RunnerBody T mk body ->
  Stream query body r tr ->
  stops_at_stale T tr
  /\ enveloped_from T mk None tr
  /\ Forall (is_phase query) tr
  /\ (r = Ok Returned <-> has_stale T tr).
Proof.
  intros Hb H. induction H as [r Hr | e r tr He H IH
                              | t w w' btr r tr Eb H IH | t w w' btr r Eb Hr].
  - simpl. repeat split; try constructor; [congruence | contradiction].
  - destruct IH as [I1 [I2 [I3 I4]]].
    destruct e; simpl in He; try contradiction; simpl;
      (repeat split; [assumption.. | | apply I4 | apply I4]);
      constructor; simpl; auto.
  - destruct IH as [I1 [I2 [I3 I4]]].
    rewrite Hb in Eb.
    destruct (publication_datetime (item t) <? T) eqn:Hpd;
      [discriminate|].
    injection Eb as _ <-. apply Z.ltb_ge in Hpd. simpl.
    repeat split; try assumption.
    + unfold stale. lia.
    + repeat constructor; simpl; auto.
    + intros Hret. right. apply I4, Hret.
    + intros [Hs | Hs]; [unfold stale in Hs; lia | apply I4, Hs].
  - rewrite Hb in Eb.
    destruct (publication_datetime (item t) <? T) eqn:Hpd.
    + injection Eb as <- _ <-. apply Z.ltb_lt in Hpd. simpl.
      repeat split; auto. repeat constructor.
    + injection Eb as <- _ _. congruence.
Qed.

(** ** The task runners, part by part *)

Lemma bind_on_ret_tt {A} (x : outcome A * World * Trace) :
  bind_on x (fun _ => ret tt) = finish x.
Proof.
  destruct x as [[r w] tr]. destruct r; simpl; try reflexivity.
  unfold after, finish; simpl. rewrite app_nil_r. reflexivity.
Qed.

Lemma owner_query_ok (profile : string) (reply : bool) (since : string) :
  nonempty profile = true ->
  construct_query "" profile reply since "" 0
  = Ok (owner_query profile reply since).
Proof.
  intros Hp. unfold owner_query.
  destruct (construct_query_cases "" profile reply since "" 0)
    as [[He _] | [_ [q Hq]]].
  - unfold inputs_empty in He. rewrite Hp in He. discriminate.
  - rewrite Hq. reflexivity.
Qed.

Lemma task_query_ok (search_query since : string) :
  nonempty search_query = true ->
  construct_query search_query "" false since "" 0
  = Ok (task_query search_query since).
Proof.
  intros Hp. unfold task_query.
  destruct (construct_query_cases search_query "" false since "" 0)
    as [[He _] | [_ [q Hq]]].
  - unfold inputs_empty in He. rewrite Hp in He. discriminate.
  - rewrite Hq. reflexivity.
Qed.

Lemma search_gen_run (strftime_date : Z -> string) (fuel : nat)
      (kwargs : Kwargs.t) (w : World) :
  search_gen strftime_date fuel kwargs w
  = let T := Kwargs.last_execution_time kwargs in
    let extra := Kwargs.extra kwargs in
    if nonempty (Kwargs.query extra) then
      finish (_search fuel
                (task_query (Kwargs.query extra) (since_of strftime_date T))
                (Kwargs.stage extra) (search_body T) w)
    else (Raise (ApiError ErrorQueryIsMissing), w, []).
Proof.
  unfold search_gen. cbv zeta.
  destruct (nonempty (Kwargs.query (Kwargs.extra kwargs))) eqn:Hq;
    [|reflexivity].
  cbn [negb]. rewrite bind_run. unfold lift.
  rewrite (task_query_ok _ _ Hq). rewrite bind_on_ok, after_nil.
  rewrite bind_run. apply bind_on_ret_tt.
Qed.

Lemma emitter_run (g : M unit) (w : World) :
  trace_of (emitter g w) = trace_of (g w) ++ emitter_tail (result_of (g w))
  /\ result_of (emitter g w)
     = match result_of (g w) with
       | Raise AsyncTimeoutError => Ok tt
       | Raise ClientError => Raise NonCriticalError
       | r => r
       end.
Proof.
  unfold emitter. destruct (g w) as [[r w1] t1].
  destruct r as [a|e|]; simpl; rewrite ?app_nil_r; auto.
  destruct e; simpl; rewrite ?app_nil_r; auto.
Qed.

Lemma get_owner_gen_run (strftime_date : Z -> string) (fuel : nat)
      (kwargs : Kwargs.t) (w : World) :
  get_owner_gen strftime_date fuel kwargs w
  = let T := Kwargs.last_execution_time kwargs in
    let extra := Kwargs.extra kwargs in
    if nonempty (Kwargs.owner_id extra) then
      owner_run fuel (Kwargs.owner_id extra) (since_of strftime_date T) T
                (Kwargs.stage extra) w
    else (Raise (ApiError OwnerIdIsMissing), w, []).
Proof.
  unfold get_owner_gen. cbv zeta.
  destruct (nonempty (Kwargs.owner_id (Kwargs.extra kwargs))) eqn:Hp;
    [|reflexivity].
  cbn [negb]. rewrite bind_run. unfold owner_run. cbv zeta.
  destruct (check_profile fuel _ w) as [[rc w1] t0].
  destruct rc as [[]|e|]; try reflexivity.
  rewrite bind_on_ok. cbn [result_of world_of trace_of fst snd].
  f_equal. rewrite bind_run. unfold owner_stage_1.
  destruct (default 1 (task_stage (Kwargs.stage (Kwargs.extra kwargs))) =? 1)
    eqn:Hts.
  - apply Z.eqb_eq in Hts. rewrite Hts.
    rewrite bind_run. unfold lift at 1.
    rewrite (owner_query_ok _ false _ Hp). rewrite bind_on_ok, after_nil.
    rewrite bind_run. unfold owner_phase_1.
    destruct (_search fuel _ _ (owner_body _ 1) w1) as [[r1 w2] t1].
    destruct r1 as [[|]|e|].
    + cbn [bind_on ret after result_of world_of trace_of fst snd].
      rewrite app_nil_r. unfold owner_stage_2, owner_phase_2.
      rewrite bind_run. unfold lift at 1.
      rewrite (owner_query_ok _ true _ Hp). rewrite bind_on_ok, after_nil.
      rewrite bind_run, bind_on_ret_tt.
      destruct (_search fuel _ _ (owner_body _ 2) w2) as [[r2 w3] t2].
      unfold finish, after; simpl. rewrite app_assoc. reflexivity.
    + unfold finish, after, ret; simpl. rewrite !app_nil_r. reflexivity.
    + reflexivity.
    + reflexivity.
  - cbn [ret bind_on]. rewrite after_nil.
    unfold owner_stage_2, owner_phase_2.
    rewrite bind_run. unfold lift at 1.
    rewrite (owner_query_ok _ true _ Hp). rewrite bind_on_ok, after_nil.
    rewrite bind_run, bind_on_ret_tt. reflexivity.
Qed.

(** ** Properties of traces, and how they go with concatenation *)

Lemma stops_at_stale_split (T : Z) (pre : Trace) :
  forall (tr : Trace) (t : Twit) (post : Trace),
    stops_at_stale T tr -> tr = pre ++ EvYield t :: post -> stale T t ->
    post = [].
Proof.
  induction pre as [|e pre IH]; intros tr t post H E Hs; subst tr.
  - simpl in H. destruct H as [H _]. auto.
  - simpl in H. eapply IH; [|reflexivity | exact Hs].
    destruct e; try exact H. destruct H as [_ H]. exact H.
Qed.

Lemma has_stale_app (T : Z) (a b : Trace) :
  has_stale T (a ++ b) <-> has_stale T a \/ has_stale T b.
Proof.
  induction a as [|e a IH]; simpl.
  - tauto.
  - destruct e; try exact IH. rewrite IH. tauto.
Qed.

Lemma stops_at_stale_app (T : Z) (a b : Trace) :
  stops_at_stale T a -> stops_at_stale T b -> (has_stale T a -> b = []) ->
  stops_at_stale T (a ++ b).
Proof.
  induction a as [|e a IH]; simpl; intros Ha Hb Hab; [exact Hb|].
  destruct e; try (apply IH; assumption).
  destruct Ha as [Ha1 Ha2]. split.
  - intros Hs. rewrite (Ha1 Hs). simpl. apply Hab. left. exact Hs.
  - apply IH; auto.
Qed.

Lemma enveloped_from_app (T : Z) (mk : Twit -> Stage) (a b : Trace) :
  forall prev,
    enveloped_from T mk prev a -> enveloped_from T mk None b ->
    enveloped_from T mk prev (a ++ b).
Proof.
  induction a as [|e a IH]; simpl; intros prev Ha Hb.
  - apply enveloped_from_any, Hb.
  - destruct Ha as [Ha1 Ha2]. split; [exact Ha1|]. apply IH; assumption.
Qed.

(** An envelope comes right after its post. *)
Lemma enveloped_from_split (T : Z) (mk : Twit -> Stage) (pre : Trace) :
  forall (prev : option Twit) (tr : Trace) (d : Dict) (post : Trace),
    enveloped_from T mk prev tr -> tr = pre ++ EvEmit d :: post ->
    exists t,
      (pre = [] /\ prev = Some t \/ exists pre', pre = pre' ++ [EvYield t])
      /\ d = envelope t (mk t) /\ T <= publication_datetime (item t).
Proof.
  induction pre as [|e pre IH]; intros prev tr d post H E; subst tr.
  - simpl in H. destruct H as [H _]. destruct prev as [t|]; [|contradiction].
    exists t. tauto.
  - simpl in H. destruct H as [_ H].
    destruct (IH _ _ d post H eq_refl) as [t [Hpre Hd]].
    exists t. split; [|exact Hd]. right.
    destruct Hpre as [[-> Hprev] | [pre' ->]].
    + destruct e; try discriminate. injection Hprev as ->. exists []. reflexivity.
    + exists (e :: pre'). reflexivity.
Qed.

Lemma enveloped_emits_fresh (T : Z) (mk : Twit -> Stage) (tr : Trace) :
  forall prev, enveloped_from T mk prev tr -> emits_fresh T tr.
Proof.
  induction tr as [|e tr IH]; intros prev H d Hin; [contradiction|].
  simpl in H. destruct H as [He Ht]. destruct Hin as [-> | Hin].
  - destruct prev as [t|]; [|contradiction]. destruct He as [-> Hpd].
    exists t, (mk t). auto.
  - eapply IH; eauto.
Qed.

Lemma emits_fresh_app (T : Z) (a b : Trace) :
  emits_fresh T a -> emits_fresh T b -> emits_fresh T (a ++ b).
Proof.
  intros Ha Hb d Hin. apply in_app_or in Hin.
  destruct Hin; [eapply Ha | eapply Hb]; eauto.
Qed.

(** Checks of the profile and pauses neither yield nor emit. *)
Lemma check_trace_facts (T : Z) (mk : Twit -> Stage) (tr : Trace) :
  Forall is_check tr ->
  stops_at_stale T tr /\ ~ has_stale T tr /\ enveloped_from T mk None tr
  /\ emits_fresh T tr /\ requests_of tr = [].
Proof.
  intros H. induction H as [|e tr He H IH].
  - repeat split; simpl; auto. intros d [].
  - destruct IH as [I1 [I2 [I3 [I4 I5]]]].
    destruct e; simpl in He; try contradiction; simpl;
      (repeat split; auto);
      intros d [Hin | Hin]; try discriminate; eapply I4; eauto.
Qed.

Lemma is_phase_not_profile (query : string) (tr : Trace) :
  Forall (is_phase query) tr -> Forall not_profile tr.
Proof.
  apply Forall_impl. intros e. destruct e; simpl; auto.
Qed.

Lemma is_check_not_search (tr : Trace) :
  Forall is_check tr -> requests_of tr = [].
Proof.
  induction 1 as [|e tr He H IH]; [reflexivity|].
  destruct e; simpl in *; auto; contradiction.
Qed.

Lemma requests_of_app (a b : Trace) :
  requests_of (a ++ b) = requests_of a ++ requests_of b.
Proof.
  induction a as [|e a IH]; simpl; [reflexivity|].
  destruct e; simpl; rewrite ?IH; reflexivity.
Qed.

Lemma emitter_tail_pause (r : outcome unit) :
  Forall is_pause (emitter_tail r).
Proof.
  destruct r as [a|e|]; try constructor.
  destruct e; repeat constructor.
Qed.

Lemma pause_check (tr : Trace) : Forall is_pause tr -> Forall is_check tr.
Proof. apply Forall_impl. intros e. destruct e; simpl; auto. Qed.

Lemma pause_phase (query : string) (tr : Trace) :
  Forall is_pause tr -> Forall (is_phase query) tr.
Proof. apply Forall_impl. intros e. destruct e; simpl; tauto. Qed.

(** One step of [check_profile] on a reply that is an HTTP answer. *)
Lemma check_profile_step (fuel : nat) (profile : string) (n now : Z)
      (sr : list (Reply Json)) (status : Z) (html : Html)
      (rest : list (Reply Html)) :
  check_profile (S fuel) profile (mkWorld n now sr (Http status html :: rest))
  = let u := ((MOBILE_URL ++ profile)%string, []) in
    let req := EvProfile u (Some (Http status html)) in
    match classify status with
    | ReturnBody =>
        (if protected_div html then Raise (PrivateProfile profile)
         else Ok tt,
         mkWorld n now sr rest, [req])
    | RetryAtOnce =>
        after [req] (check_profile fuel profile (mkWorld n now sr rest))
    | PauseThenRetry =>
        after [req; EvSleep RESPONSE_DELAY]
              (check_profile fuel profile
                 (mkWorld n (now + 1000 * RESPONSE_DELAY) sr rest))
    | FailApiError =>
        (if status =? 404 then Raise (InvalidProfile profile)
         else Raise (ApiError (UrlNotAvailable u status)),
         mkWorld n now sr rest, [req])
    end.
Proof.
  unfold classify. cbn [check_profile].
  unfold bind at 1. unfold get_profile.
  cbn [profile_replies mkWorld reply_outcome fst snd].
  cbn [self_counter clock_ms search_replies].
  destruct (status =? 200) eqn:H200; cbn [negb].
  { destruct (protected_div html); reflexivity. }
  destruct (status =? 503) eqn:H503.
  { unfold after, mkWorld.
    destruct (check_profile fuel profile _) as [[r w'] tr]. reflexivity. }
  destruct (status =? 429) eqn:H429; cbn [orb].
  { unfold bind, async_sleep, after, mkWorld.
    cbn [self_counter clock_ms profile_replies search_replies].
    destruct (check_profile fuel profile _) as [[r w'] tr]. reflexivity. }
  replace (status <? 527) with (status <=? 526)
    by (destruct (status <=? 526) eqn:E1, (status <? 527) eqn:E2;
        try reflexivity; lia).
  destruct ((500 <=? status) && (status <=? 526)) eqn:H5.
  { unfold bind, async_sleep, after, mkWorld.
    cbn [self_counter clock_ms profile_replies search_replies].
    destruct (check_profile fuel profile _) as [[r w'] tr]. reflexivity. }
  destruct (status =? 404); reflexivity.
Qed.

(** A check of the profile asks for the profile page only, and pauses. *)
Lemma check_profile_trace (fuel : nat) (profile : string) :
  forall w, Forall is_check (trace_of (check_profile fuel profile w)).
Proof.
  induction fuel as [|fuel IH]; intros w; [constructor|].
  rewrite (world_eta w).
  destruct (profile_replies w) as [|[status html| |] rest];
    try (repeat constructor).
  rewrite check_profile_step. cbv zeta.
  destruct (classify status); cbn [trace_of snd after].
  - repeat constructor.
  - constructor; [exact I | apply IH].
  - constructor; [exact I|]. constructor; [exact I | apply IH].
  - repeat constructor.
Qed.

(** ** Whole runs of the task runners *)

Lemma finish_parts {A} (x : outcome A * World * Trace) :
  trace_of (finish x) = trace_of x
  /\ world_of (finish x) = world_of x
  /\ (forall a, result_of x = Ok a -> result_of (finish x) = Ok tt).
Proof.
  destruct x as [[r w] tr]. unfold finish; simpl. repeat split.
  intros a ->. reflexivity.
Qed.

Lemma trace_of_finish {A} (x : outcome A * World * Trace) :
  trace_of (finish x) = trace_of x.
Proof. reflexivity. Qed.

(** A search task is one stream with the body of [search], and then the
    pause that [emitter] may add. *)
Lemma search_parts (strftime_date : Z -> string) (fuel : nat)
      (kwargs : Kwargs.t) (w : World) :
  let T := Kwargs.last_execution_time kwargs in
  let query := task_query (Kwargs.query (Kwargs.extra kwargs))
                          (since_of strftime_date T) in
  exists r tr tail,
    trace_of (search strftime_date fuel kwargs w) = tr ++ tail
    /\ Forall is_pause tail
    /\ Stream query (search_body T) r tr
    /\ (r = Ok Returned ->
        tail = [] /\ result_of (search strftime_date fuel kwargs w) = Ok tt).
Proof.
  intros T query. unfold search.
  destruct (emitter_run (search_gen strftime_date fuel kwargs) w)
    as [Etr Eres].
  rewrite Etr, Eres. rewrite search_gen_run. cbv zeta.
  destruct (nonempty (Kwargs.query (Kwargs.extra kwargs))).
  - pose proof (Stream_search query (search_body T) fuel
                  (Kwargs.stage (Kwargs.extra kwargs)) w) as Hs.
    fold T. fold query.
    destruct (_search fuel query _ (search_body T) w) as [[r w1] tr].
    exists r, tr, (emitter_tail (result_of (finish (r, w1, tr)))).
    split; [reflexivity|]. split; [apply emitter_tail_pause|].
    split; [exact Hs|]. intros ->. split; reflexivity.
  - exists (Raise (ApiError ErrorQueryIsMissing)), [], [].
    split; [reflexivity|]. split; [constructor|].
    split; [apply St_end; discriminate | discriminate].
Qed.

(** An owner crawl is the check of the profile, a stream with the body of
    stage 1, a stream with the body of stage 2, and then the pause that
    [emitter] may add. *)
Lemma owner_parts (strftime_date : Z -> string) (fuel : nat)
      (kwargs : Kwargs.t) (w : World) :
  let T := Kwargs.last_execution_time kwargs in
  let profile := Kwargs.owner_id (Kwargs.extra kwargs) in
  let since := since_of strftime_date T in
  let stage := Kwargs.stage (Kwargs.extra kwargs) in
  let chk := check_profile fuel profile w in
  let p1 := owner_phase_1 fuel profile since T stage (world_of chk) in
  nonempty profile = true ->
  exists r1 tr1 r2 tr2 tail,
    trace_of (get_owner strftime_date fuel kwargs w)
    = trace_of chk ++ tr1 ++ tr2 ++ tail
    /\ Forall is_pause tail
    /\ Stream (owner_query profile false since) (owner_body T 1) r1 tr1
    /\ Stream (owner_query profile true since) (owner_body T 2) r2 tr2
    /\ (r1 = Ok Returned ->
        tr2 = [] /\ tail = []
        /\ result_of (get_owner strftime_date fuel kwargs w) = Ok tt)
    /\ (r2 = Ok Returned ->
        tail = []
        /\ result_of (get_owner strftime_date fuel kwargs w) = Ok tt)
    /\ (result_of chk <> Ok tt ->
        tr1 = [] /\ tr2 = []
        /\ result_of (get_owner_gen strftime_date fuel kwargs w)
           = result_of chk)
    /\ (tr1 <> [] ->
        default 1 (task_stage stage) = 1 /\ result_of chk = Ok tt
        /\ r1 = result_of p1 /\ tr1 = trace_of p1)
    /\ (tr2 <> [] ->
        result_of chk = Ok tt
        /\ (default 1 (task_stage stage) <> 1 /\ tr1 = []
            \/ default 1 (task_stage stage) = 1
               /\ result_of p1 = Ok Continue /\ tr1 = trace_of p1)).
Proof.
  intros T profile since stage chk p1 Hp. unfold get_owner.
  destruct (emitter_run (get_owner_gen strftime_date fuel kwargs) w)
    as [Etr Eres].
  rewrite Etr, Eres. rewrite get_owner_gen_run. cbv zeta.
  fold T profile since stage. rewrite Hp. unfold owner_run. cbv zeta.
  fold chk.
  assert (Hend : forall q b, Stream q b (Ok Continue) [])
    by (intros; apply St_end; discriminate).
  destruct (result_of chk) as [[]|e|] eqn:Ec.
  - fold p1.
    destruct (default 1 (task_stage stage) =? 1) eqn:Hts.
    + apply Z.eqb_eq in Hts.
      pose proof (Stream_search (owner_query profile false since)
                    (owner_body T 1) fuel stage (world_of chk)) as H1.
      fold (owner_phase_1 fuel profile since T stage (world_of chk)) in H1.
      fold p1 in H1.
      destruct (result_of p1) as [[|]|e1|] eqn:E1.
      * pose proof (Stream_search (owner_query profile true since)
                      (owner_body T 2) fuel empty_stage (world_of p1)) as H2.
        fold (owner_phase_2 fuel profile since T empty_stage (world_of p1))
          in H2.
        set (p2 := owner_phase_2 fuel profile since T empty_stage
                                 (world_of p1)) in *.
        exists (Ok Continue), (trace_of p1), (result_of p2), (trace_of p2),
               (emitter_tail (result_of (finish p2))).
        rewrite trace_of_after, result_of_after.
        destruct (finish_parts p2) as [F1 [F2 F3]]. rewrite F1.
        split; [rewrite <- !app_assoc; reflexivity|].
        split; [apply emitter_tail_pause|].
        split; [exact H1|]. split; [exact H2|].
        split; [discriminate|].
        split; [intros Hr; rewrite (F3 _ Hr); split; reflexivity|].
        split; [congruence|].
        split; [intros _; repeat split; auto; congruence|].
        intros _. split; [reflexivity|]. right. auto.
      * exists (Ok Returned), (trace_of p1), (Ok Continue), [], [].
        rewrite trace_of_after, result_of_after.
        destruct (finish_parts p1) as [F1 [F2 F3]]. rewrite F1.
        rewrite (F3 _ E1). simpl. rewrite !app_nil_r.
        split; [reflexivity|]. split; [constructor|].
        split; [exact H1|]. split; [apply Hend|].
        split; [auto|]. split; [discriminate|]. split; [congruence|].
        split; [intros _; repeat split; auto; congruence|]. congruence.
      * exists (Raise e1), (trace_of p1), (Ok Continue), [],
               (emitter_tail (Raise e1)).
        rewrite trace_of_after, result_of_after.
        destruct (finish_parts p1) as [F1 [F2 F3]]. rewrite F1.
        unfold finish. rewrite E1. cbn [result_of fst].
        split; [simpl; rewrite <- !app_assoc; reflexivity|].
        split; [apply emitter_tail_pause|].
        split; [exact H1|]. split; [apply Hend|].
        split; [discriminate|]. split; [discriminate|]. split; [congruence|].
        split; [intros _; repeat split; auto; congruence|]. congruence.
      * exists Pending, (trace_of p1), (Ok Continue), [], [].
        rewrite trace_of_after, result_of_after.
        destruct (finish_parts p1) as [F1 [F2 F3]]. rewrite F1.
        unfold finish. rewrite E1. cbn [result_of fst emitter_tail].
        rewrite !app_nil_r.
        split; [reflexivity|]. split; [constructor|].
        split; [exact H1|]. split; [apply Hend|].
        split; [discriminate|]. split; [discriminate|]. split; [congruence|].
        split; [intros _; repeat split; auto; congruence|]. congruence.
    + apply Z.eqb_neq in Hts.
      pose proof (Stream_search (owner_query profile true since)
                    (owner_body T 2) fuel stage (world_of chk)) as H2.
      fold (owner_phase_2 fuel profile since T stage (world_of chk)) in H2.
      set (p2 := owner_phase_2 fuel profile since T stage (world_of chk))
        in *.
      exists (Ok Continue), [], (result_of p2), (trace_of p2),
             (emitter_tail (result_of (finish p2))).
      rewrite trace_of_after, result_of_after.
      destruct (finish_parts p2) as [F1 [F2 F3]]. rewrite F1.
      split; [rewrite <- !app_assoc; reflexivity|].
      split; [apply emitter_tail_pause|].
      split; [apply Hend|]. split; [exact H2|].
      split; [discriminate|].
      split; [intros Hr; rewrite (F3 _ Hr); split; reflexivity|].
      split; [congruence|].
      split; [congruence|].
      intros _. split; [reflexivity|]. left. auto.
  - exists (Ok Continue), [], (Ok Continue), [], (emitter_tail (Raise e)).
    unfold finish. rewrite Ec. cbn [result_of trace_of fst snd].
    split; [reflexivity|]. split; [apply emitter_tail_pause|].
    split; [apply Hend|]. split; [apply Hend|].
    split; [discriminate|]. split; [discriminate|].
    split; [auto|]. split; congruence.
  - exists (Ok Continue), [], (Ok Continue), [], [].
    unfold finish. rewrite Ec. cbn [result_of trace_of fst snd emitter_tail].
    rewrite !app_nil_r.
    split; [reflexivity|]. split; [constructor|].
    split; [apply Hend|]. split; [apply Hend|].
    split; [discriminate|]. split; [discriminate|].
    split; [auto|]. split; congruence.
Qed.

(** ** The hard stop *)

Lemma has_stale_intro (T : Z) (pre : Trace) (t : Twit) (post : Trace) :
  stale T t -> has_stale T (pre ++ EvYield t :: post).
Proof.
  intros Hs. apply has_stale_app. right. simpl. left. exact Hs.
Qed.

Lemma search_whole (strftime_date : Z -> string) (fuel : nat)
      (kwargs : Kwargs.t) (w : World) :
  let T := Kwargs.last_execution_time kwargs in
  let run := search strftime_date fuel kwargs w in
  stops_at_stale T (trace_of run)
  /\ enveloped_from T search_stage None (trace_of run)
  /\ (has_stale T (trace_of run) -> result_of run = Ok tt).
Proof.
  intros T run.
  destruct (search_parts strftime_date fuel kwargs w)
    as [r [tr [tail [E [Htail [Hs Hr]]]]]].
  fold T in Hs, Hr. fold run in E, Hr. rewrite E.
  destruct (runner_stream T search_stage _ _ _ _ (search_body_runner T) Hs)
    as [S1 [S2 [S3 S4]]].
  destruct (check_trace_facts T search_stage tail (pause_check _ Htail))
    as [C1 [C2 [C3 [C4 C5]]]].
  split; [|split].
  - apply stops_at_stale_app; auto. intros H. apply S4 in H.
    apply Hr in H. tauto.
  - apply enveloped_from_app; auto.
  - intros H. apply has_stale_app in H. destruct H as [H | H]; [|tauto].
    apply S4 in H. apply Hr in H. tauto.
Qed.

Lemma get_owner_no_profile (strftime_date : Z -> string) (fuel : nat)
      (kwargs : Kwargs.t) (w : World) :
  nonempty (Kwargs.owner_id (Kwargs.extra kwargs)) = false ->
  get_owner strftime_date fuel kwargs w
  = (Raise (ApiError OwnerIdIsMissing), w, []).
Proof.
  intros Hp. unfold get_owner, emitter. rewrite get_owner_gen_run.
  cbv zeta. rewrite Hp. reflexivity.
Qed.

Lemma owner_whole (strftime_date : Z -> string) (fuel : nat)
      (kwargs : Kwargs.t) (w : World) :
  let T := Kwargs.last_execution_time kwargs in
  let run := get_owner strftime_date fuel kwargs w in
  stops_at_stale T (trace_of run)
  /\ emits_fresh T (trace_of run)
  /\ (has_stale T (trace_of run) -> result_of run = Ok tt).
Proof.
  intros T run.
  destruct (nonempty (Kwargs.owner_id (Kwargs.extra kwargs))) eqn:Hp.
  - destruct (owner_parts strftime_date fuel kwargs w Hp)
      as [r1 [tr1 [r2 [tr2 [tail [E [Htail [H1 [H2 [R1 [R2 _]]]]]]]]]]].
    fold T in H1, H2. fold run in E, R1, R2. rewrite E.
    destruct (runner_stream T _ _ _ _ _ (owner_body_runner T 1) H1)
      as [A1 [A2 [A3 A4]]].
    destruct (runner_stream T _ _ _ _ _ (owner_body_runner T 2) H2)
      as [B1 [B2 [B3 B4]]].
    destruct (check_trace_facts T search_stage tail (pause_check _ Htail))
      as [C1 [C2 [C3 [C4 C5]]]].
    destruct (check_trace_facts T search_stage _
                (check_profile_trace fuel
                   (Kwargs.owner_id (Kwargs.extra kwargs)) w))
      as [D1 [D2 [D3 [D4 D5]]]].
    assert (S2 : stops_at_stale T (tr2 ++ tail)).
    { apply stops_at_stale_app; auto. intros H. apply B4, R2 in H. tauto. }
    assert (S1 : stops_at_stale T (tr1 ++ tr2 ++ tail)).
    { apply stops_at_stale_app; auto. intros H. apply A4, R1 in H.
      destruct H as [-> [-> _]]. reflexivity. }
    split; [|split].
    + apply stops_at_stale_app; auto. intros H. contradiction.
    + repeat apply emits_fresh_app; auto;
        eapply enveloped_emits_fresh; eauto.
    + intros H. apply has_stale_app in H. destruct H as [H | H]; [tauto|].
      apply has_stale_app in H. destruct H as [H | H].
      * apply A4, R1 in H. tauto.
      * apply has_stale_app in H. destruct H as [H | H]; [|tauto].
        apply B4, R2 in H. tauto.
  - subst run. rewrite (get_owner_no_profile _ _ _ _ Hp). simpl.
    split; [exact I|]. split; [intros d []|contradiction].
Qed.

(** C1: in every run of the search runner and of the owner runner with
    [last_execution_time = T], every envelope holds one post and its
    [publication_datetime] is not less than [T], so no emitted item has
    [publication_datetime < T]; and a post with [publication_datetime < T]
    that the stream yields is the last event of the run: nothing is emitted
    for it, no further request is made (so no further phase is run), and
    the runner ends normally. *)
Theorem hard_stop_boundary :
  forall (strftime_date : Z -> string) (fuel : nat) (kwargs : Kwargs.t)
         (w : World),
    let T := Kwargs.last_execution_time kwargs in
    (let run := search strftime_date fuel kwargs w in
     emits_fresh T (trace_of run)
     /\ forall pre t post,
         trace_of run = pre ++ EvYield t :: post ->
         publication_datetime (item t) < T ->
         post = [] /\ result_of run = Ok tt)
    /\
    (let run := get_owner strftime_date fuel kwargs w in
     emits_fresh T (trace_of run)
     /\ forall pre t post,
         trace_of run = pre ++ EvYield t :: post ->
         publication_datetime (item t) < T ->
         post = [] /\ result_of run = Ok tt).
Proof.
  intros strftime_date fuel kwargs w T. split.
  - destruct (search_whole strftime_date fuel kwargs w) as [S1 [S2 S3]].
    fold T in S1, S2, S3. cbv zeta. split.
    + eapply enveloped_emits_fresh; eauto.
    + intros pre t post E Hs. split.
      * eapply stops_at_stale_split; eauto.
      * apply S3. rewrite E. apply has_stale_intro. exact Hs.
  - destruct (owner_whole strftime_date fuel kwargs w) as [S1 [S2 S3]].
    fold T in S1, S2, S3. cbv zeta. split; [exact S2|].
    intros pre t post E Hs. split.
    + eapply stops_at_stale_split; eauto.
    + apply S3. rewrite E. apply has_stale_intro. exact Hs.
Qed.

(** ** Envelopes *)

Lemma envelope_after_yield (T : Z) (mk : Twit -> Stage) (tr : Trace) :
  enveloped_from T mk None tr ->
  forall pre d post,
    tr = pre ++ EvEmit d :: post ->
    exists pre' t, pre = pre' ++ [EvYield t] /\ d = envelope t (mk t).
Proof.
  intros H pre d post E.
  destruct (enveloped_from_split T mk pre None tr d post H E)
    as [t [[[_ Hn] | [pre' Hpre]] [Hd _]]]; [discriminate|].
  exists pre', t. auto.
Qed.

(** C8, as it is worded, fails: the envelope that [search] emits for a post
    has no key ['items']; the post is under ['twits']. *)
Lemma envelope_has_no_items_key :
  let d := envelope (stamp (post 9 90 90000) 1 "")
                    (checkpoint (stage (stamp (post 9 90 90000) 1 ""))) in
  In (EvEmit d) (trace_of (search one_day 2 (a_task empty_stage)
                                  last_page_world))
  /\ dict_get "items" d = None
  /\ dict_get "twits" d = Some (VList [item (post 9 90 90000)]).
Proof. vm_compute. intuition. Qed.

(** C8, amended: every envelope that the search runner and the owner runner
    emit comes right after a post yielded by the crawl stream and is the
    dict [{twits: [post], stage: checkpoint}] with exactly that one post
    (never a batch) and the checkpoint that the stream attached to it; in an
    owner crawl the checkpoint carries in addition [task_stage = 1] while
    the requests are those of the query of phase 1, and [task_stage = 2]
    while they are those of the query of phase 2. *)
Theorem one_envelope_per_post :
  forall (strftime_date : Z -> string) (fuel : nat) (kwargs : Kwargs.t)
         (w : World),
    let T := Kwargs.last_execution_time kwargs in
    let profile := Kwargs.owner_id (Kwargs.extra kwargs) in
    let since := since_of strftime_date T in
    (forall pre d post,
        trace_of (search strftime_date fuel kwargs w)
        = pre ++ EvEmit d :: post ->
        exists pre' t,
          pre = pre' ++ [EvYield t]
          /\ d = [("twits", VList [item t]);
                  ("stage", VStage (checkpoint (stage t)))])
    /\
    (exists tr0 tr1 tr2,
        trace_of (get_owner strftime_date fuel kwargs w) = tr0 ++ tr1 ++ tr2
        /\ Forall is_check tr0
        /\ Forall (is_phase (owner_query profile false since)) tr1
        /\ Forall (is_phase (owner_query profile true since)) tr2
        /\ (forall pre d post,
               tr1 = pre ++ EvEmit d :: post ->
               exists pre' t,
                 pre = pre' ++ [EvYield t]
                 /\ d = [("twits", VList [item t]);
                         ("stage",
                          VStage (set_task_stage (checkpoint (stage t)) 1))])
        /\ (forall pre d post,
               tr2 = pre ++ EvEmit d :: post ->
               exists pre' t,
                 pre = pre' ++ [EvYield t]
                 /\ d = [("twits", VList [item t]);
                         ("stage",
                          VStage (set_task_stage (checkpoint (stage t)) 2))])).
Proof.
  intros strftime_date fuel kwargs w T profile since. split.
  - destruct (search_whole strftime_date fuel kwargs w) as [_ [S2 _]].
    apply (envelope_after_yield _ _ _ S2).
  - destruct (nonempty profile) eqn:Hp.
    + destruct (owner_parts strftime_date fuel kwargs w Hp)
        as [r1 [tr1 [r2 [tr2 [tail [E [Htail [H1 [H2 _]]]]]]]]].
      fold T profile since in H1, H2.
      destruct (runner_stream T _ _ _ _ _ (owner_body_runner T 1) H1)
        as [A1 [A2 [A3 A4]]].
      destruct (runner_stream T _ _ _ _ _ (owner_body_runner T 2) H2)
        as [B1 [B2 [B3 B4]]].
      exists (trace_of (check_profile fuel profile w)), tr1, (tr2 ++ tail).
      split; [exact E|].
      split; [apply check_profile_trace|]. split; [exact A3|].
      split.
      { apply Forall_app. split; [exact B3 | apply pause_phase, Htail]. }
      split.
      * apply (envelope_after_yield _ _ _ A2).
      * apply (envelope_after_yield T (owner_stage 2)).
        apply enveloped_from_app; [exact B2|].
        apply (check_trace_facts T (owner_stage 2) tail (pause_check _ Htail)).
    + exists [], [], []. unfold profile in Hp.
      rewrite (get_owner_no_profile _ _ _ _ Hp). simpl.
      repeat split; try constructor;
        intros pre d post E; destruct pre; discriminate.
Qed.

(** ** The gate of the profile check *)

Lemma get_owner_result_of_failed_check (strftime_date : Z -> string)
      (fuel : nat) (kwargs : Kwargs.t) (w : World) (e : Exn) :
  let profile := Kwargs.owner_id (Kwargs.extra kwargs) in
  nonempty profile = true ->
  result_of (check_profile fuel profile w) = Raise e ->
  result_of (get_owner_gen strftime_date fuel kwargs w) = Raise e.
Proof.
  intros profile Hp He.
  destruct (owner_parts strftime_date fuel kwargs w Hp)
    as (r1 & tr1 & r2 & tr2 & tail & _ & _ & _ & _ & _ & _ & H & _).
  fold profile in H. rewrite He in H.
  destruct H as (_ & _ & H); [discriminate | exact H].
Qed.

(** C7: in every owner crawl the check of the profile comes before any
    search request.  The check treats the mobile profile page as the fetcher
    treats a search page (503 asked again at once, 429 and 500..526 after a
    pause), raises [InvalidProfile] on a 404 and [PrivateProfile] on a 200
    page with the "protected" marker, and gives no value on a 200 page
    without it; and when the check does not succeed the run makes no search
    request at all and ends with the exception of the check. *)
Theorem profile_gate :
  forall (strftime_date : Z -> string) (fuel : nat) (kwargs : Kwargs.t)
         (w : World),
    let profile := Kwargs.owner_id (Kwargs.extra kwargs) in
    let chk := check_profile fuel profile w in
    let run := get_owner strftime_date fuel kwargs w in
    nonempty profile = true ->
    (forall fuel' n now sr status html rest,
        check_profile (S fuel') profile
                      (mkWorld n now sr (Http status html :: rest))
        = let u := ((MOBILE_URL ++ profile)%string, []) in
          let req := EvProfile u (Some (Http status html)) in
          match classify status with
          | ReturnBody =>
              (if protected_div html then Raise (PrivateProfile profile)
               else Ok tt,
               mkWorld n now sr rest, [req])
          | RetryAtOnce =>
              after [req]
                    (check_profile fuel' profile (mkWorld n now sr rest))
          | PauseThenRetry =>
              after [req; EvSleep RESPONSE_DELAY]
                    (check_profile fuel' profile
                       (mkWorld n (now + 1000 * RESPONSE_DELAY) sr rest))
          | FailApiError =>
              (if status =? 404 then Raise (InvalidProfile profile)
               else Raise (ApiError (UrlNotAvailable u status)),
               mkWorld n now sr rest, [req])
          end)
    /\ (exists rest,
           trace_of run = trace_of chk ++ rest
           /\ Forall is_check (trace_of chk)
           /\ Forall not_profile rest
           /\ (result_of chk <> Ok tt -> requests_of (trace_of run) = []))
    /\ (result_of chk = Raise (InvalidProfile profile) ->
        result_of run = Raise (InvalidProfile profile))
    /\ (result_of chk = Raise (PrivateProfile profile) ->
        result_of run = Raise (PrivateProfile profile)).
Proof.
  intros strftime_date fuel kwargs w profile chk run Hp.
  split; [intros; apply check_profile_step|].
  destruct (owner_parts strftime_date fuel kwargs w Hp)
    as (r1 & tr1 & r2 & tr2 & tail & E & Htail & H1 & H2 & _ & _ & Hc & _).
  fold profile chk in Hc, E. fold run in E.
  destruct (runner_stream _ _ _ _ _ _ (owner_body_runner _ 1) H1)
    as [_ [_ [A3 _]]].
  destruct (runner_stream _ _ _ _ _ _ (owner_body_runner _ 2) H2)
    as [_ [_ [B3 _]]].
  pose proof (check_profile_trace fuel profile w) as Hchk. fold chk in Hchk.
  split; [|split].
  - exists (tr1 ++ tr2 ++ tail). split; [exact E|]. split; [exact Hchk|].
    split.
    + repeat (apply Forall_app; split).
      * eapply is_phase_not_profile; eauto.
      * eapply is_phase_not_profile; eauto.
      * eapply is_phase_not_profile. apply (pause_phase ""), Htail.
    + intros Hne. destruct (Hc Hne) as [-> [-> _]]. rewrite E.
      simpl. rewrite requests_of_app.
      rewrite (is_check_not_search _ Hchk).
      apply is_check_not_search, pause_check, Htail.
  - intros He. subst run. unfold get_owner.
    destruct (emitter_run (get_owner_gen strftime_date fuel kwargs) w)
      as [_ ->].
    rewrite (get_owner_result_of_failed_check _ _ _ _ _ Hp He). reflexivity.
  - intros He. subst run. unfold get_owner.
    destruct (emitter_run (get_owner_gen strftime_date fuel kwargs) w)
      as [_ ->].
    rewrite (get_owner_result_of_failed_check _ _ _ _ _ Hp He). reflexivity.
Qed.

(** The gate at work: after a 503 the profile page of "bob" answers 404;
    the crawl ends with [InvalidProfile] and has made no search request. *)
Lemma profile_gate_witness :
  nonempty (Kwargs.owner_id (Kwargs.extra (a_task empty_stage))) = true
  /\ result_of (get_owner one_day 3 (a_task empty_stage) no_profile_world)
     = Raise (InvalidProfile "bob")
  /\ requests_of
       (trace_of (get_owner one_day 3 (a_task empty_stage) no_profile_world))
     = [].
Proof.
  split; [reflexivity|].
  destruct (profile_gate one_day 3 (a_task empty_stage) no_profile_world
                         eq_refl)
    as [_ [[rest [_ [_ [_ Hreq]]]] [H404 _]]].
  split.
  - apply H404. reflexivity.
  - apply Hreq. discriminate.
Defined.

(** ** The two phases of an owner crawl *)

Lemma owner_query_from (profile since : string) :
  nonempty profile = true ->
  exists rest, owner_query profile false since = String "f" rest.
Proof.
  intros Hp. unfold owner_query, construct_query. rewrite Hp.
  cbn [negb Z.eqb].
  destruct (nonempty since); cbn [nonempty append negb];
    rewrite ?nonempty_app; cbn [nonempty orb negb append lstrip];
    change (isspace " ") with true; cbv iota; cbn [lstrip];
    change (isspace "f") with false; cbv iota; eexists; reflexivity.
Qed.

Lemma owner_query_to (profile since : string) :
  nonempty profile = true ->
  exists rest, owner_query profile true since = String "t" rest.
Proof.
  intros Hp. unfold owner_query, construct_query. rewrite Hp.
  cbn [negb Z.eqb].
  destruct (nonempty since); cbn [nonempty append negb];
    rewrite ?nonempty_app; cbn [nonempty orb negb append lstrip];
    change (isspace " ") with true; cbv iota; cbn [lstrip];
    change (isspace "t") with false; cbv iota; eexists; reflexivity.
Qed.

Lemma owner_queries_differ (profile since : string) :
  nonempty profile = true ->
  owner_query profile false since <> owner_query profile true since.
Proof.
  intros Hp E.
  destruct (owner_query_from profile since Hp) as [r1 E1].
  destruct (owner_query_to profile since Hp) as [r2 E2].
  rewrite E1, E2 in E. discriminate.
Qed.

Lemma search_url_query (q1 c1 q2 c2 : string) :
  search_url q1 c1 = search_url q2 c2 -> q1 = q2.
Proof.
  unfold search_url. intros E.
  destruct (nonempty c1), (nonempty c2); simpl in E; congruence.
Qed.

Lemma app_split_right {A} (a b pre post : list A) (x : A) :
  a ++ b = pre ++ x :: post -> ~ In x a -> exists l, b = l ++ x :: post.
Proof.
  revert pre. induction a as [|y a IH]; intros pre E Hn.
  - exists pre. exact E.
  - destruct pre as [|p pre]; simpl in E; injection E as -> E.
    + exfalso. apply Hn. left. reflexivity.
    + apply (IH pre E). intros Hin. apply Hn. right. exact Hin.
Qed.

Lemma phase_no_other_query (q q' : string) (tr : Trace) :
  Forall (is_phase q) tr -> q <> q' ->
  forall c r, ~ In (EvSearch (search_url q' c) r) tr.
Proof.
  intros H Hq c r Hin. rewrite Forall_forall in H.
  apply H in Hin. simpl in Hin. destruct Hin as [c' E].
  apply search_url_query in E. congruence.
Qed.

Lemma check_no_search (tr : Trace) :
  Forall is_check tr -> forall u r, ~ In (EvSearch u r) tr.
Proof.
  intros H u r Hin. rewrite Forall_forall in H. apply (H _ Hin).
Qed.

Lemma pause_no_search (tr : Trace) :
  Forall is_pause tr -> forall u r, ~ In (EvSearch u r) tr.
Proof.
  intros H u r Hin. rewrite Forall_forall in H. apply (H _ Hin).
Qed.

Lemma get_owner_via_run (strftime_date : Z -> string) (fuel : nat)
      (kwargs : Kwargs.t) (w : World) :
  let T := Kwargs.last_execution_time kwargs in
  let profile := Kwargs.owner_id (Kwargs.extra kwargs) in
  let run := owner_run fuel profile (since_of strftime_date T) T
                       (Kwargs.stage (Kwargs.extra kwargs)) w in
  nonempty profile = true ->
  get_owner_gen strftime_date fuel kwargs w = run
  /\ trace_of (get_owner strftime_date fuel kwargs w)
     = trace_of run ++ emitter_tail (result_of run)
  /\ result_of (get_owner strftime_date fuel kwargs w)
     = match result_of run with
       | Raise AsyncTimeoutError => Ok tt
       | Raise ClientError => Raise NonCriticalError
       | r => r
       end.
Proof.
  intros T profile run Hp.
  assert (E : get_owner_gen strftime_date fuel kwargs w = run).
  { rewrite get_owner_gen_run. cbv zeta. fold profile. rewrite Hp.
    reflexivity. }
  split; [exact E|]. unfold get_owner. rewrite <- E. apply emitter_run.
Qed.

(** C3: in every owner crawl whose checkpoint has no [task_stage] or has
    [task_stage] 1 or 2, a request for the query of phase 2 (the replies to
    the profile) is made only when the run is resumed with [task_stage = 2]
    or after phase 1 has been exhausted normally; after a normal end of
    phase 1, phase 2 is the stream for the empty checkpoint; a hard stop
    within phase 1 ends the whole task with no request for the query of
    phase 2; and after a request for the query of phase 2 there is no
    request for the query of phase 1 any more. *)
Theorem owner_phase_order :
  forall (strftime_date : Z -> string) (fuel : nat) (kwargs : Kwargs.t)
         (w : World),
    let T := Kwargs.last_execution_time kwargs in
    let profile := Kwargs.owner_id (Kwargs.extra kwargs) in
    let since := since_of strftime_date T in
    let stage := Kwargs.stage (Kwargs.extra kwargs) in
    let q1 := owner_query profile false since in
    let q2 := owner_query profile true since in
    let chk := check_profile fuel profile w in
    let p1 := owner_phase_1 fuel profile since T stage (world_of chk) in
    let run := get_owner strftime_date fuel kwargs w in
    nonempty profile = true ->
    task_stage stage = None \/ task_stage stage = Some 1
    \/ task_stage stage = Some 2 ->
    q1 <> q2
    /\ get_owner_gen strftime_date fuel kwargs w
       = owner_run fuel profile since T stage w
    /\ (forall c r,
           In (EvSearch (search_url q2 c) r) (trace_of run) ->
           result_of chk = Ok tt
           /\ (task_stage stage = Some 2
               \/ task_stage stage <> Some 2 /\ result_of p1 = Ok Continue))
    /\ (task_stage stage = Some 2 -> result_of chk = Ok tt ->
        exists tail,
          trace_of run
          = trace_of chk
            ++ trace_of (owner_phase_2 fuel profile since T stage
                                       (world_of chk))
            ++ tail
          /\ Forall is_pause tail)
    /\ (task_stage stage <> Some 2 -> result_of chk = Ok tt ->
        result_of p1 = Ok Continue ->
        exists tail,
          trace_of run
          = trace_of chk ++ trace_of p1
            ++ trace_of (owner_phase_2 fuel profile since T empty_stage
                                       (world_of p1))
            ++ tail
          /\ Forall is_pause tail)
    /\ (task_stage stage <> Some 2 -> result_of chk = Ok tt ->
        has_stale T (trace_of p1) ->
        result_of p1 = Ok Returned
        /\ trace_of run = trace_of chk ++ trace_of p1
        /\ result_of run = Ok tt
        /\ forall c r, ~ In (EvSearch (search_url q2 c) r) (trace_of run))
    /\ (forall pre c r post,
           trace_of run = pre ++ EvSearch (search_url q2 c) r :: post ->
           forall c' r', ~ In (EvSearch (search_url q1 c') r') post).
Proof.
  intros strftime_date fuel kwargs w T profile since stage q1 q2 chk p1 run
         Hp Hwf.
  assert (Hq : q1 <> q2) by (apply owner_queries_differ, Hp).
  assert (Hq' : q2 <> q1) by congruence.
  destruct (get_owner_via_run strftime_date fuel kwargs w Hp)
    as (Egen & Etr & Eres).
  fold T profile since stage in Egen, Etr, Eres. fold run in Etr, Eres.
  destruct (owner_parts strftime_date fuel kwargs w Hp)
    as (r1 & tr1 & r2 & tr2 & tail & E & Htail & H1 & H2 & R1 & R2 & Hc
        & Ht1 & Ht2).
  fold T profile since stage chk p1 q1 q2 in E, H1, H2, Hc, Ht1, Ht2.
  fold run in E, R1, R2.
  destruct (runner_stream _ _ _ _ _ _ (owner_body_runner T 1) H1)
    as (_ & _ & A3 & _).
  destruct (runner_stream _ _ _ _ _ _ (owner_body_runner T 2) H2)
    as (_ & _ & B3 & _).
  pose proof (check_profile_trace fuel profile w) as Hchk. fold chk in Hchk.
  assert (Hdef : default 1 (task_stage stage) = 1
                 <-> task_stage stage <> Some 2).
  { destruct Hwf as [-> | [-> | ->]]; simpl; split; congruence. }
  assert (Hin2 : forall c r,
             In (EvSearch (search_url q2 c) r) (trace_of run) ->
             In (EvSearch (search_url q2 c) r) tr2).
  { intros c r Hin. rewrite E in Hin.
    apply in_app_or in Hin. destruct Hin as [Hin | Hin];
      [exfalso; eapply check_no_search; eauto|].
    apply in_app_or in Hin. destruct Hin as [Hin | Hin];
      [exfalso; eapply (phase_no_other_query q1 q2); eauto|].
    apply in_app_or in Hin. destruct Hin as [Hin | Hin]; [exact Hin|].
    exfalso; eapply pause_no_search; eauto. }
  split; [exact Hq|]. split; [exact Egen|]. split; [|split; [|split; [|split]]].
  - intros c r Hin. apply Hin2 in Hin.
    assert (Hne : tr2 <> []) by (intros ->; contradiction).
    destruct (Ht2 Hne) as [Hok [[Hd _] | [Hd [Hp1 _]]]].
    + split; [exact Hok|]. left.
      destruct Hwf as [Hw | [Hw | Hw]]; rewrite Hw in Hd; simpl in Hd;
        congruence.
    + split; [exact Hok|]. right. split; [apply Hdef, Hd | exact Hp1].
  - intros Hts Hok. rewrite Etr. unfold owner_run. cbv zeta.
    fold chk. rewrite Hok. rewrite Hts. simpl.
    eexists. split; [rewrite <- ?app_assoc; reflexivity|].
    apply emitter_tail_pause.
  - intros Hts Hok Hp1. rewrite Etr. unfold owner_run. cbv zeta.
    fold chk. rewrite Hok. apply Hdef in Hts. rewrite Hts, Z.eqb_refl.
    fold p1. rewrite Hp1. rewrite trace_of_after, trace_of_finish.
    eexists. split; [rewrite <- ?app_assoc; reflexivity|].
    apply emitter_tail_pause.
  - intros Hts Hok Hst.
    pose proof (Stream_search q1 (owner_body T 1) fuel stage (world_of chk))
      as Hs1.
    fold (owner_phase_1 fuel profile since T stage (world_of chk)) in Hs1.
    fold p1 in Hs1.
    destruct (runner_stream _ _ _ _ _ _ (owner_body_runner T 1) Hs1)
      as (_ & _ & P3 & P4).
    apply P4 in Hst. change (result_of p1 = Ok Returned) in Hst.
    assert (Erun : owner_run fuel profile since T stage w
                   = after (trace_of chk) (finish p1)).
    { unfold owner_run. cbv zeta. fold chk. rewrite Hok.
      apply Hdef in Hts. rewrite Hts, Z.eqb_refl. fold p1. rewrite Hst.
      reflexivity. }
    rewrite Erun in Etr, Eres.
    rewrite trace_of_after, result_of_after in Etr.
    rewrite result_of_after in Eres.
    destruct (finish_parts p1) as [F1 [_ F3]].
    rewrite F1, (F3 _ Hst) in Etr. rewrite (F3 _ Hst) in Eres.
    simpl in Etr. rewrite !app_nil_r in Etr.
    split; [exact Hst|]. split; [exact Etr|]. split; [exact Eres|].
    intros c r Hin. rewrite Etr in Hin.
    apply in_app_or in Hin. destruct Hin as [Hin | Hin].
    + eapply check_no_search; eauto.
    + eapply (phase_no_other_query q1 q2); eauto.
  - intros pre c r post Ew c' r' Hin.
    assert (Hx : In (EvSearch (search_url q2 c) r) (trace_of run))
      by (rewrite Ew; apply in_elt).
    rewrite E in Ew. rewrite app_assoc in Ew.
    destruct (app_split_right _ _ _ _ _ Ew) as [l El].
    { intros Hi. apply in_app_or in Hi. destruct Hi as [Hi | Hi].
      - eapply check_no_search; eauto.
      - eapply (phase_no_other_query q1 q2); eauto. }
    assert (Hin' : In (EvSearch (search_url q1 c') r') (tr2 ++ tail)).
    { rewrite El. apply in_or_app. right. right. exact Hin. }
    apply in_app_or in Hin'. destruct Hin' as [Hi | Hi].
    + eapply (phase_no_other_query q2 q1); eauto.
    + eapply pause_no_search; eauto.
Qed.

(** The order of the phases at work: a fresh owner crawl of "bob" asks for
    the posts from "bob", then for the replies to "bob", and for nothing of
    phase 1 after that. *)
Lemma owner_phase_order_witness :
  nonempty "bob" = true
  /\ (task_stage empty_stage = None \/ task_stage empty_stage = Some 1
      \/ task_stage empty_stage = Some 2)
  /\ owner_query "bob" false "2019-01-01"
     <> owner_query "bob" true "2019-01-01"
  /\ requests_of
       (trace_of (get_owner one_day 5 (a_task empty_stage) two_phase_world))
     = [search_url "from:bob since:2019-01-01" "";
        search_url "to:bob filter:replies since:2019-01-01" ""]
  /\ (forall pre c r post,
         trace_of (get_owner one_day 5 (a_task empty_stage) two_phase_world)
         = pre ++ EvSearch (search_url (owner_query "bob" true "2019-01-01")
                                       c) r :: post ->
         forall c' r',
           ~ In (EvSearch (search_url (owner_query "bob" false "2019-01-01")
                                      c') r') post).
Proof.
  split; [reflexivity|]. split; [left; reflexivity|].
  destruct (owner_phase_order one_day 5 (a_task empty_stage) two_phase_world
                              eq_refl (or_introl eq_refl))
    as (Hq & _ & _ & _ & _ & _ & Hord).
  split; [exact Hq|]. split; [reflexivity | exact Hord].
Defined.

(** ** The crawl stream, page by page *)

Lemma cursor_of_search_url (query c : string) :
  cursor_of (search_url query c) = c.
Proof.
  unfold cursor_of, search_url. destruct c as [|a c]; reflexivity.
Qed.

(** With a consumer that drains it, the [for] loop yields the unseen posts
    of the page, stamped, and changes nothing but the counter. *)
Lemma for_twits_drain (watermark : Z) (c : string) (twits : list Twit) :
  forall w,
    exists n',
      for_twits watermark c drain twits w
      = (Ok Continue,
         mkWorld n' (clock_ms w) (search_replies w) (profile_replies w),
         map EvYield
             (stamp_all c (self_counter w)
                        (filter (unseen watermark) twits))).
Proof.
  induction twits as [|t rest IH]; intros w.
  - exists (self_counter w). simpl. unfold ret. rewrite <- world_eta.
    reflexivity.
  - rewrite for_twits_cons. unfold unseen at 1. simpl filter.
    rewrite Z.gtb_ltb.
    destruct (TwitStage.last_tweet_pub_time (stage t) <? watermark).
    + cbv zeta. unfold drain at 1. unfold ret at 1. rewrite bind_on_ok.
      rewrite after_nil. unfold and_then.
      destruct (IH (mkWorld (self_counter w + 1) (clock_ms w)
                            (search_replies w) (profile_replies w)))
        as [n' E].
      rewrite E. exists n'. reflexivity.
    + apply IH.
Qed.

(** The fetcher asks for one URL until a page answers. *)
Lemma fetch_shape (fuel : nat) (query c : string) :
  forall w,
    let x := _get_query_response fuel query c w in
    let u := search_url query c in
    (exists pre,
        Forall (is_retry u) pre
        /\ trace_of x
           = pre ++ match result_of x with
                    | Ok j => [EvSearch u (Some (Http 200 j))]
                    | _ => []
                    end)
    /\ (forall j, result_of x = Ok j ->
                  (List.length (search_replies (world_of x))
                   < List.length (search_replies w))%nat)
    /\ ((1 <= fuel)%nat -> exists r tl, trace_of x = EvSearch u r :: tl).
Proof.
  induction fuel as [|fuel IH]; intros w x u.
  - subst x. simpl. split; [exists []; split; [constructor | reflexivity]|].
    split; [discriminate | lia].
  - subst x. rewrite (world_eta w). rewrite fetch_unfold. cbv zeta.
    fold u. cbn [search_replies mkWorld].
    destruct (search_replies w) as [|[status body| |] rest];
      cbn [result_of world_of trace_of fst snd].
    + split; [exists [EvSearch u None]; split;
              [repeat constructor | reflexivity]|].
      split; [discriminate | intros _; eauto].
    + unfold classify.
      destruct (status =? 200) eqn:H200.
      { apply Z.eqb_eq in H200. subst status.
        cbn [result_of world_of trace_of fst snd].
        split; [exists []; split; [constructor | reflexivity]|].
        split; [intros j _; simpl; lia | intros _; eauto]. }
      assert (Hq : is_retry u (EvSearch u (Some (Http status body))))
        by (simpl; rewrite H200; auto).
      destruct (status =? 503).
      { destruct (IH (mkWorld (self_counter w) (clock_ms w) rest
                              (profile_replies w)))
          as [[pre [Hpre E]] [Hlen _]].
        cbn [search_replies mkWorld] in Hlen.
        rewrite result_of_after, world_of_after, trace_of_after.
        split; [|split].
        - exists (EvSearch u (Some (Http status body)) :: pre).
          split; [constructor; assumption|]. rewrite E. reflexivity.
        - intros j Hj. specialize (Hlen j Hj). cbn [List.length]. lia.
        - intros _. simpl. eauto. }
      destruct ((status =? 429) || (500 <=? status) && (status <=? 526)).
      { destruct (IH (mkWorld (self_counter w)
                              (clock_ms w + 1000 * RESPONSE_DELAY) rest
                              (profile_replies w)))
          as [[pre [Hpre E]] [Hlen _]].
        cbn [search_replies mkWorld] in Hlen.
        rewrite result_of_after, world_of_after, trace_of_after.
        split; [|split].
        - exists (EvSearch u (Some (Http status body))
                    :: EvSleep RESPONSE_DELAY :: pre).
          split; [repeat (constructor; try assumption); exact I|].
          rewrite E. reflexivity.
        - intros j Hj. specialize (Hlen j Hj). cbn [List.length]. lia.
        - intros _. simpl. eauto. }
      cbn [result_of world_of trace_of fst snd].
      split; [exists [EvSearch u (Some (Http status body))]; split;
              [repeat constructor; assumption | reflexivity]|].
      split; [discriminate | intros _; eauto].
    + split; [exists [EvSearch u (Some TimeoutFault)]; split;
              [repeat constructor | reflexivity]|].
      split; [discriminate | intros _; eauto].
    + split; [exists [EvSearch u (Some ClientFault)]; split;
              [repeat constructor | reflexivity]|].
      split; [discriminate | intros _; eauto].
Qed.

Lemma pages_of_retry (u : Url) (pre tr : Trace) :
  Forall (is_retry u) pre -> pages_of (pre ++ tr) = pages_of tr.
Proof.
  induction 1 as [|e pre He H IH]; [reflexivity|].
  destruct e; simpl in *; try contradiction; auto.
  destruct He as [_ He]. destruct r as [[status j| |]|]; auto.
  simpl in He. rewrite He. exact IH.
Qed.

Lemma next_requests_retry (u : Url) (pre tr : Trace) :
  Forall (is_retry u) pre ->
  Forall (fun u' => u' = u) (next_requests tr) ->
  Forall (fun u' => u' = u) (next_requests (pre ++ tr)).
Proof.
  intros H Htr. induction H as [|e pre He H IH]; [exact Htr|].
  destruct e; simpl in *; try contradiction; auto.
  destruct He as [-> He]. rewrite He. constructor; auto.
Qed.

Lemma yields_of_map (l : list Twit) (tr : Trace) :
  yields_of (map EvYield l ++ tr) = l ++ yields_of tr.
Proof. induction l; simpl; congruence. Qed.

Lemma pages_of_map (l : list Twit) (tr : Trace) :
  pages_of (map EvYield l ++ tr) = pages_of tr.
Proof. induction l; simpl; congruence. Qed.

Lemma next_requests_map (l : list Twit) (tr : Trace) :
  next_requests (map EvYield l ++ tr) = next_requests tr.
Proof. induction l; simpl; congruence. Qed.

(** The trace of the fetcher followed by [rest], as the page functions see
    it. *)
Lemma fetch_then (fuel : nat) (query c : string) (w : World) (rest : Trace) :
  let x := _get_query_response fuel query c w in
  let u := search_url query c in
  (forall j, result_of x = Ok j ->
     pages_of (trace_of x ++ rest)
     = {| pg_url := u; pg_json := j; pg_yield := yields_of rest;
          pg_next := next_requests rest |} :: pages_of rest)
  /\ ((forall j, result_of x <> Ok j) ->
      pages_of (trace_of x) = [])
  /\ (forall j, result_of x = Ok j ->
        Forall (fun u' => u' = u) (next_requests (trace_of x ++ rest)))
  /\ Forall (fun u' => u' = u) (next_requests (trace_of x))
  /\ yields_of (trace_of x) = []
  /\ (forall j, result_of x = Ok j -> yields_of (trace_of x ++ rest) = []).
Proof.
  intros x u.
  destruct (fetch_shape fuel query c w) as [[pre [Hpre E]] [_ Hhead]].
  fold x u in E, Hhead.
  assert (Hnil : pages_of pre = []).
  { rewrite <- (app_nil_r pre).
    rewrite (pages_of_retry u pre [] Hpre). reflexivity. }
  assert (Hnext : Forall (fun u' => u' = u) (next_requests pre)).
  { rewrite <- (app_nil_r pre). apply next_requests_retry; [exact Hpre|].
    constructor. }
  assert (Hy : yields_of (trace_of x) = []).
  { destruct fuel as [|fuel]; [reflexivity|].
    destruct Hhead as [r [tl ->]]; [lia | reflexivity]. }
  split; [|split; [|split; [|split; [|split]]]].
  - intros j Hj. rewrite E, Hj. rewrite <- app_assoc.
    rewrite (pages_of_retry u _ _ Hpre). simpl. reflexivity.
  - intros Hj. rewrite E.
    destruct (result_of x) as [j'|e|]; rewrite ?app_nil_r; auto.
    exfalso. apply (Hj j'). reflexivity.
  - intros j Hj. rewrite E, Hj. rewrite <- app_assoc.
    apply next_requests_retry; [exact Hpre|]. simpl. repeat constructor.
  - rewrite E. apply next_requests_retry; [exact Hpre|].
    destruct (result_of x); simpl; repeat constructor.
  - exact Hy.
  - intros j Hj. rewrite E, Hj. rewrite <- app_assoc.
    destruct Hpre as [|e pre He Hpre]; [reflexivity|].
    destruct e; simpl in He; try contradiction; reflexivity.
Qed.

(** One round of the [while] loop with a consumer that drains the
    stream. *)
Lemma paginate_round (fuel : nat) (query : string) (watermark first_id : Z)
      (response : Json) (first : Twit) (rest : list Twit) (w : World) :
  paginate (S fuel) query watermark first_id response (first :: rest)
           drain w
  = let c := cursor_after first_id response (first :: rest) in
    bind_on (_get_query_response fuel query c w)
      (fun response' w1 =>
         match items_html response' with
         | None => (Raise (ApiError InternalResponseError), w1, [])
         | Some twits' =>
             bind_on (for_twits watermark c drain twits' w1)
               (and_then (paginate fuel query watermark first_id
                                   response' twits' drain))
         end).
Proof.
  cbn [paginate]. rewrite bind_run. cbv zeta.
  change (default (tweet_position (id (item (last (first :: rest) first)))
                                  first_id)
                  (min_position response))
    with (cursor_after first_id response (first :: rest)).
  destruct (_get_query_response fuel query _ w) as [[rx wx] tx].
  destruct rx as [j|e|]; try reflexivity.
  cbn [bind_on]. f_equal. rewrite bind_run. unfold parse_tweets.
  destruct (items_html j) as [twits'|]; [|reflexivity].
  unfold ret at 1. rewrite bind_on_ok, after_nil. rewrite bind_run.
  reflexivity.
Qed.

Lemma page_ok_no_body (query c : string) (watermark first_id : Z)
      (j : Json) :
  items_html j = None ->
  page_ok query watermark first_id
          {| pg_url := search_url query c; pg_json := j;
             pg_yield := []; pg_next := [] |}.
Proof.
  intros Hj. unfold page_ok, yields_unseen, next_with, pg_twits; simpl.
  rewrite Hj. simpl. repeat split; eauto; try (exists 0; reflexivity).
Qed.

Lemma paginate_pages (query : string) (watermark first_id : Z)
      (fuel : nat) :
  forall (response : Json) (twits : list Twit) (w : World),
    let tr := trace_of (paginate fuel query watermark first_id response
                                 twits drain w) in
    Forall (page_ok query watermark first_id) (pages_of tr)
    /\ yields_of tr = []
    /\ Forall (fun u => u = search_url query
                                       (cursor_after first_id response twits))
              (next_requests tr)
    /\ (twits = [] -> tr = [])
    /\ ((List.length (search_replies w) + 2 <= fuel)%nat ->
        (twits <> [] -> next_requests tr <> [])
        /\ Forall advances (pages_of tr)).
Proof.
  induction fuel as [|fuel IH]; intros response twits w tr.
  - assert (E : tr = []) by (subst tr; destruct twits; reflexivity).
    rewrite E. simpl. repeat split; auto; lia.
  - destruct twits as [|first rest].
    + subst tr. simpl. repeat split; auto; try constructor; congruence.
    + subst tr. rewrite paginate_round. cbv zeta.
      set (c := cursor_after first_id response (first :: rest)).
      pose proof (fun tl => fetch_then fuel query c w tl) as Hf.
      destruct (fetch_shape fuel query c w) as [_ [Hlen Hhead]].
      cbv zeta in Hf, Hlen, Hhead.
      destruct (_get_query_response fuel query c w) as [[rx wx] tx].
      cbn [result_of world_of trace_of fst snd] in Hf, Hlen, Hhead.
      destruct rx as [j|e|].
      * cbn [bind_on]. rewrite trace_of_after.
        specialize (Hlen j eq_refl).
        destruct (items_html j) as [twits'|] eqn:Ej.
        -- destruct (for_twits_drain watermark c twits' wx) as [n' Ed].
           rewrite Ed. rewrite bind_on_ok. unfold and_then.
           rewrite trace_of_after.
           set (w2 := mkWorld n' (clock_ms wx) (search_replies wx)
                              (profile_replies wx)).
           destruct (IH j twits' w2) as (I1 & I2 & I3 & I4 & I5).
           set (ptr := trace_of (paginate fuel query watermark first_id j
                                          twits' drain w2)) in *.
           destruct (Hf (map EvYield
                             (stamp_all c (self_counter wx)
                                        (filter (unseen watermark) twits'))
                         ++ ptr)) as (F1 & _ & F3 & _ & F5 & F6).
           rewrite (F1 j eq_refl).
           rewrite yields_of_map, pages_of_map, next_requests_map, I2,
             app_nil_r.
           split; [|split; [|split; [|split]]].
           ++ constructor; [|exact I1].
              unfold page_ok, yields_unseen, next_with, pg_twits; simpl.
              rewrite Ej, cursor_of_search_url. simpl.
              repeat split; eauto.
              intros ->. rewrite (I4 eq_refl). reflexivity.
           ++ apply (F6 j eq_refl).
           ++ apply (F3 j eq_refl).
           ++ discriminate.
           ++ intros Hfuel. split.
              ** intros _. destruct Hhead as [r [tl ->]]; [lia|].
                 simpl. discriminate.
              ** destruct I5 as [I5 I6]; [subst w2; simpl; lia|].
                 constructor; [|exact I6].
                 unfold advances, pg_twits; simpl. rewrite Ej. simpl.
                 exact I5.
        -- cbn [trace_of snd]. rewrite app_nil_r.
           destruct (Hf []) as (F1 & _ & F3 & _ & F5 & _).
           rewrite app_nil_r in F1, F3. rewrite (F1 j eq_refl). simpl.
           split; [|split; [|split; [|split]]].
           ++ constructor; [|constructor].
              apply page_ok_no_body, Ej.
           ++ exact F5.
           ++ apply (F3 j eq_refl).
           ++ discriminate.
           ++ intros Hfuel. split.
              ** intros _. destruct Hhead as [r [tl ->]]; [lia|].
                 simpl. discriminate.
              ** constructor; [|constructor].
                 unfold advances, pg_twits; simpl. rewrite Ej. simpl.
                 congruence.
      * cbn [bind_on trace_of snd].
        destruct (Hf []) as (_ & F2 & _ & F4 & F5 & _).
        rewrite F2 by discriminate.
        split; [constructor|]. split; [exact F5|]. split; [exact F4|].
        split; [discriminate|]. intros Hfuel. split; [|constructor].
        intros _. destruct Hhead as [r [tl ->]]; [lia|]. simpl. discriminate.
      * cbn [bind_on trace_of snd].
        destruct (Hf []) as (_ & F2 & _ & F4 & F5 & _).
        rewrite F2 by discriminate.
        split; [constructor|]. split; [exact F5|]. split; [exact F4|].
        split; [discriminate|]. intros Hfuel. split; [|constructor].
        intros _. destruct Hhead as [r [tl ->]]; [lia|]. simpl. discriminate.
Qed.

(** [_search] with a consumer that drains the stream. *)
Lemma search_drain_run (fuel : nat) (query : string) (stage : Stage)
      (w : World) :
  _search fuel query stage drain w
  = let c0 := default "" (max_position stage) in
    let watermark := watermark_of stage w in
    let w0 := mkWorld (default 0 (counter stage)) (clock_ms w)
                      (search_replies w) (profile_replies w) in
    bind_on (_get_query_response fuel query c0 w0)
      (fun response w1 =>
         match items_html response with
         | None => (Raise (ApiError InternalResponseError), w1, [])
         | Some [] => (Ok Continue, w1, [])
         | Some (first :: rest) =>
             let last := negb (default false (has_more_items response)) in
             if nonempty c0 || last then
               bind_on (for_twits watermark c0 drain (first :: rest) w1)
                 (and_then
                    (if last then ret Continue
                     else paginate fuel query watermark (id (item first))
                                   response (first :: rest) drain))
             else paginate fuel query watermark (id (item first))
                           response (first :: rest) drain w1
         end).
Proof.
  unfold _search. cbv zeta. rewrite bind_run.
  unfold set_counter at 1. rewrite bind_on_ok, after_nil.
  rewrite bind_run. unfold time_now_ms at 1. rewrite bind_on_ok, after_nil.
  cbn [clock_ms]. fold (watermark_of stage w).
  rewrite bind_run.
  fold (mkWorld (default 0 (counter stage)) (clock_ms w) (search_replies w)
                (profile_replies w)).
  destruct (_get_query_response fuel query _ _) as [[rx wx] tx].
  destruct rx as [j|e|]; try reflexivity.
  cbn [bind_on]. f_equal. rewrite bind_run. unfold parse_tweets.
  destruct (items_html j) as [twits|]; [|reflexivity].
  unfold ret at 1. rewrite bind_on_ok, after_nil.
  destruct twits as [|first rest]; [reflexivity|].
  destruct (nonempty (default "" (max_position stage))
            || negb (default false (has_more_items j))); [|reflexivity].
  rewrite bind_run. reflexivity.
Qed.

(** The pages of every invocation of the stream are as [pages_ok] says. *)
Lemma search_pages (fuel : nat) (query : string) (stage : Stage)
      (w : World) :
  pages_ok query (default "" (max_position stage)) (watermark_of stage w)
           ((List.length (search_replies w) + 2 <= fuel)%nat)
           (pages_of (trace_of (_search fuel query stage drain w))).
Proof.
  rewrite search_drain_run. cbv zeta.
  set (c0 := default "" (max_position stage)).
  set (wm := watermark_of stage w).
  set (w0 := mkWorld (default 0 (counter stage)) (clock_ms w)
                     (search_replies w) (profile_replies w)).
  pose proof (fun tl => fetch_then fuel query c0 w0 tl) as Hf.
  destruct (fetch_shape fuel query c0 w0) as [_ [Hlen _]].
  cbv zeta in Hf, Hlen.
  destruct (_get_query_response fuel query c0 w0) as [[rx wx] tx].
  cbn [result_of world_of trace_of fst snd] in Hf, Hlen.
  destruct rx as [j|e|].
  2:{ cbn [bind_on trace_of snd].
      destruct (Hf []) as (_ & F2 & _). rewrite F2 by discriminate.
      exact I. }
  2:{ cbn [bind_on trace_of snd].
      destruct (Hf []) as (_ & F2 & _). rewrite F2 by discriminate.
      exact I. }
  cbn [bind_on]. rewrite trace_of_after.
  specialize (Hlen j eq_refl). subst w0. cbn [search_replies mkWorld] in Hlen.
  destruct (items_html j) as [[|first rest]|] eqn:Ej.
  - (* a page without posts *)
    cbn [trace_of snd]. destruct (Hf []) as (F1 & _).
    rewrite (F1 j eq_refl). simpl.
    unfold emission_rule_stated, yields_unseen, next_with, pg_twits,
      pg_last; simpl. rewrite Ej. simpl.
    repeat split; auto; try constructor; try congruence.
    + destruct (gate _); [exists 0; reflexivity | reflexivity].
    + destruct (negb _); [reflexivity | constructor].
  - (* a page with posts *)
    destruct (nonempty c0 || negb (default false (has_more_items j)))
      eqn:Hgate.
    + destruct (for_twits_drain wm c0 (first :: rest) wx) as [n' Ed].
      rewrite Ed. rewrite bind_on_ok. rewrite trace_of_after.
      set (w2 := mkWorld n' (clock_ms wx) (search_replies wx)
                         (profile_replies wx)).
      set (ys := stamp_all c0 (self_counter wx)
                           (filter (unseen wm) (first :: rest))).
      destruct (negb (default false (has_more_items j))) eqn:Hlast.
      * unfold and_then. cbn [ret trace_of snd]. rewrite app_nil_r.
        destruct (Hf (map EvYield ys)) as (F1 & _).
        rewrite (F1 j eq_refl).
        rewrite <- (app_nil_r (map EvYield ys)).
        rewrite yields_of_map, pages_of_map, next_requests_map.
        simpl. rewrite app_nil_r.
        unfold emission_rule_stated, gate, yields_unseen, next_with,
          pg_twits, pg_last; simpl.
        rewrite Ej, cursor_of_search_url, Hlast. simpl.
        rewrite orb_true_r.
        repeat split; auto; try constructor; try congruence.
        exists (self_counter wx). reflexivity.
      * unfold and_then.
        destruct (paginate_pages query wm (id (item first)) fuel j
                                 (first :: rest) w2)
          as (I1 & I2 & I3 & I4 & I5).
        set (ptr := trace_of (paginate fuel query wm (id (item first)) j
                                       (first :: rest) drain w2)) in *.
        destruct (Hf (map EvYield ys ++ ptr)) as (F1 & _).
        rewrite (F1 j eq_refl).
        rewrite yields_of_map, pages_of_map, next_requests_map, I2,
          app_nil_r.
        unfold pages_ok, emission_rule_stated, gate, yields_unseen,
          next_with, pg_twits, pg_last; simpl.
        rewrite Ej, cursor_of_search_url, Hlast. simpl.
        rewrite orb_false_r in Hgate. rewrite Hgate. simpl.
        split; [reflexivity|].
        split; [exists (self_counter wx); reflexivity|].
        split; [exact I3|]. split; [congruence|]. split; [exact I1|].
        intros Hfuel. destruct I5 as [I5 I6]; [subst w2; simpl; lia|].
        split; [intros _ _; apply I5; discriminate | exact I6].
    + apply orb_false_iff in Hgate. destruct Hgate as [Hc0 Hlast].
      destruct (paginate_pages query wm (id (item first)) fuel j
                               (first :: rest) wx)
        as (I1 & I2 & I3 & I4 & I5).
      set (ptr := trace_of (paginate fuel query wm (id (item first)) j
                                     (first :: rest) drain wx)) in *.
      destruct (Hf ptr) as (F1 & _).
      rewrite (F1 j eq_refl). rewrite I2.
      unfold pages_ok, emission_rule_stated, gate, yields_unseen,
        next_with, pg_twits, pg_last; simpl.
      rewrite Ej, cursor_of_search_url, Hlast, Hc0. simpl.
      split; [reflexivity|]. split; [reflexivity|].
      split; [exact I3|]. split; [congruence|]. split; [exact I1|].
      intros Hfuel. destruct I5 as [I5 I6]; [lia|].
      split; [intros _ _; apply I5; discriminate | exact I6].
  - (* no markup in the body *)
    cbn [trace_of snd]. destruct (Hf []) as (F1 & _).
    rewrite (F1 j eq_refl). simpl.
    unfold emission_rule_stated, yields_unseen, next_with, pg_twits,
      pg_last; simpl. rewrite Ej. simpl.
    repeat split; auto; try constructor; try congruence.
    + destruct (gate _); [exists 0; reflexivity | reflexivity].
    + destruct (negb _); [reflexivity | constructor].
Qed.

(** ** Which posts of a page are yielded *)

Lemma In_stamp_all (c : string) (l : list Twit) :
  forall (n : Z) (y : Twit),
    In y (stamp_all c n l) -> exists t k, In t l /\ y = stamp t k c.
Proof.
  induction l as [|t l IH]; intros n y H; [contradiction|].
  destruct H as [<- | H].
  - exists t, (n + 1). split; [left; reflexivity | reflexivity].
  - destruct (IH _ _ H) as [t' [k [Hin E]]]. exists t', k.
    split; [right; exact Hin | exact E].
Qed.

Lemma stamp_all_In (c : string) (l : list Twit) (t : Twit) :
  forall n : Z, In t l -> exists k, In (stamp t k c) (stamp_all c n l).
Proof.
  induction l as [|t' l IH]; intros n H; [contradiction|].
  destruct H as [-> | H].
  - exists (n + 1). left. reflexivity.
  - destruct (IH (n + 1) H) as [k Hk]. exists k. right. exact Hk.
Qed.

Lemma stamp_keeps (t t' : Twit) (n k : Z) (c : string) :
  stamp t n c = stamp t' k c ->
  item t = item t'
  /\ TwitStage.last_tweet_pub_time (stage t)
     = TwitStage.last_tweet_pub_time (stage t').
Proof. unfold stamp. intros E. injection E as E1 E2 _. auto. Qed.

(** On a page that yields its unseen posts, a post is yielded if and only if
    it was published before the watermark. *)
Lemma yields_unseen_iff (watermark : Z) (p : Page) :
  yields_unseen watermark p ->
  forall t,
    In t (pg_twits p) ->
    (emitted p t
     <-> TwitStage.last_tweet_pub_time (stage t) < watermark).
Proof.
  intros [n Hy] t Hin. unfold emitted. rewrite Hy. split.
  - intros [k Hk]. apply In_stamp_all in Hk.
    destruct Hk as [t' [k' [Hin' E]]].
    apply filter_In in Hin'. destruct Hin' as [_ Hu].
    apply stamp_keeps in E. destruct E as [_ E]. rewrite E.
    apply Z.ltb_lt. exact Hu.
  - intros Hlt. apply stamp_all_In. apply filter_In.
    split; [exact Hin|]. apply Z.ltb_lt. exact Hlt.
Qed.

(** What a page yields are posts of the page from before the watermark,
    each with its own publication time in its checkpoint. *)
Lemma yields_unseen_own (watermark : Z) (p : Page) :
  yields_unseen watermark p ->
  Forall (fun y =>
            TwitStage.last_tweet_pub_time (stage y) < watermark
            /\ exists t,
                In t (pg_twits p) /\ item y = item t
                /\ TwitStage.last_tweet_pub_time (stage y)
                   = TwitStage.last_tweet_pub_time (stage t))
         (pg_yield p).
Proof.
  intros [n Hy]. rewrite Hy. apply Forall_forall. intros y Hin.
  apply In_stamp_all in Hin. destruct Hin as [t [k [Hin ->]]].
  apply filter_In in Hin. destruct Hin as [Hin Hu]. simpl. split.
  - apply Z.ltb_lt. exact Hu.
  - exists t. auto.
Qed.

(** C2, as it is worded, fails: when the first page has more items and its
    body gives an empty [min_position], the second page is fetched with an
    empty cursor, reports more items, and its post is emitted all the
    same. *)
Lemma ungated_page_emits :
  exists p t,
    In p (pages_of (trace_of (_search 5 "cats" empty_stage drain
                                      empty_position_world)))
    /\ In t (pg_twits p)
    /\ emitted p t
    /\ cursor_of (pg_url p) = ""
    /\ pg_last p = false
    /\ gate p = false.
Proof.
  exists {| pg_url := search_url "cats" "";
            pg_json := {| items_html := Some [post 7 70 70000];
                          has_more_items := Some true;
                          min_position := None |};
            pg_yield := [stamp (post 7 70 70000) 1 ""];
            pg_next := [search_url "cats" (tweet_position 7 9)] |},
         (post 7 70 70000).
  split; [vm_compute; right; left; reflexivity|].
  split; [left; reflexivity|].
  split; [exists 1; left; reflexivity|].
  repeat split.
Qed.

(** C2, amended: in every invocation of the crawl stream the first page is
    fetched at the cursor of the checkpoint, and a post of a page is yielded
    if and only if (a) the page is not the first page of the invocation, or
    it was fetched with a non-empty cursor, or it is the last page of the
    source ([has_more_items] false), and (b) the publication time of the
    post in milliseconds is strictly less than the watermark, which is the
    [last_tweet_pub_time] of the checkpoint or, without one, the time in
    milliseconds at the start.  In particular a first page fetched with an
    empty cursor that reports more items yields nothing. *)
Theorem emission_rule :
  forall (fuel : nat) (query : string) (stage0 : Stage) (w : World),
    let watermark := watermark_of stage0 w in
    match pages_of (trace_of (_search fuel query stage0 drain w)) with
    | [] => True
    | p0 :: ps =>
        cursor_of (pg_url p0) = default "" (max_position stage0)
        /\ (forall t,
               In t (pg_twits p0) ->
               (emitted p0 t
                <-> gate p0 = true
                    /\ TwitStage.last_tweet_pub_time (stage t) < watermark))
        /\ (gate p0 = false -> pg_yield p0 = [])
        /\ (gate p0 = true -> yields_unseen watermark p0)
        /\ Forall (fun p =>
                     yields_unseen watermark p
                     /\ forall t,
                         In t (pg_twits p) ->
                         (emitted p t
                          <-> TwitStage.last_tweet_pub_time (stage t)
                              < watermark))
                  ps
    end.
Proof.
  intros fuel query stage0 w watermark.
  pose proof (search_pages fuel query stage0 w) as H.
  fold watermark in H.
  destruct (pages_of (trace_of (_search fuel query stage0 drain w)))
    as [|p0 ps]; [exact I|].
  destruct H as (Hurl & Hrule & _ & _ & Hps & _).
  unfold emission_rule_stated in Hrule.
  split; [rewrite Hurl; apply cursor_of_search_url|].
  split; [|split; [|split]].
  - intros t Hin. destruct (gate p0).
    + rewrite (yields_unseen_iff _ _ Hrule t Hin). tauto.
    + unfold emitted. rewrite Hrule. split.
      * intros [n []].
      * intros [Hf _]. discriminate.
  - intros Hg. rewrite Hg in Hrule. exact Hrule.
  - intros Hg. rewrite Hg in Hrule. exact Hrule.
  - eapply Forall_impl; [|exact Hps]. intros p (_ & Hy & _).
    split; [exact Hy | apply yields_unseen_iff, Hy].
Qed.

(** After a first page with posts that is not the last page of the source
    the stream fetches the next page, and this page is a page of the run. *)
Lemma search_second_page (fuel : nat) (query : string) (stage0 : Stage)
      (w : World) (j0 j1 : Json) (rest : list (Reply Json))
      (first : Twit) (more : list Twit) :
  search_replies w = Http 200 j0 :: Http 200 j1 :: rest ->
  items_html j0 = Some (first :: more) ->
  has_more_items j0 = Some true ->
  exists p0 p1 ps,
    pages_of (trace_of (_search (S (S fuel)) query stage0 drain w))
    = p0 :: p1 :: ps
    /\ pg_json p0 = j0 /\ pg_json p1 = j1.
Proof.
  intros Hw H0 Hm. rewrite search_drain_run. cbv zeta. rewrite Hw.
  rewrite fetch_unfold. cbv zeta.
  change (classify 200) with ReturnBody. cbv iota.
  rewrite bind_on_ok, H0, Hm. cbn [default negb]. rewrite orb_false_r.
  set (c0 := default "" (max_position stage0)).
  set (wm := watermark_of stage0 w).
  assert (Hp : forall w1 : World,
             search_replies w1 = Http 200 j1 :: rest ->
             exists p1 ps,
               pages_of (trace_of (paginate (S (S fuel)) query wm
                                            (id (item first)) j0
                                            (first :: more) drain w1))
               = p1 :: ps
               /\ pg_json p1 = j1).
  { intros w1 H1. rewrite paginate_round. cbv zeta.
    rewrite (world_eta w1), H1. rewrite fetch_unfold. cbv zeta.
    change (classify 200) with ReturnBody. cbv iota.
    rewrite bind_on_ok, trace_of_after. cbn [pages_of app].
    change (200 =? 200) with true. cbv iota. eauto. }
  destruct (nonempty c0).
  - match goal with
    | |- context [for_twits wm c0 drain (first :: more) ?w1] =>
        destruct (for_twits_drain wm c0 (first :: more) w1) as [n' E];
        rewrite E
    end.
    rewrite bind_on_ok. cbn [and_then]. rewrite !trace_of_after.
    cbn [pages_of app]. change (200 =? 200) with true. cbv iota.
    rewrite pages_of_map.
    match goal with
    | |- context [paginate _ _ _ _ _ _ _ ?w1] =>
        destruct (Hp w1 eq_refl) as (p1 & ps & -> & E1)
    end.
    eauto 7.
  - rewrite trace_of_after. cbn [pages_of app].
    change (200 =? 200) with true. cbv iota.
    match goal with
    | |- context [paginate _ _ _ _ _ _ _ ?w1] =>
        destruct (Hp w1 eq_refl) as (p1 & ps & -> & E1)
    end.
    eauto 7.
Qed.

(** C9: within one invocation of the crawl stream the watermark is the one
    value taken from the checkpoint (or the clock) at the start, and every
    post of every page is compared with it.  Every page after the first
    yields exactly its posts published before that value, in the order of
    the page, whatever was yielded before and whatever pauses have moved
    the clock: a post of such a page is yielded if and only if it was
    published before the initial value.  The first page does the same when
    its gate is open and yields nothing otherwise.  On every page a yielded
    post was published before that value, a page that yields anything
    yields all its posts published before it, and the checkpoint of a
    yielded post carries the publication time of that post.  And the
    pages after the first are reached: when the source answers with a
    first page that has posts and says that there are more, and then with
    a second page, the second page is a page of the run and is filtered by
    the initial value. *)
Theorem watermark_is_fixed :
  forall (fuel : nat) (query : string) (stage0 : Stage) (w : World),
    let watermark := watermark_of stage0 w in
    let pages := pages_of (trace_of (_search fuel query stage0 drain w)) in
    match pages with
    | [] => True
    | p0 :: ps =>
        (if gate p0 then yields_unseen watermark p0 else pg_yield p0 = [])
        /\ Forall (fun p =>
                     yields_unseen watermark p
                     /\ forall t,
                         In t (pg_twits p) ->
                         (emitted p t
                          <-> TwitStage.last_tweet_pub_time (stage t)
                              < watermark))
                  ps
    end
    /\ Forall (fun p =>
                 Forall (fun y =>
                           TwitStage.last_tweet_pub_time (stage y)
                           < watermark
                           /\ exists t,
                               In t (pg_twits p) /\ item y = item t
                               /\ TwitStage.last_tweet_pub_time (stage y)
                                  = TwitStage.last_tweet_pub_time (stage t))
                        (pg_yield p)
                 /\ (pg_yield p <> [] ->
                     forall t,
                       In t (pg_twits p) ->
                       TwitStage.last_tweet_pub_time (stage t) < watermark ->
                       emitted p t))
              pages
    /\ (forall (fuel' : nat) (j0 j1 : Json) (rest : list (Reply Json))
               (first : Twit) (more : list Twit),
           fuel = S (S fuel') ->
           search_replies w = Http 200 j0 :: Http 200 j1 :: rest ->
           items_html j0 = Some (first :: more) ->
           has_more_items j0 = Some true ->
           exists p0 p1 ps,
             pages = p0 :: p1 :: ps
             /\ pg_json p0 = j0 /\ pg_json p1 = j1
             /\ yields_unseen watermark p1).
Proof.
  intros fuel query stage0 w watermark pages.
  pose proof (search_pages fuel query stage0 w) as H.
  fold watermark in H. fold pages in H.
  assert (Hlater : match pages with
                   | [] => True
                   | _ :: ps => Forall (yields_unseen watermark) ps
                   end).
  { destruct pages as [|p0 ps]; [exact I|].
    destruct H as (_ & _ & _ & _ & Hps & _).
    eapply Forall_impl; [|exact Hps]. intros p (_ & Hy & _). exact Hy. }
  split; [|split].
  - destruct pages as [|p0 ps]; [exact I|].
    destruct H as (_ & Hrule & _). split; [exact Hrule|].
    eapply Forall_impl; [|exact Hlater]. intros p Hy.
    split; [exact Hy | apply yields_unseen_iff, Hy].
  - destruct pages as [|p0 ps]; [constructor|].
    destruct H as (_ & Hrule & _).
    unfold emission_rule_stated in Hrule.
    constructor.
    + destruct (gate p0).
      * split; [apply yields_unseen_own, Hrule|].
        intros _ t Hin Hlt. apply (yields_unseen_iff _ _ Hrule t Hin), Hlt.
      * rewrite Hrule. split; [constructor | congruence].
    + eapply Forall_impl; [|exact Hlater]. intros p Hy.
      split; [apply yields_unseen_own, Hy|].
      intros _ t Hin Hlt. apply (yields_unseen_iff _ _ Hy t Hin), Hlt.
  - intros fuel' j0 j1 rest first more Hf Hw H0 Hm.
    destruct (search_second_page fuel' query stage0 w j0 j1 rest first more
                                 Hw H0 Hm) as (p0 & p1 & ps & E & E0 & E1).
    rewrite <- Hf in E. fold pages in E.
    exists p0, p1, ps. rewrite E in Hlater.
    split; [exact E|]. split; [exact E0|]. split; [exact E1|].
    apply (Forall_inv Hlater).
Qed.

(** A run that resumes at the cursor s with the clock at 100000 and meets
    pages that are not sorted by time: the second page yields its post of
    70000, which is newer than both posts yielded before it, and its post
    of 30000, and not its post of 120000. *)
Lemma watermark_is_fixed_witness :
  exists p0 p1 ps,
    pages_of (trace_of (_search 5 "cats" resumed_stage drain unsorted_world))
    = p0 :: p1 :: ps
    /\ map (fun y => id (item y)) (pg_yield p0) = [9; 8]
    /\ map (fun y => id (item y)) (pg_yield p1) = [7; 5]
    /\ yields_unseen 100000 p1.
Proof.
  destruct (watermark_is_fixed 5 "cats" resumed_stage unsorted_world)
    as (_ & _ & H).
  destruct (H 3%nat _ _ _ _ _ eq_refl eq_refl eq_refl eq_refl)
    as (p0 & p1 & ps & E & _ & _ & Hy).
  exists p0, p1, ps. split; [exact E|].
  vm_compute in E. injection E as <- <- _.
  split; [reflexivity|]. split; [reflexivity | exact Hy].
Defined.

(** ** The cursor from page to page *)

(** What the fetcher does depends on the replies the source holds, not on
    the clock or the counter. *)
Lemma fetch_same (fuel : nat) (query c : string) :
  forall w w',
    search_replies w = search_replies w' ->
    result_of (_get_query_response fuel query c w)
    = result_of (_get_query_response fuel query c w')
    /\ trace_of (_get_query_response fuel query c w)
       = trace_of (_get_query_response fuel query c w')
    /\ search_replies (world_of (_get_query_response fuel query c w))
       = search_replies (world_of (_get_query_response fuel query c w')).
Proof.
  induction fuel as [|fuel IH]; intros w w' E.
  - simpl. auto.
  - rewrite (world_eta w), (world_eta w'). rewrite !fetch_unfold.
    cbv zeta. rewrite <- E.
    destruct (search_replies w) as [|[status body| |] rest];
      try (simpl; auto; fail).
    destruct (classify status);
      rewrite ?result_of_after, ?trace_of_after, ?world_of_after;
      try (simpl; auto; fail).
    + destruct (IH (mkWorld (self_counter w) (clock_ms w) rest
                            (profile_replies w))
                   (mkWorld (self_counter w') (clock_ms w') rest
                            (profile_replies w')) eq_refl)
        as (I1 & I2 & I3).
      rewrite I1, I2, I3. auto.
    + destruct (IH (mkWorld (self_counter w)
                            (clock_ms w + 1000 * RESPONSE_DELAY) rest
                            (profile_replies w))
                   (mkWorld (self_counter w')
                            (clock_ms w' + 1000 * RESPONSE_DELAY) rest
                            (profile_replies w')) eq_refl)
        as (I1 & I2 & I3).
      rewrite I1, I2, I3. auto.
Qed.

Lemma requests_of_map (l : list Twit) (tr : Trace) :
  requests_of (map EvYield l ++ tr) = requests_of tr.
Proof. induction l; simpl; congruence. Qed.

(** The requests of the [while] loop depend on the replies only. *)
Lemma paginate_same (query : string) (first_id : Z) (fuel : nat) :
  forall (response : Json) (twits : list Twit) (wm wm' : Z) (w w' : World),
    search_replies w = search_replies w' ->
    requests_of (trace_of (paginate fuel query wm first_id response twits
                                    drain w))
    = requests_of (trace_of (paginate fuel query wm' first_id response twits
                                      drain w')).
Proof.
  induction fuel as [|fuel IH]; intros response twits wm wm' w w' E.
  - destruct twits; reflexivity.
  - destruct twits as [|first rest]; [reflexivity|].
    rewrite !paginate_round. cbv zeta.
    set (c := cursor_after first_id response (first :: rest)).
    destruct (fetch_same fuel query c w w' E) as (F1 & F2 & F3).
    destruct (_get_query_response fuel query c w) as [[rx wx] tx].
    destruct (_get_query_response fuel query c w') as [[rx' wx'] tx'].
    cbn [result_of world_of trace_of fst snd] in F1, F2, F3.
    subst rx' tx'.
    destruct rx as [j|e|]; try reflexivity.
    cbn [bind_on]. rewrite !trace_of_after, !requests_of_app. f_equal.
    destruct (items_html j) as [twits'|]; [|reflexivity].
    destruct (for_twits_drain wm c twits' wx) as [n Ed].
    destruct (for_twits_drain wm' c twits' wx') as [n' Ed'].
    rewrite Ed, Ed'. rewrite !bind_on_ok. unfold and_then.
    rewrite !trace_of_after, !requests_of_map.
    apply IH. exact F3.
Qed.

(** The requests of an invocation of the stream depend on the query, the
    cursor of the checkpoint and the replies only. *)
Lemma search_same (fuel : nat) (query : string) (stage1 stage2 : Stage)
      (w1 w2 : World) :
  max_position stage1 = max_position stage2 ->
  search_replies w1 = search_replies w2 ->
  requests_of (trace_of (_search fuel query stage1 drain w1))
  = requests_of (trace_of (_search fuel query stage2 drain w2)).
Proof.
  intros Hc E. rewrite !search_drain_run. cbv zeta. rewrite <- Hc.
  set (c0 := default "" (max_position stage1)).
  destruct (fetch_same fuel query c0
              (mkWorld (default 0 (counter stage1)) (clock_ms w1)
                       (search_replies w1) (profile_replies w1))
              (mkWorld (default 0 (counter stage2)) (clock_ms w2)
                       (search_replies w2) (profile_replies w2)) E)
    as (F1 & F2 & F3).
  destruct (_get_query_response fuel query c0
              (mkWorld (default 0 (counter stage1)) (clock_ms w1)
                       (search_replies w1) (profile_replies w1)))
    as [[rx wx] tx].
  destruct (_get_query_response fuel query c0
              (mkWorld (default 0 (counter stage2)) (clock_ms w2)
                       (search_replies w2) (profile_replies w2)))
    as [[rx' wx'] tx'].
  cbn [result_of world_of trace_of fst snd] in F1, F2, F3.
  subst rx' tx'.
  destruct rx as [j|e|]; try reflexivity.
  cbn [bind_on]. rewrite !trace_of_after, !requests_of_app. f_equal.
  destruct (items_html j) as [[|first rest]|]; try reflexivity.
  destruct (nonempty c0 || negb (default false (has_more_items j))).
  - destruct (for_twits_drain (watermark_of stage1 w1) c0 (first :: rest) wx)
      as [n Ed].
    destruct (for_twits_drain (watermark_of stage2 w2) c0 (first :: rest)
                              wx') as [n' Ed'].
    rewrite Ed, Ed'. rewrite !bind_on_ok. unfold and_then.
    rewrite !trace_of_after, !requests_of_map.
    destruct (negb (default false (has_more_items j))); [reflexivity|].
    apply paginate_same. exact F3.
  - apply paginate_same. exact F3.
Qed.

Lemma cursor_after_cases (first_id : Z) (response : Json)
      (twits : list Twit) :
  twits <> [] ->
  cursor_after first_id response twits
  = match min_position response with
    | Some c => c
    | None => tweet_position (last_id_of twits) first_id
    end.
Proof.
  destruct twits as [|first rest]; [congruence|]. intros _.
  unfold cursor_after, last_id_of. destruct (min_position response);
    reflexivity.
Qed.

Lemma next_with_cases (query : string) (first_id : Z) (p : Page) :
  next_with query (cursor_after first_id (pg_json p) (pg_twits p)) p ->
  pg_twits p <> [] ->
  match min_position (pg_json p) with
  | Some c => next_with query c p
  | None =>
      next_with query (tweet_position (last_id_of (pg_twits p)) first_id) p
  end.
Proof.
  intros H Hne. rewrite (cursor_after_cases _ _ _ Hne) in H.
  destruct (min_position (pg_json p)); exact H.
Qed.

(** C4, as it is worded, fails: after a first page with the ids 9 and 8
    and no [min_position] the next request carries the cursor "TWEET-8-9",
    made of the id of the last post of the page and the id of the first
    post of the first page, not "RANGE-8-8". *)
Lemma synthesized_cursor_is_not_the_stated_one :
  exists p0 ps,
    pages_of (trace_of (_search 5 "cats" empty_stage drain
                                no_position_world)) = p0 :: ps
    /\ pg_last p0 = false
    /\ min_position (pg_json p0) = None
    /\ pg_next p0 = [search_url "cats" "TWEET-8-9"]
    /\ cursor_stated (pg_twits p0) (pg_twits p0) = "RANGE-8-8"
    /\ ~ next_with "cats" (cursor_stated (pg_twits p0) (pg_twits p0)) p0.
Proof.
  eexists. eexists. split; [vm_compute; reflexivity|].
  split; [reflexivity|]. split; [reflexivity|]. split; [reflexivity|].
  split; [reflexivity|].
  intros H. inversion H as [|u l Hu Hl]. discriminate Hu.
Qed.

(** C4, amended: in every invocation of the crawl stream, after every page
    with posts after which the stream goes on (the first page when it
    reports more items, every later page) all requests up to the next page
    carry the [min_position] of the page or, when the body has none, the
    cursor "TWEET-{last_id}-{first_id}", where [last_id] is the id of the
    last post of the page and [first_id] the id of the first post of the
    first page of the invocation, the same in every cursor made up in the
    run; with a recursion budget that does not run out such a request is
    made; and the URLs requested depend only on the query, the cursor of the
    checkpoint and the pages that the source holds. *)
Theorem cursor_synthesis :
  forall (fuel : nat) (query : string) (stage0 : Stage) (w : World),
    match pages_of (trace_of (_search fuel query stage0 drain w)) with
    | [] => True
    | p0 :: ps =>
        let first_id := first_id_of (pg_twits p0) in
        (pg_last p0 = false -> pg_twits p0 <> [] ->
         match min_position (pg_json p0) with
         | Some c => next_with query c p0
         | None =>
             next_with query
                       (tweet_position (last_id_of (pg_twits p0)) first_id)
                       p0
         end)
        /\ Forall (fun p =>
                     pg_twits p <> [] ->
                     match min_position (pg_json p) with
                     | Some c => next_with query c p
                     | None =>
                         next_with query
                                   (tweet_position (last_id_of (pg_twits p))
                                                   first_id)
                                   p
                     end)
                  ps
        /\ ((List.length (search_replies w) + 2 <= fuel)%nat ->
            (pg_twits p0 <> [] -> pg_last p0 = false -> pg_next p0 <> [])
            /\ Forall advances ps)
    end
    /\ (forall (stage' : Stage) (w' : World),
           max_position stage' = max_position stage0 ->
           search_replies w' = search_replies w ->
           requests_of (trace_of (_search fuel query stage' drain w'))
           = requests_of (trace_of (_search fuel query stage0 drain w))).
Proof.
  intros fuel query stage0 w. split.
  - pose proof (search_pages fuel query stage0 w) as H.
    destruct (pages_of (trace_of (_search fuel query stage0 drain w)))
      as [|p0 ps]; [exact I|].
    destruct H as (_ & _ & Hnext & _ & Hps & Hadv). cbv zeta.
    split; [|split].
    + intros Hlast Hne. rewrite Hlast in Hnext.
      apply next_with_cases; assumption.
    + eapply Forall_impl; [|exact Hps]. intros p (_ & _ & Hn & _) Hne.
      apply next_with_cases; assumption.
    + exact Hadv.
  - intros stage' w' Hc E. apply search_same; assumption.
Qed.

(** * Further properties of the crawl engine *)

(** ** Invariants of the events of a stream *)

Lemma Emits_bind (P : Event -> Prop) {A B} (m : M A) (k : A -> M B) :
  Emits P m -> (forall a, Emits P (k a)) -> Emits P (bind m k).
Proof.
  intros Hm Hk w. rewrite bind_run. specialize (Hm w).
  destruct (m w) as [[r w1] t1]. simpl in Hm.
  destruct r; simpl; auto. apply Forall_app. split; [exact Hm | apply Hk].
Qed.

Lemma Emits_fetch (P : Event -> Prop) (query c : string) (fuel : nat) :
  (forall r, P (EvSearch (search_url query c) r)) ->
  P (EvSleep RESPONSE_DELAY) ->
  Emits P (_get_query_response fuel query c).
Proof.
  intros Hs Hp. induction fuel as [|fuel IH]; intros w; [constructor|].
  rewrite (world_eta w). rewrite fetch_unfold. cbv zeta.
  destruct (search_replies w) as [|[status body| |] rest];
    try (repeat constructor; apply Hs).
  destruct (classify status); cbn [trace_of snd after].
  - repeat constructor; apply Hs.
  - constructor; [apply Hs | apply IH].
  - constructor; [apply Hs|]. constructor; [exact Hp | apply IH].
  - repeat constructor; apply Hs.
Qed.

Lemma Emits_parse (P : Event -> Prop) (response : Json) :
  Emits P (parse_tweets response).
Proof. intros w. rewrite parse_tweets_trace. constructor. Qed.

Lemma Emits_for_twits (P : Event -> Prop) (watermark : Z) (c : string)
      (body : Twit -> M control) (twits : list Twit) :
  (forall t n,
      TwitStage.last_tweet_pub_time (stage t) < watermark ->
      P (EvYield (stamp t n c))) ->
  (forall t, Emits P (body t)) ->
  Emits P (for_twits watermark c body twits).
Proof.
  intros Hy Hb. induction twits as [|t rest IH]; intros w; [constructor|].
  rewrite for_twits_cons.
  destruct (watermark >? TwitStage.last_tweet_pub_time (stage t)) eqn:Hc;
    [|apply IH].
  cbv zeta. rewrite trace_of_after. constructor.
  - apply Hy. apply Z.gtb_lt in Hc. lia.
  - specialize (Hb (stamp t (self_counter w + 1) c)
                   (mkWorld (self_counter w + 1) (clock_ms w)
                            (search_replies w) (profile_replies w))).
    destruct (body _ _) as [[rb w2] btr]. simpl in Hb.
    destruct rb as [[|]| |]; simpl; auto.
    + apply Forall_app. split; [exact Hb | apply IH].
    + rewrite app_nil_r. exact Hb.
Qed.

Lemma Emits_and_then (P : Event -> Prop) (k : M control) :
  Emits P k -> forall c, Emits P (and_then k c).
Proof. intros Hk [|]; [exact Hk | intros w; constructor]. Qed.

Lemma Emits_paginate (P : Event -> Prop) (query : string)
      (watermark first_id : Z) (body : Twit -> M control) (fuel : nat) :
  (forall c r, P (EvSearch (search_url query c) r)) ->
  P (EvSleep RESPONSE_DELAY) ->
  (forall t n c,
      TwitStage.last_tweet_pub_time (stage t) < watermark ->
      P (EvYield (stamp t n c))) ->
  (forall t, Emits P (body t)) ->
  forall response twits,
    Emits P (paginate fuel query watermark first_id response twits body).
Proof.
  intros Hs Hp Hy Hb.
  induction fuel as [|fuel IH]; intros response twits;
    destruct twits as [|first rest]; try (intros w; constructor).
  cbn [paginate].
  apply Emits_bind; [apply Emits_fetch; auto|]. intros response'.
  apply Emits_bind; [apply Emits_parse|]. intros twits'.
  apply Emits_bind; [apply Emits_for_twits; auto|].
  apply (Emits_and_then P
           (paginate fuel query watermark first_id response' twits' body)).
  apply IH.
Qed.

(** Every event of an invocation of the stream is a request for its query,
    a pause of the fixed delay, a post from before the watermark, or an
    event of the consumer. *)
Lemma Emits_search (P : Event -> Prop) (query : string) (stage0 : Stage)
      (body : Twit -> M control) (fuel : nat) (w : World) :
  (forall c r, P (EvSearch (search_url query c) r)) ->
  P (EvSleep RESPONSE_DELAY) ->
  (forall t n c,
      TwitStage.last_tweet_pub_time (stage t) < watermark_of stage0 w ->
      P (EvYield (stamp t n c))) ->
  (forall t, Emits P (body t)) ->
  Forall P (trace_of (_search fuel query stage0 body w)).
Proof.
  intros Hs Hp Hy Hb. unfold _search.
  rewrite bind_run. unfold set_counter at 1. rewrite bind_on_ok, after_nil.
  rewrite bind_run. unfold time_now_ms at 1. rewrite bind_on_ok, after_nil.
  cbn [clock_ms]. fold (watermark_of stage0 w).
  apply Emits_bind; [apply Emits_fetch; auto|]. intros response.
  apply Emits_bind; [apply Emits_parse|]. intros [|first rest];
    [intros w'; constructor|].
  destruct (nonempty (default "" (max_position stage0))
            || negb (default false (has_more_items response))).
  - apply Emits_bind; [apply Emits_for_twits; auto|].
    destruct (negb (default false (has_more_items response))).
    + apply (Emits_and_then P (ret Continue)). intros w'. constructor.
    + apply (Emits_and_then P
               (paginate fuel query (watermark_of stage0 w)
                         (id (item first)) response (first :: rest) body)).
      apply Emits_paginate; auto.
  - apply Emits_paginate; auto.
Qed.

(** ** Laws of runs *)

Section Laws.

Variable R : World -> Trace -> kind -> World -> Prop.
Hypothesis law : Law R.

Lemma Steps_ret {A} (a : A) : Steps R (ret a).
Proof. intros w. apply (law_ret _ law). Qed.

Lemma Steps_pending {A} : Steps R (@pending A).
Proof. intros w. apply (law_pending _ law). Qed.

Lemma Steps_bind {A B} (m : M A) (k : A -> M B) :
  Steps R m -> (forall a, Steps R (k a)) -> Steps R (bind m k).
Proof.
  intros Hm Hk w. rewrite bind_run. specialize (Hm w).
  destruct (m w) as [[r w1] t1]. destruct r as [a| |]; simpl in *; auto.
  specialize (Hk a w1). destruct (k a w1) as [[r2 w2] t2].
  simpl in *. eapply (law_seq _ law); eauto.
Qed.

Lemma Steps_api {A} (m : ApiMsg) : Steps R (@raise A (ApiError m)).
Proof. intros w. apply (law_api _ law). Qed.

Lemma Steps_lift_query {A} (o : outcome A) :
  (forall e, o = Raise e -> exists m, e = ApiError m) ->
  o <> Pending -> Steps R (lift o).
Proof.
  intros He Hp w. destruct o as [a|e|]; simpl.
  - apply (law_ret _ law).
  - destruct (He e eq_refl) as [m ->]. apply (law_api _ law).
  - congruence.
Qed.

Lemma Steps_fetch (query c : string) (fuel : nat) :
  Steps R (_get_query_response fuel query c).
Proof.
  induction fuel as [|fuel IH]; [apply Steps_pending|].
  cbn [_get_query_response]. cbv zeta.
  apply Steps_bind; [apply (law_search _ law)|]. intros [status body].
  cbn [fst snd].
  destruct (negb (status =? 200)); [|apply Steps_ret].
  destruct (status =? 503); [exact IH|].
  destruct (status =? 429).
  { apply Steps_bind; [apply (law_sleep _ law) | intros _; exact IH]. }
  destruct ((500 <=? status) && (status <? 527)).
  { apply Steps_bind; [apply (law_sleep _ law) | intros _; exact IH]. }
  apply Steps_api.
Qed.

Lemma Steps_parse (response : Json) : Steps R (parse_tweets response).
Proof.
  unfold parse_tweets. destruct (items_html response);
    [apply Steps_ret | apply Steps_api].
Qed.

Section Check.

Variable profile : string.
Hypothesis plaw : ProfileLaw profile R.

Lemma Steps_check_profile (fuel : nat) : Steps R (check_profile fuel profile).
Proof.
  induction fuel as [|fuel IH]; [apply Steps_pending|].
  cbn [check_profile]. cbv zeta.
  apply Steps_bind; [apply (law_profile _ _ plaw)|]. intros [status html].
  cbn [fst snd].
  destruct (negb (status =? 200)).
  - destruct (status =? 503); [exact IH|].
    destruct (status =? 429).
    { apply Steps_bind; [apply (law_sleep _ law) | intros _; exact IH]. }
    destruct ((500 <=? status) && (status <? 527)).
    { apply Steps_bind; [apply (law_sleep _ law) | intros _; exact IH]. }
    destruct (status =? 404); [|apply Steps_api].
    intros w. apply (law_invalid _ _ plaw).
  - destruct (protected_div html); [|apply Steps_ret].
    intros w. apply (law_private _ _ plaw).
Qed.

End Check.

Section Stream.

Variable body : Twit -> M control.
Hypothesis body_steps : forall t, Steps R (body t).

Lemma Steps_for_twits (watermark : Z) (c : string) (twits : list Twit) :
  Steps R (for_twits watermark c body twits).
Proof.
  induction twits as [|t rest IH]; [apply Steps_ret|].
  intros w. rewrite for_twits_cons.
  destruct (watermark >? TwitStage.last_tweet_pub_time (stage t));
    [|apply IH].
  cbv zeta. unfold after.
  cbn [result_of world_of trace_of fst snd].
  eapply (law_seq _ law).
  - apply (law_yield _ law). reflexivity.
  - fold (with_counter (self_counter w + 1) w).
    pose proof (body_steps (stamp t (self_counter w + 1) c)
                           (with_counter (self_counter w + 1) w)) as Hb.
    unfold with_counter in *.
    destruct (body _ _) as [[rb w2] btr]. simpl in Hb.
    destruct rb as [[|]| |]; simpl; auto.
    + pose proof (IH w2) as Hr.
      destruct (for_twits watermark c body rest w2) as [[r3 w3] t3].
      simpl in *. eapply (law_seq _ law); eauto.
    + rewrite app_nil_r. exact Hb.
Qed.

Lemma Steps_paginate (query : string) (watermark first_id : Z) (fuel : nat) :
  forall response twits,
    Steps R (paginate fuel query watermark first_id response twits body).
Proof.
  induction fuel as [|fuel IH]; intros response twits;
    destruct twits as [|first rest];
    try apply Steps_ret; try apply Steps_pending.
  cbn [paginate].
  apply Steps_bind; [apply Steps_fetch|]. intros response'.
  apply Steps_bind; [apply Steps_parse|]. intros twits'.
  apply Steps_bind; [apply Steps_for_twits|].
  intros [|]; [apply IH | apply Steps_ret].
Qed.

(** The stream keeps the law from the point where it has set the counter. *)
Lemma Steps_search_from (fuel : nat) (query : string) (stage0 : Stage)
      (w : World) :
  let x := _search fuel query stage0 body w in
  R (with_counter (default 0 (counter stage0)) w)
    (trace_of x) (kind_of (result_of x)) (world_of x).
Proof.
  cbv zeta. unfold _search.
  rewrite bind_run. unfold set_counter. rewrite bind_on_ok, after_nil.
  rewrite bind_run. unfold time_now_ms. rewrite bind_on_ok, after_nil.
  cbn [clock_ms].
  fold (mkWorld (default 0 (counter stage0)) (clock_ms w) (search_replies w)
                (profile_replies w)).
  fold (with_counter (default 0 (counter stage0)) w).
  generalize (with_counter (default 0 (counter stage0)) w).
  generalize (default (clock_ms w) (last_tweet_pub_time stage0)).
  intros watermark.
  match goal with
  | |- forall w0, R w0 (trace_of (@?c w0)) _ _ => change (Steps R c)
  end.
  apply Steps_bind; [apply Steps_fetch|]. intros response.
  apply Steps_bind; [apply Steps_parse|]. intros [|first rest];
    [apply Steps_ret|].
  destruct (nonempty (default "" (max_position stage0))
            || negb (default false (has_more_items response))).
  - apply Steps_bind; [apply Steps_for_twits|].
    intros [|]; [|apply Steps_ret].
    destruct (negb (default false (has_more_items response)));
      [apply Steps_ret | apply Steps_paginate].
  - apply Steps_paginate.
Qed.

Hypothesis blind : counter_blind R.

Lemma Steps_search (fuel : nat) (query : string) (stage0 : Stage) :
  Steps R (_search fuel query stage0 body).
Proof.
  intros w. pose proof (Steps_search_from fuel query stage0 w) as H.
  cbv zeta in H.
  rewrite <- (app_nil_l (trace_of _)).
  eapply (law_seq _ law); [apply blind | exact H].
Qed.

End Stream.

Hypothesis blind : counter_blind R.

Section TaskRunners.

Variable strftime_date : Z -> string.

Lemma Steps_search_body (T : Z) (t : Twit) : Steps R (search_body T t).
Proof.
  unfold search_body. destruct (publication_datetime (item t) <? T);
    [apply Steps_ret|].
  apply Steps_bind; [|intros _; apply Steps_ret].
  intros w. apply (law_emit _ law).
Qed.

Lemma Steps_owner_body (T k : Z) (t : Twit) : Steps R (owner_body T k t).
Proof.
  unfold owner_body. cbv zeta.
  destruct (publication_datetime (item t) <? T); [apply Steps_ret|].
  apply Steps_bind; [|intros _; apply Steps_ret].
  intros w. apply (law_emit _ law).
Qed.

Lemma Steps_construct_query (t u : string) (r : bool) (s v : string) (n : Z) :
  Steps R (lift (construct_query t u r s v n)).
Proof.
  apply Steps_lift_query.
  - intros e He. destruct (construct_query_cases t u r s v n) as [H|H].
    + destruct H as [_ H]. rewrite H in He. inversion He. eauto.
    + destruct H as [_ [q Hq]]. rewrite Hq in He. discriminate.
  - destruct (construct_query_cases t u r s v n) as [[_ H]|[_ [q H]]];
      rewrite H; discriminate.
Qed.

Lemma Steps_search_gen (fuel : nat) (kwargs : Kwargs.t) :
  Steps R (search_gen strftime_date fuel kwargs).
Proof.
  unfold search_gen. cbv zeta.
  destruct (negb (nonempty (Kwargs.query (Kwargs.extra kwargs))));
    [apply Steps_api|].
  apply Steps_bind; [apply Steps_construct_query|]. intros q.
  apply Steps_bind; [|intros _; apply Steps_ret].
  apply Steps_search; [intros t; apply Steps_search_body | exact blind].
Qed.

Lemma Steps_get_owner_gen (fuel : nat) (kwargs : Kwargs.t) :
  ProfileLaw (Kwargs.owner_id (Kwargs.extra kwargs)) R ->
  Steps R (get_owner_gen strftime_date fuel kwargs).
Proof.
  intros plaw. unfold get_owner_gen. cbv zeta.
  destruct (negb (nonempty (Kwargs.owner_id (Kwargs.extra kwargs))));
    [apply Steps_api|].
  apply Steps_bind; [apply Steps_check_profile; exact plaw|]. intros _.
  apply Steps_bind.
  - unfold owner_stage_1.
    destruct (default 1 (task_stage (Kwargs.stage (Kwargs.extra kwargs)))
              =? 1); [|apply Steps_ret].
    apply Steps_bind; [apply Steps_construct_query|]. intros q.
    apply Steps_bind.
    + apply Steps_search; [intros t; apply Steps_owner_body | exact blind].
    + intros [|]; apply Steps_ret.
  - intros [[|] stage1]; [|apply Steps_ret].
    unfold owner_stage_2. cbv zeta.
    apply Steps_bind; [apply Steps_construct_query|]. intros q.
    apply Steps_bind; [|intros _; apply Steps_ret].
    apply Steps_search; [intros t; apply Steps_owner_body | exact blind].
Qed.

End TaskRunners.

End Laws.

(** *** The counter is a law of the stream *)


(** ** The counter of the stream *)



(** ** The pauses of a task *)

Lemma fixed_pause_law :
  Law (fun (_ : World) tr (_ : kind) (_ : World) => Forall fixed_pause tr).
Proof.
  constructor; try (unfold Steps; intros; repeat constructor; fail).
  - intros w a w1 b k w2 Ha Hb. apply Forall_app. split; assumption.
  - intros u w. unfold get_search.
    destruct (search_replies w); repeat constructor.
Qed.

Lemma fixed_pause_profile_law (profile : string) :
  ProfileLaw profile
    (fun (_ : World) tr (_ : kind) (_ : World) => Forall fixed_pause tr).
Proof.
  constructor; try (unfold Steps; intros; repeat constructor; fail).
  intros u w. unfold get_profile.
  destruct (profile_replies w); repeat constructor.
Qed.

Lemma Forall_app_split {A} (P : A -> Prop) (a tl pre post : list A) (x : A) :
  Forall P a -> a ++ tl = pre ++ x :: post ->
  P x \/ exists l, tl = l ++ x :: post.
Proof.
  intros Ha. revert pre. induction Ha as [|y a Hy Ha IH]; intros pre E.
  - right. exists pre. exact E.
  - destruct pre as [|p pre]; simpl in E; injection E as -> E.
    + left. exact Hy.
    + apply (IH pre E).
Qed.

Lemma emitter_pauses (g : M unit) (w : World) :
  Forall fixed_pause (trace_of (g w)) ->
  forall pre s post,
    trace_of (emitter g w) = pre ++ EvSleep s :: post ->
    s = RESPONSE_DELAY
    \/ (s = 1 /\ post = [] /\ result_of (emitter g w) = Ok tt).
Proof.
  intros Hg pre s post E. destruct (emitter_run g w) as [Ht Hr].
  rewrite Ht in E. apply (Forall_app_split _ _ _ _ _ _ Hg) in E.
  destruct E as [E | [l E]]; [left; exact E|]. right.
  rewrite Hr. destruct (result_of (g w)) as [a|e|]; simpl in E;
    try (destruct l; discriminate).
  destruct e; simpl in E; try (destruct l; discriminate).
  destruct l as [|x l]; [|destruct l; discriminate].
  injection E as -> ->. auto.
Qed.

(** The first request runs into the timeout: [emitter] pauses for a second
    and the task ends normally, without asking again. *)
Example timeout_ends_with_a_short_pause :
  let run := search one_day 3 (a_task empty_stage) timeout_world in
  result_of run = Ok tt
  /\ trace_of run
     = [EvSearch (search_url "cats since:2019-01-01" "")
                 (Some TimeoutFault);
        EvSleep 1].
Proof. vm_compute. split; reflexivity. Qed.

(** X5: every pause of a task is the fixed delay of 300 seconds, whatever
    the status that caused it and however often the request was repeated,
    with one exception: the pause of one second that [emitter] makes after a
    timeout, which is the last event of the run and ends it normally. *)
Theorem pauses_are_fixed :
  forall (strftime_date : Z -> string) (fuel : nat) (kwargs : Kwargs.t)
         (w : World),
    (let run := search strftime_date fuel kwargs w in
     forall pre s post,
       trace_of run = pre ++ EvSleep s :: post ->
       s = RESPONSE_DELAY \/ (s = 1 /\ post = [] /\ result_of run = Ok tt))
    /\
    (let run := get_owner strftime_date fuel kwargs w in
     forall pre s post,
       trace_of run = pre ++ EvSleep s :: post ->
       s = RESPONSE_DELAY \/ (s = 1 /\ post = [] /\ result_of run = Ok tt)).
Proof.
  intros strftime_date fuel kwargs w. split; cbv zeta.
  - apply emitter_pauses.
    apply (Steps_search_gen _ fixed_pause_law (fun _ _ => Forall_nil _)).
  - apply emitter_pauses.
    apply (Steps_get_owner_gen _ fixed_pause_law (fun _ _ => Forall_nil _)).
    apply fixed_pause_profile_law.
Qed.

(** ** Requests that are repeated *)

Lemma pauses_in_cons {B} (a : Reply B) (rs : list (Reply B)) :
  pauses_in (a :: rs) = (if paused a then 1 else 0) + pauses_in rs.
Proof.
  unfold pauses_in. cbn [filter].
  destruct (paused a); cbn [List.length]; lia.
Qed.

(** X6: the fetcher returns only at the first reply that is not of the
    retry classes.  Whenever a call of the fetcher has come to an end (it
    has returned a body, raised [ApiError] or let a fault of the transport
    through), the replies it has received are a run of replies with status
    503, 429 or 500..526 followed by exactly one other reply, and that one
    decides: its body is the result when the status is 200, every other
    status is an [ApiError] with the URL and that status, and a fault of
    the transport is passed on.  All requests were for one and the same
    URL, there was one pause of the fixed delay after each reply with 429
    or 500..526 and none after 503, the clock has moved by these pauses,
    the calls were nested as deep as there were retries, and of the replies
    exactly those up to the deciding one are used up. *)
Theorem fetcher_returns_at_the_deciding_reply :
  forall (fuel : nat) (query c : string) (w : World),
    let u := search_url query c in
    let x := _get_query_response fuel query c w in
    result_of x <> Pending ->
    exists (retries : list (Reply Json)) (r : Reply Json)
           (rest : list (Reply Json)),
      search_replies w = retries ++ r :: rest
      /\ forallb retried retries = true
      /\ retried r = false
      /\ (List.length retries < fuel)%nat
      /\ result_of x = fetch_verdict u r
      /\ world_of x
         = mkWorld (self_counter w)
                   (clock_ms w + 1000 * RESPONSE_DELAY * pauses_in retries)
                   rest (profile_replies w)
      /\ trace_of x
         = retry_events EvSearch u retries ++ [EvSearch u (Some r)].
Proof.
  intros fuel query c. cbv zeta.
  induction fuel as [|fuel IH]; intros w Hx;
    [exfalso; apply Hx; reflexivity|].
  rewrite (world_eta w) in Hx |- *.
  cbn [search_replies self_counter clock_ms profile_replies mkWorld].
  rewrite fetch_unfold in Hx |- *. cbv zeta in Hx |- *.
  destruct (search_replies w) as [|a rest0];
    [exfalso; apply Hx; reflexivity|].
  assert (Hlast : forall v : outcome Json,
             retried a = false -> v = fetch_verdict (search_url query c) a ->
             exists retries r rest,
               a :: rest0 = retries ++ r :: rest
               /\ forallb retried retries = true
               /\ retried r = false
               /\ (List.length retries < S fuel)%nat
               /\ v = fetch_verdict (search_url query c) r
               /\ mkWorld (self_counter w) (clock_ms w) rest0
                          (profile_replies w)
                  = mkWorld (self_counter w)
                            (clock_ms w
                             + 1000 * RESPONSE_DELAY * pauses_in retries)
                            rest (profile_replies w)
               /\ [EvSearch (search_url query c) (Some a)]
                  = retry_events EvSearch (search_url query c) retries
                    ++ [EvSearch (search_url query c) (Some r)]).
  { intros v Ha Hv. exists [], a, rest0. unfold pauses_in.
    cbn [app forallb List.length filter Z.of_nat retry_events flat_map].
    rewrite Z.mul_0_r, Z.add_0_r.
    repeat split; [exact Ha | lia | exact Hv]. }
  assert (Hmore : forall (now' : Z) (evs : Trace),
             retried a = true ->
             now' = clock_ms w
                    + 1000 * RESPONSE_DELAY * (if paused a then 1 else 0) ->
             evs = EvSearch (search_url query c) (Some a)
                   :: (if paused a then [EvSleep RESPONSE_DELAY] else []) ->
             let y := _get_query_response
                        fuel query c
                        (mkWorld (self_counter w) now' rest0
                                 (profile_replies w)) in
             result_of y <> Pending ->
             exists retries r rest,
               a :: rest0 = retries ++ r :: rest
               /\ forallb retried retries = true
               /\ retried r = false
               /\ (List.length retries < S fuel)%nat
               /\ result_of (after evs y)
                  = fetch_verdict (search_url query c) r
               /\ world_of (after evs y)
                  = mkWorld (self_counter w)
                            (clock_ms w
                             + 1000 * RESPONSE_DELAY * pauses_in retries)
                            rest (profile_replies w)
               /\ trace_of (after evs y)
                  = retry_events EvSearch (search_url query c) retries
                    ++ [EvSearch (search_url query c) (Some r)]).
  { intros now' evs Ha -> -> y Hy. subst y.
    destruct (IH _ Hy) as (retries & r & rest & E & Hall & Hr & Hlen & Hres
                           & Hworld & Htrace).
    cbn [search_replies self_counter clock_ms profile_replies mkWorld]
      in E, Hworld.
    exists (a :: retries), r, rest.
    rewrite result_of_after, world_of_after, trace_of_after.
    rewrite Hres, Hworld, Htrace, E, pauses_in_cons.
    cbn [forallb List.length retry_events flat_map app]. rewrite Ha, Hall.
    repeat split; [exact Hr | lia | | ].
    - f_equal. destruct (paused a); lia.
    - destruct (paused a); reflexivity. }
  destruct a as [status body| |];
    [|apply Hlast; reflexivity | apply Hlast; reflexivity].
  destruct (classify status) eqn:E.
  - apply Hlast; [cbn [retried]; rewrite E; reflexivity|].
    cbn [fetch_verdict]. unfold classify in E.
    destruct (status =? 200); [reflexivity|].
    destruct (status =? 503); [discriminate|].
    destruct ((status =? 429) || ((500 <=? status) && (status <=? 526)));
      discriminate.
  - apply (Hmore (clock_ms w)
                 [EvSearch (search_url query c) (Some (Http status body))]);
      cbn [retried paused]; rewrite ?E;
      [ reflexivity | lia | reflexivity
      | rewrite result_of_after in Hx; exact Hx ].
  - apply (Hmore (clock_ms w + 1000 * RESPONSE_DELAY)
                 [EvSearch (search_url query c) (Some (Http status body));
                  EvSleep RESPONSE_DELAY]);
      cbn [retried paused]; rewrite ?E;
      [ reflexivity | lia | reflexivity
      | rewrite result_of_after in Hx; exact Hx ].
  - apply Hlast; [cbn [retried]; rewrite E; reflexivity|].
    cbn [fetch_verdict]. unfold classify in E.
    destruct (status =? 200); [discriminate | reflexivity].
Qed.

(** Four replies of a busy server, two of them with a pause, then a page:
    the call returns the page, ten minutes later, after five requests. *)
Lemma fetcher_returns_at_the_deciding_reply_witness :
  let w := mkWorld 0 0 (busy_replies ++ page [] false None :: []) [] in
  let x := _get_query_response 5 "cats" "" w in
  (result_of x
   = Ok {| items_html := Some []; has_more_items := Some false;
           min_position := None |}
   /\ clock_ms (world_of x) = 600000
   /\ requests_of (trace_of x) = repeat (search_url "cats" "") 5)
  /\ exists retries r rest,
       search_replies w = retries ++ r :: rest
       /\ forallb retried retries = true
       /\ retried r = false
       /\ (List.length retries < 5)%nat
       /\ result_of x = fetch_verdict (search_url "cats" "") r
       /\ world_of x
          = mkWorld 0 (0 + 1000 * RESPONSE_DELAY * pauses_in retries) rest []
       /\ trace_of x
          = retry_events EvSearch (search_url "cats" "") retries
            ++ [EvSearch (search_url "cats" "") (Some r)].
Proof.
  split; [repeat split|].
  apply (fetcher_returns_at_the_deciding_reply
           5 "cats" ""
           (mkWorld 0 0 (busy_replies ++ page [] false None :: []) [])).
  vm_compute. discriminate.
Defined.

Lemma check_profile_unfold (fuel : nat) (profile : string) (n now : Z)
      (sr : list (Reply Json)) (pr : list (Reply Html)) :
  check_profile (S fuel) profile (mkWorld n now sr pr)
  = let u := ((MOBILE_URL ++ profile)%string, []) in
    match pr with
    | [] => (Pending, mkWorld n now sr pr, [EvProfile u None])
    | Http status html :: rest =>
        let req := EvProfile u (Some (Http status html)) in
        match classify status with
        | ReturnBody =>
            (if protected_div html then Raise (PrivateProfile profile)
             else Ok tt,
             mkWorld n now sr rest, [req])
        | RetryAtOnce =>
            after [req] (check_profile fuel profile (mkWorld n now sr rest))
        | PauseThenRetry =>
            after [req; EvSleep RESPONSE_DELAY]
                  (check_profile fuel profile
                     (mkWorld n (now + 1000 * RESPONSE_DELAY) sr rest))
        | FailApiError =>
            (if status =? 404 then Raise (InvalidProfile profile)
             else Raise (ApiError (UrlNotAvailable u status)),
             mkWorld n now sr rest, [req])
        end
    | TimeoutFault :: rest =>
        (Raise AsyncTimeoutError, mkWorld n now sr rest,
         [EvProfile u (Some TimeoutFault)])
    | ClientFault :: rest =>
        (Raise ClientError, mkWorld n now sr rest,
         [EvProfile u (Some ClientFault)])
    end.
Proof.
  destruct pr as [|[status html| |] rest]; try reflexivity.
  apply check_profile_step.
Qed.

(** X7: the check of the profile returns only at the first reply that is
    not of the retry classes.  Whenever a call of it has come to an end,
    the replies it has received are a run of replies with status 503, 429
    or 500..526 followed by exactly one other reply, and that one is the
    verdict: a 200 page without the marker of a protected account lets the
    crawl go on, a 200 page with it is [PrivateProfile], 404 is
    [InvalidProfile], every other status an [ApiError], and a fault of the
    transport is passed on.  All requests were for the page of the profile,
    with one pause of the fixed delay after each reply with 429 or 500..526
    and none after 503, and the search endpoint and the counter are left
    alone. *)
Theorem check_profile_returns_at_the_deciding_reply :
  forall (fuel : nat) (profile : string) (w : World),
    let u := ((MOBILE_URL ++ profile)%string, []) in
    let x := check_profile fuel profile w in
    result_of x <> Pending ->
    exists (retries : list (Reply Html)) (r : Reply Html)
           (rest : list (Reply Html)),
      profile_replies w = retries ++ r :: rest
      /\ forallb retried retries = true
      /\ retried r = false
      /\ (List.length retries < fuel)%nat
      /\ result_of x = check_verdict profile u r
      /\ world_of x
         = mkWorld (self_counter w)
                   (clock_ms w + 1000 * RESPONSE_DELAY * pauses_in retries)
                   (search_replies w) rest
      /\ trace_of x
         = retry_events EvProfile u retries ++ [EvProfile u (Some r)].
Proof.
  intros fuel profile. cbv zeta.
  set (u := ((MOBILE_URL ++ profile)%string, @nil (string * string))).
  induction fuel as [|fuel IH]; intros w Hx;
    [exfalso; apply Hx; reflexivity|].
  rewrite (world_eta w) in Hx |- *.
  cbn [search_replies self_counter clock_ms profile_replies mkWorld].
  rewrite check_profile_unfold in Hx |- *. cbv zeta in Hx |- *.
  fold u in Hx |- *.
  destruct (profile_replies w) as [|a rest0];
    [exfalso; apply Hx; reflexivity|].
  assert (Hlast : forall v : outcome unit,
             retried a = false -> v = check_verdict profile u a ->
             exists retries r rest,
               a :: rest0 = retries ++ r :: rest
               /\ forallb retried retries = true
               /\ retried r = false
               /\ (List.length retries < S fuel)%nat
               /\ v = check_verdict profile u r
               /\ mkWorld (self_counter w) (clock_ms w) (search_replies w)
                          rest0
                  = mkWorld (self_counter w)
                            (clock_ms w
                             + 1000 * RESPONSE_DELAY * pauses_in retries)
                            (search_replies w) rest
               /\ [EvProfile u (Some a)]
                  = retry_events EvProfile u retries
                    ++ [EvProfile u (Some r)]).
  { intros v Ha Hv. exists [], a, rest0. unfold pauses_in.
    cbn [app forallb List.length filter Z.of_nat retry_events flat_map].
    rewrite Z.mul_0_r, Z.add_0_r.
    repeat split; [exact Ha | lia | exact Hv]. }
  assert (Hmore : forall (now' : Z) (evs : Trace),
             retried a = true ->
             now' = clock_ms w
                    + 1000 * RESPONSE_DELAY * (if paused a then 1 else 0) ->
             evs = EvProfile u (Some a)
                   :: (if paused a then [EvSleep RESPONSE_DELAY] else []) ->
             let y := check_profile
                        fuel profile
                        (mkWorld (self_counter w) now' (search_replies w)
                                 rest0) in
             result_of y <> Pending ->
             exists retries r rest,
               a :: rest0 = retries ++ r :: rest
               /\ forallb retried retries = true
               /\ retried r = false
               /\ (List.length retries < S fuel)%nat
               /\ result_of (after evs y) = check_verdict profile u r
               /\ world_of (after evs y)
                  = mkWorld (self_counter w)
                            (clock_ms w
                             + 1000 * RESPONSE_DELAY * pauses_in retries)
                            (search_replies w) rest
               /\ trace_of (after evs y)
                  = retry_events EvProfile u retries
                    ++ [EvProfile u (Some r)]).
  { intros now' evs Ha -> -> y Hy. subst y.
    destruct (IH _ Hy) as (retries & r & rest & E & Hall & Hr & Hlen & Hres
                           & Hworld & Htrace).
    cbn [search_replies self_counter clock_ms profile_replies mkWorld]
      in E, Hworld.
    exists (a :: retries), r, rest.
    rewrite result_of_after, world_of_after, trace_of_after.
    rewrite Hres, Hworld, Htrace, E, pauses_in_cons.
    cbn [forallb List.length retry_events flat_map app]. rewrite Ha, Hall.
    repeat split; [exact Hr | lia | | ].
    - f_equal. destruct (paused a); lia.
    - destruct (paused a); reflexivity. }
  destruct a as [status html| |];
    [|apply Hlast; reflexivity | apply Hlast; reflexivity].
  destruct (classify status) eqn:E.
  - apply Hlast; [cbn [retried]; rewrite E; reflexivity|].
    cbn [check_verdict]. unfold classify in E.
    destruct (status =? 200); [reflexivity|].
    destruct (status =? 503); [discriminate|].
    destruct ((status =? 429) || ((500 <=? status) && (status <=? 526)));
      discriminate.
  - apply (Hmore (clock_ms w) [EvProfile u (Some (Http status html))]);
      cbn [retried paused]; rewrite ?E;
      [ reflexivity | lia | reflexivity
      | rewrite result_of_after in Hx; exact Hx ].
  - apply (Hmore (clock_ms w + 1000 * RESPONSE_DELAY)
                 [EvProfile u (Some (Http status html));
                  EvSleep RESPONSE_DELAY]);
      cbn [retried paused]; rewrite ?E;
      [ reflexivity | lia | reflexivity
      | rewrite result_of_after in Hx; exact Hx ].
  - apply Hlast; [cbn [retried]; rewrite E; reflexivity|].
    cbn [check_verdict]. unfold classify in E.
    destruct (status =? 200); [discriminate | reflexivity].
Qed.

(** Two replies of a busy server, then 404: no such profile, five minutes
    later. *)
Lemma check_profile_returns_at_the_deciding_reply_witness :
  let w := mkWorld 0 0 []
             (busy_profile_replies
              ++ Http 404 {| protected_div := false |} :: []) in
  let x := check_profile 3 "bob" w in
  (result_of x = Raise (InvalidProfile "bob")
   /\ clock_ms (world_of x) = 300000)
  /\ exists retries r rest,
       profile_replies w = retries ++ r :: rest
       /\ forallb retried retries = true
       /\ retried r = false
       /\ (List.length retries < 3)%nat
       /\ result_of x
          = check_verdict "bob" ((MOBILE_URL ++ "bob")%string, []) r
       /\ world_of x
          = mkWorld 0 (0 + 1000 * RESPONSE_DELAY * pauses_in retries) [] rest
       /\ trace_of x
          = retry_events EvProfile ((MOBILE_URL ++ "bob")%string, []) retries
            ++ [EvProfile ((MOBILE_URL ++ "bob")%string, []) (Some r)].
Proof.
  split; [repeat split|].
  apply (check_profile_returns_at_the_deciding_reply
           3 "bob"
           (mkWorld 0 0 []
              (busy_profile_replies
               ++ Http 404 {| protected_div := false |} :: []))).
  vm_compute. discriminate.
Defined.

(** ** Resuming from a checkpoint *)







(** The times alone decide: on a page that is not sorted by time the post
    of second 80, older than the post of second 70 that follows it, was
    yielded before that post and is yielded again when the stream is
    resumed from the checkpoint of that post. *)
Lemma resume_repeats_an_older_post :
  let y := stamp (post 7 70 70000) 2 "" in
  all_yields (trace_of (_search 3 "cats" empty_stage drain
                                unsorted_page_world))
  = [stamp (post 8 80 40000) 1 ""; y]
  /\ all_yields (trace_of (_search 3 "cats" (checkpoint (stage y)) drain
                                   unsorted_page_world))
     = [stamp (post 8 80 40000) 3 ""].
Proof. split; reflexivity. Qed.

(** * Further properties of the helpers *)

(** ** [parse_url] *)

Lemma list_ascii_of_string_app (s1 s2 : string) :
  list_ascii_of_string (s1 ++ s2)
  = list_ascii_of_string s1 ++ list_ascii_of_string s2.
Proof. induction s1; simpl; congruence. Qed.

Lemma MCat_eq (r1 r2 : Re.regex) (s s1 s2 : list ascii) :
  Re.Matches r1 s1 -> Re.Matches r2 s2 -> s = s1 ++ s2 ->
  Re.Matches (Re.Cat r1 r2) s.
Proof. intros H1 H2 ->. constructor; assumption. Qed.

Lemma Matches_lit_i_self (s : string) :
  Re.Matches (Re.lit_i s) (list_ascii_of_string s).
Proof.
  induction s as [|a s IH]; simpl; [constructor|].
  apply (MCat_eq _ _ _ [a] (list_ascii_of_string s)); auto.
  apply Re.MAltL. constructor. apply Ascii.eqb_refl.
Qed.

Lemma Matches_plus_word (l : list ascii) :
  forallb Re.word_char l = true -> l <> [] ->
  Re.Matches (Re.plus Re.word_i) l.
Proof.
  intros Hw Hn.
  apply (Matches_plus_mono_on (fun _ => true)
           (Re.Class Re.word_char) Re.word_i).
  - intros x _ Hx. apply Re.MAltL, Hx.
  - destruct l as [|c rest]; [congruence|].
    simpl in Hw. apply andb_true_iff in Hw. destruct Hw as [Hc Hr].
    apply (MCat_eq _ _ _ [c] rest); auto.
    + constructor. exact Hc.
    + apply Matches_Star_Class. exact Hr.
  - apply forallb_forall. reflexivity.
Qed.

Lemma free_of_word_chars (l : list ascii) :
  forallb Re.word_char l = true -> free_of "/" l = true.
Proof.
  intros H. apply word_run_free. rewrite <- (app_nil_r l).
  apply word_run_intro; auto.
Qed.

Lemma profile_link_found (secure www : bool) (a : string) :
  only_word_chars a = true -> nonempty a = true ->
  Re.search profile_url_pattern (profile_link secure www a) = true.
Proof.
  intros Hw Hn. unfold Re.search. apply matchb_correct.
  unfold Re.whole, profile_url_pattern.
  cbn [Re.at_start Re.at_end Re.body].
  set (l1 := list_ascii_of_string "http").
  set (l2 := list_ascii_of_string (if secure then "s" else "")).
  set (l3 := list_ascii_of_string "://").
  set (l4 := list_ascii_of_string (if www then "www." else "")).
  set (l5 := list_ascii_of_string "twitter.com/").
  set (la := list_ascii_of_string a).
  assert (E : list_ascii_of_string (profile_link secure www a)
              = [] ++ (l1 ++ l2 ++ l3 ++ l4 ++ l5 ++ la) ++ []).
  { unfold profile_link. rewrite !list_ascii_of_string_app.
    rewrite app_nil_r. reflexivity. }
  rewrite E. constructor; [constructor|].
  constructor; [|apply Re.MAltR; constructor].
  constructor; [apply Matches_lit_i_self|].
  constructor.
  { subst l2. destruct secure; [apply Re.MAltL | apply Re.MAltR; constructor].
    apply Re.MAltL. constructor. reflexivity. }
  constructor; [apply Matches_lit_i_self|].
  constructor.
  { subst l4. destruct www; [apply Re.MAltL | apply Re.MAltR; constructor].
    apply Matches_lit_i_self. }
  constructor; [apply Matches_lit_i_self|].
  apply Matches_plus_word; [exact Hw|].
  subst la. destruct a; [discriminate | discriminate].
Qed.

Lemma profile_link_last_segment (secure www : bool) (a : string) :
  only_word_chars a = true ->
  pop_last (split (profile_link secure www a) "/") = a.
Proof.
  intros Hw. unfold pop_last, split.
  rewrite <- (string_of_list_ascii_of_string (profile_link secure www a)).
  assert (E : list_ascii_of_string (profile_link secure www a)
              = list_ascii_of_string
                  ("http" ++ (if secure then "s" else "") ++ "://"
                   ++ (if www then "www." else "") ++ "twitter.com")%string
                ++ "/"%char :: list_ascii_of_string a).
  { unfold profile_link. destruct secure, www; reflexivity. }
  rewrite E. rewrite split_acc_last.
  - apply string_of_list_ascii_of_string.
  - apply free_of_word_chars. exact Hw.
Qed.

(** X9: [parse_url] takes the alias back out of the address of a profile
    page, whether the address has [https] or [http] and whether the host has
    [www.] or not; in particular out of the alias appended to the [URL] of
    the class.  The alias is any string of ASCII letters, digits and
    underscores that is not empty. *)
Theorem parse_url_of_profile_link :
  forall (secure www : bool) (a : string),
    only_word_chars a = true ->
    nonempty a = true ->
    parse_url (profile_link secure www a) = Ok a
    /\ parse_url (URL ++ "/" ++ a) = Ok a.
Proof.
  assert (H : forall secure www a,
             only_word_chars a = true -> nonempty a = true ->
             parse_url (profile_link secure www a) = Ok a).
  { intros secure www a Hw Hn. unfold parse_url. cbv zeta.
    assert (Hs : startswith (profile_link secure www a) "http" = true)
      by (destruct secure; reflexivity).
    rewrite Hs, (profile_link_found _ _ _ Hw Hn).
    cbn [negb]. rewrite (profile_link_last_segment _ _ _ Hw). reflexivity. }
  intros secure www a Hw Hn. split; [apply H; assumption|].
  apply (H true true a Hw Hn).
Qed.

Lemma parse_url_of_profile_link_witness :
  parse_url "http://twitter.com/Jack_99" = Ok "Jack_99"
  /\ parse_url (URL ++ "/" ++ "Jack_99") = Ok "Jack_99".
Proof.
  apply (parse_url_of_profile_link false false "Jack_99"); reflexivity.
Defined.

Lemma free_of_app_sep (sep : ascii) (front rest : list ascii) :
  free_of sep (front ++ sep :: rest) = false.
Proof.
  induction front as [|c front IH]; simpl.
  - rewrite Ascii.eqb_refl. reflexivity.
  - rewrite IH. apply andb_false_r.
Qed.

(** A string without a slash is no address of a profile. *)
Lemma alias_is_no_profile_link (r : string) :
  is_alias_i r = true -> Re.search profile_url_pattern r = false.
Proof.
  intros Ha. destruct (Re.search profile_url_pattern r) eqn:Hs;
    [|reflexivity].
  unfold Re.search in Hs. apply matchb_correct in Hs.
  apply profile_url_shape in Hs.
  destruct Hs as (front & w & tail & E & _).
  apply is_alias_i_free in Ha.
  rewrite E, free_of_app_sep in Ha. discriminate.
Qed.

(** X10: what [parse_url] returns it does not always accept.  Given its
    own result [r] again, it raises [InvalidProfile] when [r] begins with
    'http' (it takes the alias for an address, and there is no slash in
    it); otherwise it returns [r] unchanged when [r] is one or more ASCII
    letters, digits and underscores, possibly followed by a newline, and
    raises [InvalidOwnerId] when it is not: the pattern of the addresses is
    compiled with [re.I] and lets U+0130, U+0131, U+017F and U+212A into
    the last segment, the pattern of the aliases is not.  A result that has
    only ASCII characters and does not begin with 'http' is returned
    again. *)
Theorem parse_url_again :
  forall s r : string,
    parse_url s = Ok r ->
    parse_url r
    = (if startswith r "http" then Raise (InvalidProfile r)
       else if is_alias r then Ok r
            else Raise (InvalidOwnerId r))
    /\ (only_ascii r = true -> startswith r "http" = false ->
        parse_url r = Ok r).
Proof.
  intros s r H. apply parse_url_returns_alias_i in H.
  assert (E : parse_url r
              = (if startswith r "http" then Raise (InvalidProfile r)
                 else if is_alias r then Ok r
                      else Raise (InvalidOwnerId r))).
  { rewrite parse_url_equation.
    rewrite (alias_is_no_profile_link _ H). reflexivity. }
  split; [exact E|]. intros Ha Hh.
  rewrite E, Hh, (is_alias_i_ascii _ H Ha). reflexivity.
Qed.

(** The alias "httpx" comes out of its address and is refused as an
    address; the alias with a long s comes out of its address and is
    refused as an alias; "jack" is returned again. *)
Lemma parse_url_again_witness :
  (parse_url "https://twitter.com/httpx" = Ok "httpx"
   /\ parse_url "httpx" = Raise (InvalidProfile "httpx"))
  /\ (parse_url "https://twitter.com/ſam" = Ok "ſam"
      /\ parse_url "ſam" = Raise (InvalidOwnerId "ſam"))
  /\ (parse_url "https://twitter.com/jack" = Ok "jack"
      /\ parse_url "jack" = Ok "jack").
Proof.
  split; [|split].
  - split; [reflexivity|].
    apply (parse_url_again "https://twitter.com/httpx" "httpx").
    reflexivity.
  - split; [reflexivity|].
    apply (parse_url_again "https://twitter.com/ſam" "ſam").
    reflexivity.
  - split; [reflexivity|].
    apply (parse_url_again "https://twitter.com/jack" "jack");
      reflexivity.
Defined.

(** ** [construct_query] *)

Lemma lstrip_idem_upto (n : nat) :
  forall x : string,
    (String.length x <= n)%nat -> lstrip (lstrip x) = lstrip x.
Proof.
  induction n as [|n IH]; intros x Hn.
  - destruct x; [reflexivity | simpl in Hn; lia].
  - destruct x as [|a x1]; [reflexivity|]. cbn [String.length] in Hn.
    cbn [lstrip]. destruct (isspace a) eqn:Ea; [apply IH; lia|].
    destruct x1 as [|b x2]; [cbn [lstrip]; rewrite Ea; reflexivity|].
    cbn [String.length] in Hn.
    destruct (isspace2 a b) eqn:E2; [apply IH; lia|].
    destruct x2 as [|c x3]; [cbn [lstrip]; rewrite Ea, E2; reflexivity|].
    cbn [String.length] in Hn.
    destruct (isspace3 a b c) eqn:E3; [apply IH; lia|].
    cbn [lstrip]. rewrite Ea, E2, E3. reflexivity.
Qed.

Lemma lstrip_idem (x : string) : lstrip (lstrip x) = lstrip x.
Proof. apply (lstrip_idem_upto (String.length x)). lia. Qed.

(** The bytes of the white space of more than one byte are no ASCII. *)
Lemma isspace2_bytes (a b : ascii) :
  isspace2 a b = true -> is_ascii a = false /\ is_ascii b = false.
Proof.
  unfold isspace2, is_ascii. cbv zeta.
  rewrite ?andb_true_iff, ?orb_true_iff, ?Nat.eqb_eq, ?Nat.ltb_ge. lia.
Qed.

Lemma isspace3_bytes (a b c : ascii) :
  isspace3 a b c = true ->
  is_ascii a = false /\ is_ascii b = false /\ is_ascii c = false.
Proof.
  unfold isspace3, is_ascii. cbv zeta.
  repeat first [ rewrite orb_true_iff | rewrite andb_true_iff
               | rewrite Nat.eqb_eq | rewrite Nat.leb_le
               | rewrite Nat.ltb_ge ].
  lia.
Qed.

(** What [lstrip] takes away is white space: an ASCII character that is
    none stays. *)
Lemma lstrip_empty_upto (n : nat) :
  forall x : string,
    (String.length x <= n)%nat ->
    lstrip x = EmptyString ->
    forallb (fun c => isspace c || negb (is_ascii c))
            (list_ascii_of_string x) = true.
Proof.
  induction n as [|n IH]; intros x Hn H.
  - destruct x; [reflexivity | simpl in Hn; lia].
  - destruct x as [|a x1]; [reflexivity|]. cbn [String.length] in Hn.
    cbn [lstrip] in H. cbn [list_ascii_of_string forallb].
    destruct (isspace a) eqn:Ea; [apply IH; [lia | exact H]|].
    destruct x1 as [|b x2]; [discriminate H|].
    cbn [String.length] in Hn. cbn [list_ascii_of_string forallb].
    destruct (isspace2 a b) eqn:E2.
    + destruct (isspace2_bytes _ _ E2) as [-> ->].
      cbn [negb orb andb]. rewrite ?orb_true_r. cbn [andb].
      apply IH; [lia | exact H].
    + destruct x2 as [|c x3]; [discriminate H|].
      cbn [String.length] in Hn. cbn [list_ascii_of_string forallb].
      destruct (isspace3 a b c) eqn:E3; [|discriminate H].
      destruct (isspace3_bytes _ _ _ E3) as (-> & -> & ->).
      cbn [negb orb andb]. rewrite ?orb_true_r. cbn [andb].
      apply IH; [lia | exact H].
Qed.

(** After any text, a space and an ASCII character that is no white space
    leave something for [lstrip] to return. *)
Lemma lstrip_app_letter (q t : string) (c : ascii) :
  is_ascii c = true -> isspace c = false ->
  lstrip (q ++ String " " (String c t)) <> EmptyString.
Proof.
  intros Ha Hs H.
  apply (lstrip_empty_upto _ _ (Nat.le_refl _)) in H.
  rewrite list_ascii_of_string_app, forallb_app in H.
  apply andb_true_iff in H. destruct H as [_ H].
  cbn [list_ascii_of_string forallb] in H.
  apply andb_true_iff in H. destruct H as [_ H].
  apply andb_true_iff in H. destruct H as [H _].
  rewrite Ha, Hs in H. discriminate H.
Qed.

Lemma nonempty_false (s : string) : nonempty s = false -> s = EmptyString.
Proof. destruct s; [reflexivity | discriminate]. Qed.

(** X11: the query that [construct_query] returns never begins with white
    space, and it is empty in exactly one case: the search text consists of
    white space alone and nothing else is given.  The test for a missing
    query comes before the white space is stripped, so that such a text is
    not refused but sent as the empty query. *)
Theorem construct_query_blank_text :
  forall (search_query profile : string) (reply : bool)
         (since until : string) (since_id : Z) (query : string),
    construct_query search_query profile reply since until since_id
    = Ok query ->
    lstrip query = query
    /\ (query = EmptyString
        <-> lstrip search_query = EmptyString /\ profile = EmptyString
            /\ reply = false /\ since = EmptyString
            /\ until = EmptyString /\ since_id = 0).
Proof.
  intros q p r s u i query. unfold construct_query.
  destruct (nonempty p) eqn:Hp; destruct r;
    destruct (nonempty u) eqn:Hu; destruct (nonempty s) eqn:Hs;
    destruct (Z.eqb_spec i 0) as [Hi|Hi]; cbn [negb];
    match goal with
    | |- (if negb (nonempty ?x) then _ else _) = _ -> _ =>
        destruct (negb (nonempty x)); [discriminate|]
    end;
    intros H; injection H as <-;
    (split; [apply lstrip_idem|]);
    try apply nonempty_false in Hp; try apply nonempty_false in Hu;
    try apply nonempty_false in Hs;
    rewrite ?string_app_assoc;
    (split;
     [ intros H;
       first
         [ exfalso; revert H; cbn [append]; apply lstrip_app_letter;
           reflexivity
         | subst; auto 10 ]
     | intros (H1 & H2 & H3 & H4 & H5 & H6);
       first [ discriminate
             | subst; discriminate
             | subst; congruence
             | subst; assumption ] ]).
Qed.

(** A search text of a no-break space (U+00A0), a next-line character
    (U+0085), an ideographic space (U+3000) and a blank gives the empty
    query; before a word they are stripped. *)
Lemma construct_query_blank_text_witness :
  construct_query (nbsp ++ nel ++ wide_space ++ " ") "" false "" "" 0
  = Ok ""
  /\ lstrip (nbsp ++ nel ++ wide_space ++ " ") = ""
  /\ construct_query (nbsp ++ "cats") "" false "" "" 0 = Ok "cats".
Proof.
  split; [reflexivity|]. split; [|reflexivity].
  destruct (construct_query_blank_text
              (nbsp ++ nel ++ wide_space ++ " ") "" false "" "" 0 ""
              eq_refl) as [_ [H _]].
  exact (proj1 (H eq_refl)).
Defined.

(** ** [construct_video_url] *)

Lemma str_inj (a b : Z) : str a = str b -> a = b.
Proof.
  unfold str. intros H.
  assert (Hn : forall z, Z.to_int z <> Decimal.Pos Decimal.Nil
                         /\ Z.to_int z <> Decimal.Neg Decimal.Nil).
  { intros z. split; intros E; pose proof (f_equal Z.of_int E) as E0;
      rewrite DecimalZ.of_to in E0; simpl in E0; subst z;
      vm_compute in E; discriminate E. }
  assert (E : Some (Z.to_int a) = Some (Z.to_int b)).
  { rewrite <- (NilZero.isi (Z.to_int a)) by apply Hn.
    rewrite <- (NilZero.isi (Z.to_int b)) by apply Hn.
    rewrite H. reflexivity. }
  injection E as E. apply (f_equal Z.of_int) in E.
  rewrite !DecimalZ.of_to in E. exact E.
Qed.

Lemma append_inj_l (p a b : string) : (p ++ a = p ++ b)%string -> a = b.
Proof.
  induction p as [|c p IH]; simpl; [auto|].
  intros H. injection H as H. auto.
Qed.

(** X12: the address that [construct_video_url] builds for a video begins
    with the [URL] of the class, and two videos with different ids never
    get the same address. *)
Theorem construct_video_url_is_injective :
  forall a b : Z,
    startswith (construct_video_url a) URL = true
    /\ (construct_video_url a = construct_video_url b -> a = b).
Proof.
  intros a b. split.
  - unfold construct_video_url, VIDEOS_URL, startswith, URL. simpl.
    destruct (str a); reflexivity.
  - unfold construct_video_url. intros H.
    apply append_inj_l in H. apply str_inj, H.
Qed.

(** * Further properties of the crawl engine: runs that wait *)

Lemma last_app_keep {A} (a b : list A) (d : A) :
  b <> [] -> last (a ++ b) d = last b d.
Proof.
  intros Hb. induction a as [|x a IH]; [reflexivity|].
  simpl. destruct (a ++ b) eqn:E; [|exact IH].
  destruct a; [contradiction | discriminate].
Qed.

Lemma starved_after {A} (evs : Trace) (x : outcome A * World * Trace) :
  starved x -> starved (after evs x).
Proof.
  unfold starved, after. cbn [trace_of world_of fst snd].
  intros H. destruct (trace_of x) as [|e tr] eqn:E; [contradiction|].
  rewrite last_app_keep by discriminate. exact H.
Qed.

Lemma Waits_bind {A B} (pre mid post : World -> Prop) (m : M A)
      (k : A -> M B) :
  Waits pre m mid -> (forall a, Waits mid (k a) post) ->
  Waits pre (bind m k) post.
Proof.
  intros Hm Hk w Hw. rewrite bind_run. destruct (Hm w Hw) as [Hp Ho].
  destruct (m w) as [[r w1] t1]. destruct r as [a|e|]; cbn [bind_on].
  - destruct (Hk a w1 (Ho a eq_refl)) as [Hp' Ho'].
    rewrite result_of_after, world_of_after. split.
    + intros H. apply starved_after. apply Hp'. exact H.
    + exact Ho'.
  - split; [discriminate | discriminate].
  - split; [|discriminate]. intros _. exact (Hp eq_refl).
Qed.

Lemma Waits_weaken {A} (pre pre' post post' : World -> Prop) (c : M A) :
  (forall w, pre' w -> pre w) -> (forall w, post w -> post' w) ->
  Waits pre c post -> Waits pre' c post'.
Proof.
  intros H1 H2 Hc w Hw. destruct (Hc w (H1 w Hw)) as [Hp Ho].
  split; [exact Hp | intros a Ha; apply H2, (Ho a Ha)].
Qed.

(** Code that neither waits nor takes a reply keeps every budget. *)
Lemma Waits_still {A} (n m : nat) (c : M A) :
  (forall w,
      result_of (c w) <> Pending
      /\ search_replies (world_of (c w)) = search_replies w
      /\ profile_replies (world_of (c w)) = profile_replies w) ->
  Waits (budget n m) c (budget n m).
Proof.
  intros H w [Hs Hp]. destruct (H w) as (Hr & Es & Ep). split.
  - intros E. contradiction.
  - intros a _. unfold budget. rewrite Es, Ep. auto.
Qed.

Lemma Waits_fetch (m : nat) (query c : string) (fuel : nat) :
  forall n : nat,
    (n < fuel)%nat ->
    Waits (budget n m) (_get_query_response fuel query c)
          (fun w' => (S (List.length (search_replies w')) <= n)%nat
                     /\ (List.length (profile_replies w') <= m)%nat).
Proof.
  induction fuel as [|fuel IH]; intros n Hn; [lia|].
  intros w [Hs Hp]. rewrite (world_eta w). rewrite fetch_unfold. cbv zeta.
  destruct (search_replies w) as [|r rest] eqn:Er.
  - split; [intros _; reflexivity | discriminate].
  - cbn [List.length] in Hs.
    assert (Hrest : budget (n - 1) m
                      (mkWorld (self_counter w) (clock_ms w) rest
                               (profile_replies w)))
      by (split; simpl; lia).
    assert (Hrest' : forall d,
               budget (n - 1) m
                      (mkWorld (self_counter w) d rest (profile_replies w)))
      by (intros d; split; simpl; lia).
    destruct r as [status body| |];
      try (split; discriminate).
    destruct (classify status).
    + split; [discriminate|]. intros a _. simpl. split; lia.
    + destruct (IH (n - 1)%nat ltac:(lia) _ Hrest) as [Hp' Ho'].
      rewrite result_of_after, world_of_after. split.
      * intros H. apply starved_after, Hp', H.
      * intros a Ha. destruct (Ho' a Ha). split; lia.
    + destruct (IH (n - 1)%nat ltac:(lia) _
                   (Hrest' (clock_ms w + 1000 * RESPONSE_DELAY)))
        as [Hp' Ho'].
      rewrite result_of_after, world_of_after. split.
      * intros H. apply starved_after, Hp', H.
      * intros a Ha. destruct (Ho' a Ha). split; lia.
    + split; discriminate.
Qed.

Lemma Waits_check_profile (n : nat) (profile : string) (fuel : nat) :
  forall m : nat,
    (m < fuel)%nat ->
    Waits (budget n m) (check_profile fuel profile) (budget n m).
Proof.
  induction fuel as [|fuel IH]; intros m Hm; [lia|].
  intros w [Hs Hp]. rewrite (world_eta w).
  destruct (profile_replies w) as [|r rest] eqn:Er.
  - split; [intros _; reflexivity | discriminate].
  - cbn [List.length] in Hp.
    assert (Hrest : forall d,
               budget n (m - 1)
                      (mkWorld (self_counter w) d (search_replies w) rest))
      by (intros d; split; simpl; lia).
    destruct r as [status html| |]; try (split; discriminate).
    rewrite check_profile_step. cbv zeta.
    destruct (classify status).
    + split; [destruct (protected_div html); discriminate|].
      intros a _. split; simpl; lia.
    + destruct (IH (m - 1)%nat ltac:(lia) _ (Hrest (clock_ms w)))
        as [Hp' Ho'].
      rewrite result_of_after, world_of_after. split.
      * intros H. apply starved_after, Hp', H.
      * intros a Ha. destruct (Ho' a Ha). split; lia.
    + destruct (IH (m - 1)%nat ltac:(lia) _
                   (Hrest (clock_ms w + 1000 * RESPONSE_DELAY)))
        as [Hp' Ho'].
      rewrite result_of_after, world_of_after. split.
      * intros H. apply starved_after, Hp', H.
      * intros a Ha. destruct (Ho' a Ha). split; lia.
    + split; [destruct (status =? 404); discriminate|].
      destruct (status =? 404); discriminate.
Qed.

Section WaitingStream.

Variables n m : nat.
Variable body : Twit -> M control.
Hypothesis body_waits : forall t, Waits (budget n m) (body t) (budget n m).

Lemma Waits_ret {A} (a : A) : Waits (budget n m) (ret a) (budget n m).
Proof. apply Waits_still. intros w. repeat split. discriminate. Qed.

Lemma Waits_for_twits (watermark : Z) (c : string) (twits : list Twit) :
  Waits (budget n m) (for_twits watermark c body twits) (budget n m).
Proof.
  induction twits as [|t rest IH]; [apply Waits_ret|].
  cbn [for_twits].
  apply (Waits_bind _ (budget n m)).
  - destruct (watermark >? TwitStage.last_tweet_pub_time (stage t));
      [|apply Waits_ret].
    apply (Waits_bind _ (budget n m));
      [apply Waits_still; intros w; repeat split; discriminate|].
    intros k.
    apply (Waits_bind _ (budget n m));
      [apply Waits_still; intros w; repeat split; discriminate|].
    intros _.
    apply (Waits_bind _ (budget n m));
      [apply Waits_still; intros w; repeat split; discriminate|].
    intros k'.
    apply (Waits_bind _ (budget n m));
      [apply Waits_still; intros w; repeat split; discriminate|].
    intros _. apply body_waits.
  - intros [|]; [exact IH | apply Waits_ret].
Qed.

End WaitingStream.

Lemma Waits_parse (n m : nat) (response : Json) :
  Waits (budget n m) (parse_tweets response) (budget n m).
Proof.
  apply Waits_still. intros w. unfold parse_tweets.
  destruct (items_html response); repeat split; discriminate.
Qed.

Lemma budget_pred (n m : nat) (w : World) :
  (S (List.length (search_replies w)) <= n)%nat
  /\ (List.length (profile_replies w) <= m)%nat ->
  budget (n - 1) m w /\ (1 <= n)%nat.
Proof. intros [H1 H2]. unfold budget. repeat split; lia. Qed.

Lemma Waits_paginate (m : nat) (body : Twit -> M control) (query : string)
      (watermark first_id : Z) (fuel : nat) :
  (forall n t, Waits (budget n m) (body t) (budget n m)) ->
  forall (n : nat) (response : Json) (twits : list Twit),
    (n + 2 <= fuel)%nat ->
    Waits (budget n m)
          (paginate fuel query watermark first_id response twits body)
          (budget n m).
Proof.
  intros Hb. induction fuel as [|fuel IH]; intros n response twits Hn;
    [lia|].
  destruct twits as [|first rest]; [apply Waits_ret|].
  cbn [paginate].
  apply (Waits_bind _ _ _ _ _ (Waits_fetch m query _ fuel n ltac:(lia))).
  intros response' w Hw. apply budget_pred in Hw. destruct Hw as [Hw Hn1].
  revert w Hw.
  apply (Waits_weaken (budget (n - 1) m) _ (budget (n - 1) m) _);
    [auto | intros w [H1 H2]; split; lia |].
  apply (Waits_bind _ (budget (n - 1) m)); [apply Waits_parse|].
  intros twits'.
  apply (Waits_bind _ (budget (n - 1) m));
    [apply Waits_for_twits; apply Hb|].
  intros [|]; [|apply Waits_ret].
  apply IH. lia.
Qed.

Lemma Waits_search (m : nat) (body : Twit -> M control) (query : string)
      (stage0 : Stage) (fuel n : nat) :
  (forall n t, Waits (budget n m) (body t) (budget n m)) ->
  (n + 2 <= fuel)%nat ->
  Waits (budget n m) (_search fuel query stage0 body) (budget n m).
Proof.
  intros Hb Hn. unfold _search.
  apply (Waits_bind _ (budget n m));
    [apply Waits_still; intros w; repeat split; discriminate|].
  intros _.
  apply (Waits_bind _ (budget n m));
    [apply Waits_still; intros w; repeat split; discriminate|].
  intros now.
  apply (Waits_bind _ _ _ _ _ (Waits_fetch m query _ fuel n ltac:(lia))).
  intros response w Hw. apply budget_pred in Hw. destruct Hw as [Hw Hn1].
  revert w Hw.
  apply (Waits_weaken (budget (n - 1) m) _ (budget (n - 1) m) _);
    [auto | intros w [H1 H2]; split; lia |].
  apply (Waits_bind _ (budget (n - 1) m)); [apply Waits_parse|].
  intros [|first rest]; [apply Waits_ret|].
  destruct (nonempty (default "" (max_position stage0))
            || negb (default false (has_more_items response))).
  - apply (Waits_bind _ (budget (n - 1) m));
      [apply Waits_for_twits; apply Hb|].
    intros [|]; [|apply Waits_ret].
    destruct (negb (default false (has_more_items response)));
      [apply Waits_ret|].
    apply Waits_paginate; [exact Hb | lia].
  - apply Waits_paginate; [exact Hb | lia].
Qed.

Section WaitingRunners.

Variable strftime_date : Z -> string.

Lemma Waits_search_body (n m : nat) (T : Z) (t : Twit) :
  Waits (budget n m) (search_body T t) (budget n m).
Proof.
  apply Waits_still. intros w. unfold search_body.
  destruct (publication_datetime (item t) <? T); repeat split; discriminate.
Qed.

Lemma Waits_owner_body (n m : nat) (T k : Z) (t : Twit) :
  Waits (budget n m) (owner_body T k t) (budget n m).
Proof.
  apply Waits_still. intros w. unfold owner_body. cbv zeta.
  destruct (publication_datetime (item t) <? T); repeat split; discriminate.
Qed.

Lemma Waits_construct_query (n m : nat) (t u : string) (r : bool)
      (s v : string) (i : Z) :
  Waits (budget n m) (lift (construct_query t u r s v i)) (budget n m).
Proof.
  apply Waits_still. intros w. unfold lift.
  destruct (construct_query_cases t u r s v i) as [[_ H]|[_ [q H]]];
    rewrite H; repeat split; discriminate.
Qed.

Lemma Waits_search_gen (fuel n m : nat) (kwargs : Kwargs.t) :
  (n + 2 <= fuel)%nat ->
  Waits (budget n m) (search_gen strftime_date fuel kwargs) (budget n m).
Proof.
  intros Hn. unfold search_gen. cbv zeta.
  destruct (negb (nonempty (Kwargs.query (Kwargs.extra kwargs)))).
  { apply Waits_still. intros w. repeat split. discriminate. }
  apply (Waits_bind _ (budget n m)); [apply Waits_construct_query|].
  intros q.
  apply (Waits_bind _ (budget n m)); [|intros _; apply Waits_ret].
  apply Waits_search; [|exact Hn]. intros n' t. apply Waits_search_body.
Qed.

Lemma Waits_get_owner_gen (fuel n m : nat) (kwargs : Kwargs.t) :
  (n + 2 <= fuel)%nat -> (m < fuel)%nat ->
  Waits (budget n m) (get_owner_gen strftime_date fuel kwargs) (budget n m).
Proof.
  intros Hn Hm. unfold get_owner_gen. cbv zeta.
  destruct (negb (nonempty (Kwargs.owner_id (Kwargs.extra kwargs)))).
  { apply Waits_still. intros w. repeat split. discriminate. }
  apply (Waits_bind _ (budget n m)); [apply Waits_check_profile, Hm|].
  intros _.
  apply (Waits_bind _ (budget n m)).
  - unfold owner_stage_1.
    destruct (default 1 (task_stage (Kwargs.stage (Kwargs.extra kwargs)))
              =? 1); [|apply Waits_ret].
    apply (Waits_bind _ (budget n m)); [apply Waits_construct_query|].
    intros q.
    apply (Waits_bind _ (budget n m)).
    + apply Waits_search; [|exact Hn]. intros n' t. apply Waits_owner_body.
    + intros [|]; apply Waits_ret.
  - intros [[|] stage1]; [|apply Waits_ret].
    unfold owner_stage_2. cbv zeta.
    apply (Waits_bind _ (budget n m)); [apply Waits_construct_query|].
    intros q.
    apply (Waits_bind _ (budget n m)); [|intros _; apply Waits_ret].
    apply Waits_search; [|exact Hn]. intros n' t. apply Waits_owner_body.
Qed.

End WaitingRunners.

Lemma emitter_pending (g : M unit) (w : World) :
  result_of (emitter g w) = Pending ->
  result_of (g w) = Pending /\ emitter g w = g w.
Proof.
  unfold emitter. destruct (g w) as [[r w1] t1].
  destruct r as [a|e|]; try discriminate; auto.
  destruct e; discriminate.
Qed.

(** X13: a task waits for nothing but the network.  When the script of
    replies is finite and the recursion budget exceeds it, a run of the
    search runner or of the owner runner is left unfinished only if its last
    event is a request that the endpoint has no reply for, all replies of
    that endpoint being used up: the retries of the fetcher and of the check
    of the profile and the loop over the pages each use up a reply at every
    turn. *)
Theorem tasks_wait_only_for_replies :
  forall (strftime_date : Z -> string) (fuel : nat) (kwargs : Kwargs.t)
         (w : World),
    (List.length (search_replies w) + 2 <= fuel)%nat ->
    (List.length (profile_replies w) < fuel)%nat ->
    (let run := search strftime_date fuel kwargs w in
     result_of run = Pending -> starved run)
    /\
    (let run := get_owner strftime_date fuel kwargs w in
     result_of run = Pending -> starved run).
Proof.
  intros strftime_date fuel kwargs w Hs Hp.
  assert (Hw : budget (List.length (search_replies w))
                      (List.length (profile_replies w)) w)
    by (split; lia).
  split; cbv zeta; unfold search, get_owner; intros H;
    apply emitter_pending in H; destruct H as [H E]; rewrite E.
  - apply (Waits_search_gen strftime_date fuel _ _ kwargs Hs w Hw), H.
  - apply (Waits_get_owner_gen strftime_date fuel _ _ kwargs Hs Hp w Hw), H.
Qed.

(** The endpoints have nothing to say: the search task waits for the reply
    to its first request. *)
Lemma tasks_wait_only_for_replies_witness :
  let run := search one_day 3 (a_task empty_stage) silent_world in
  result_of run = Pending
  /\ trace_of run = [EvSearch (search_url "cats since:2019-01-01" "") None]
  /\ starved run.
Proof.
  split; [reflexivity|]. split; [reflexivity|].
  apply (tasks_wait_only_for_replies one_day 3 (a_task empty_stage)
           silent_world ltac:(simpl; lia) ltac:(simpl; lia)).
  reflexivity.
Defined.

(** ** The end of the stream *)

Lemma paginate_no_twits (fuel : nat) (query : string) (watermark first_id : Z)
      (response : Json) (body : Twit -> M control) (w : World) :
  paginate fuel query watermark first_id response [] body w
  = (Ok Continue, w, []).
Proof. destruct fuel; reflexivity. Qed.

Lemma paginate_ends (query : string) (watermark first_id : Z) (fuel : nat) :
  forall (response : Json) (twits : list Twit) (w : World) (c : control),
    let x := paginate fuel query watermark first_id response twits drain w in
    result_of x = Ok c ->
    c = Continue
    /\ (twits = []
        \/ exists before p,
            pages_of (trace_of x) = before ++ [p] /\ pg_twits p = []).
Proof.
  induction fuel as [|fuel IH]; intros response twits w c x H.
  - subst x. destruct twits; simpl in H; [|discriminate].
    injection H as <-. auto.
  - destruct twits as [|first rest].
    { subst x. simpl in H. injection H as <-. auto. }
    subst x. rewrite paginate_round in H |- *. cbv zeta in H |- *.
    set (cur := cursor_after first_id response (first :: rest)) in *.
    pose proof (fun tl => fetch_then fuel query cur w tl) as Hf.
    cbv zeta in Hf.
    destruct (_get_query_response fuel query cur w) as [[rx wx] tx].
    cbn [result_of world_of trace_of fst snd] in Hf.
    destruct rx as [j|e|]; cbn [bind_on] in H |- *;
      try (simpl in H; discriminate H).
    rewrite result_of_after in H. rewrite trace_of_after.
    destruct (items_html j) as [twits'|] eqn:Ej;
      [|simpl in H; discriminate H].
    destruct (for_twits_drain watermark cur twits' wx) as [n' Ed].
    rewrite Ed in H |- *. rewrite bind_on_ok in H |- *.
    unfold and_then in H |- *.
    rewrite result_of_after in H. rewrite trace_of_after.
    set (w2 := mkWorld n' (clock_ms wx) (search_replies wx)
                       (profile_replies wx)) in *.
    destruct (IH j twits' w2 c H) as [-> Hcase].
    split; [reflexivity|]. right.
    destruct (Hf (map EvYield
                      (stamp_all cur (self_counter wx)
                                 (filter (unseen watermark) twits'))
                  ++ trace_of (paginate fuel query watermark first_id j
                                        twits' drain w2)))
      as (F1 & _).
    rewrite (F1 j eq_refl). rewrite pages_of_map.
    destruct Hcase as [-> | (before & p & E & Hp)].
    + rewrite paginate_no_twits. cbn [trace_of snd pages_of].
      eexists [], _. split; [reflexivity|].
      unfold pg_twits. cbn [pg_json]. rewrite Ej. reflexivity.
    + rewrite E. eexists (_ :: before), p. split; [reflexivity | exact Hp].
Qed.

(** X14: a drained crawl stream ends normally only at the end of the
    results.  When an invocation returns, the last page it fetched has no
    posts, or it is the first page and reports that there are no more items;
    a report of no more items on a later page does not end the stream, which
    goes on until a page without posts comes. *)
Theorem stream_ends_at_the_end :
  forall (fuel : nat) (query : string) (stage0 : Stage) (w : World)
         (c : control),
    let x := _search fuel query stage0 drain w in
    result_of x = Ok c ->
    c = Continue /\ ends_at (pages_of (trace_of x)).
Proof.
  intros fuel query stage0 w c x H. subst x.
  rewrite search_drain_run in H |- *. cbv zeta in H |- *.
  set (c0 := default "" (max_position stage0)) in *.
  set (wm := watermark_of stage0 w) in *.
  set (w0 := mkWorld (default 0 (counter stage0)) (clock_ms w)
                     (search_replies w) (profile_replies w)) in *.
  pose proof (fun tl => fetch_then fuel query c0 w0 tl) as Hf.
  cbv zeta in Hf.
  destruct (_get_query_response fuel query c0 w0) as [[rx wx] tx].
  cbn [result_of world_of trace_of fst snd] in Hf.
  destruct rx as [j|e|]; cbn [bind_on] in H |- *;
    try (simpl in H; discriminate H).
  rewrite result_of_after in H. rewrite trace_of_after.
  unfold ends_at.
  destruct (items_html j) as [[|first rest]|] eqn:Ej;
    [| |simpl in H; discriminate H].
  - simpl in H. injection H as <-. split; [reflexivity|].
    cbn [trace_of snd]. destruct (Hf []) as (F1 & _).
    rewrite (F1 j eq_refl). cbn [pages_of].
    eexists [], _. split; [reflexivity|]. left.
    unfold pg_twits. cbn [pg_json]. rewrite Ej. reflexivity.
  - destruct (nonempty c0 || negb (default false (has_more_items j))).
    + destruct (for_twits_drain wm c0 (first :: rest) wx) as [n' Ed].
      rewrite Ed in H |- *. rewrite bind_on_ok in H |- *.
      rewrite result_of_after in H. rewrite trace_of_after.
      unfold and_then in H |- *.
      set (ys := stamp_all c0 (self_counter wx)
                           (filter (unseen wm) (first :: rest))) in *.
      destruct (negb (default false (has_more_items j))) eqn:Hlast.
      * simpl in H. injection H as <-. split; [reflexivity|].
        cbn [ret trace_of snd]. rewrite app_nil_r.
        destruct (Hf (map EvYield ys)) as (F1 & _).
        rewrite (F1 j eq_refl).
        rewrite <- (app_nil_r (map EvYield ys)), pages_of_map.
        cbn [pages_of].
        eexists [], _. split; [reflexivity|]. right.
        split; [reflexivity|]. unfold pg_last. cbn [pg_json]. exact Hlast.
      * apply paginate_ends in H. destruct H as [-> Hcase].
        split; [reflexivity|].
        destruct Hcase as [Hn | (before & p & E & Hp)]; [discriminate|].
        match goal with
        | |- context [pages_of (tx ++ ?tl)] => destruct (Hf tl) as (F1 & _)
        end.
        rewrite (F1 j eq_refl), pages_of_map, E.
        eexists (_ :: before), p. split; [reflexivity | left; exact Hp].
    + apply paginate_ends in H. destruct H as [-> Hcase].
      split; [reflexivity|].
      destruct Hcase as [Hn | (before & p & E & Hp)]; [discriminate|].
      match goal with
      | |- context [pages_of (tx ++ ?tl)] => destruct (Hf tl) as (F1 & _)
      end.
      rewrite (F1 j eq_refl), E.
      eexists (_ :: before), p. split; [reflexivity | left; exact Hp].
Qed.

(** The second page says that it is the last, and yet the stream asks for a
    third, which has no posts, and ends there; the fourth is not asked
    for. *)
Lemma stream_ends_at_the_end_witness :
  let x := _search 5 "cats" empty_stage drain all_last_world in
  result_of x = Ok Continue
  /\ map (fun p => (pg_last p, List.length (pg_twits p)))
         (pages_of (trace_of x))
     = [(false, 1%nat); (true, 1%nat); (true, 0%nat)]
  /\ ends_at (pages_of (trace_of x)).
Proof.
  split; [reflexivity|]. split; [reflexivity|].
  apply (stream_ends_at_the_end 5 "cats" empty_stage all_last_world
                                Continue eq_refl).
Defined.

(** ** The query of a search task *)

Lemma task_query_text (q since : string) :
  nonempty q = true ->
  task_query q since
  = lstrip (q ++ (if nonempty since then " since:" ++ since else "")).
Proof.
  intros Hq. unfold task_query, construct_query. cbn.
  destruct (nonempty since).
  - rewrite nonempty_app, Hq. reflexivity.
  - rewrite Hq. cbn.
    assert (E : forall s : string, (s ++ "")%string = s)
      by (induction s; simpl; congruence).
    rewrite E. reflexivity.
Qed.

(** X15: the text of a search task reaches every request unchanged.  In a
    run of the search runner every request goes to the search endpoint with
    [f=tweets] and with one and the same [q]: the query of the task without
    leading white space, followed by [since:] and the date of the last
    execution when there was one.  No request is made for a profile, and
    with an empty query none at all. *)
Theorem search_sends_the_task_query :
  forall (strftime_date : Z -> string) (fuel : nat) (kwargs : Kwargs.t)
         (w : World),
    let q := Kwargs.query (Kwargs.extra kwargs) in
    let since := since_of strftime_date (Kwargs.last_execution_time kwargs) in
    let run := search strftime_date fuel kwargs w in
    Forall (asks_for
              (lstrip (q ++ (if nonempty since
                             then " since:" ++ since else ""))))
           (trace_of run)
    /\ (nonempty q = false -> trace_of run = []).
Proof.
  intros strftime_date fuel kwargs w q since run. subst run.
  unfold search. destruct (emitter_run (search_gen strftime_date fuel kwargs)
                                       w) as [Ht _].
  rewrite Ht, search_gen_run. cbv zeta. fold q since.
  destruct (nonempty q) eqn:Hq.
  - split; [|discriminate]. apply Forall_app. split.
    + unfold finish. cbn [trace_of snd].
      rewrite <- (task_query_text q since Hq).
      apply Emits_search.
      * intros c r. unfold asks_for, search_url. cbn [fst snd].
        destruct (nonempty c); cbn; auto.
      * exact I.
      * intros; exact I.
      * intros t w0. unfold search_body.
        destruct (publication_datetime (item t) <? _);
          repeat constructor.
    + match goal with
      | |- Forall _ (emitter_tail ?r) => destruct r as [a|e|]
      end; try constructor.
      destruct e; repeat constructor.
  - split; [constructor | reflexivity].
Qed.

(** ** [emitter] *)

(** X16: [emitter] applied twice is [emitter] applied once: what leaves it
    is neither the timeout nor the client error, so that a second layer of
    it has nothing to catch and adds no pause. *)
Theorem emitter_twice :
  forall (g : M unit) (w : World),
    emitter (emitter g) w = emitter g w.
Proof.
  intros g w. unfold emitter at 1.
  destruct (emitter_run g w) as [_ Hr].
  destruct (emitter g w) as [[r w1] t1]. cbn [result_of fst] in Hr.
  destruct r as [a|e|]; try reflexivity.
  destruct e; try reflexivity;
    destruct (result_of (g w)) as [a|e|]; try discriminate;
    destruct e; discriminate.
Qed.

(** ** The queries of an owner task *)

Lemma owner_query_text (profile since : string) (reply : bool) :
  nonempty profile = true ->
  owner_query profile reply since
  = if reply
    then ("to:" ++ profile ++ " filter:replies" ++ since_clause since)%string
    else ("from:" ++ profile ++ since_clause since)%string.
Proof.
  intros Hp. unfold owner_query, construct_query, since_clause.
  rewrite Hp. cbn [negb Z.eqb append].
  assert (E : forall s : string, (s ++ "")%string = s)
    by (induction s; simpl; congruence).
  destruct reply, (nonempty since); cbn [nonempty append negb];
    rewrite ?string_app_assoc, ?E; reflexivity.
Qed.

Lemma Emits_check_profile (P : Event -> Prop) (profile : string)
      (fuel : nat) :
  (forall r, P (EvProfile ((MOBILE_URL ++ profile)%string, []) r)) ->
  P (EvSleep RESPONSE_DELAY) ->
  Emits P (check_profile fuel profile).
Proof.
  intros Hs Hp. induction fuel as [|fuel IH]; intros w; [constructor|].
  rewrite (world_eta w).
  destruct (profile_replies w) as [|[status html| |] rest];
    try (repeat constructor; apply Hs).
  rewrite check_profile_step. cbv zeta.
  destruct (classify status); cbn [trace_of snd after].
  - repeat constructor; apply Hs.
  - constructor; [apply Hs | apply IH].
  - constructor; [apply Hs|]. constructor; [exact Hp | apply IH].
  - repeat constructor; apply Hs.
Qed.

(** X17: an owner task asks for nothing but its owner.  In a run of the
    owner runner every request for a profile is for the mobile page of the
    [owner_id] of the task, and every search request goes to the search
    endpoint with [f=tweets] and with [q] either [from:] the owner or [to:]
    the owner with [filter:replies], each followed by [since:] and the date
    of the last execution when there was one. *)
Theorem get_owner_sends_the_owner_queries :
  forall (strftime_date : Z -> string) (fuel : nat) (kwargs : Kwargs.t)
         (w : World),
    let profile := Kwargs.owner_id (Kwargs.extra kwargs) in
    let since := since_of strftime_date (Kwargs.last_execution_time kwargs) in
    Forall (owner_asks profile since)
           (trace_of (get_owner strftime_date fuel kwargs w)).
Proof.
  intros strftime_date fuel kwargs w profile since.
  unfold get_owner.
  destruct (emitter_run (get_owner_gen strftime_date fuel kwargs) w)
    as [Ht _].
  rewrite Ht. clear Ht. apply Forall_app. split.
  2:{ match goal with
      | |- Forall _ (emitter_tail ?r) => destruct r as [a|e|]
      end; try constructor.
      destruct e; repeat constructor. }
  rewrite get_owner_gen_run. cbv zeta. fold profile since.
  destruct (nonempty profile) eqn:Hp; [|constructor].
  set (T := Kwargs.last_execution_time kwargs).
  set (P := owner_asks profile since).
  assert (Hchk : forall w0, Forall P (trace_of (check_profile fuel profile w0))).
  { apply Emits_check_profile; [intros r; reflexivity | exact I]. }
  assert (Hphase : forall reply stage0 k w0,
             Forall P (trace_of (_search fuel
                                         (owner_query profile reply since)
                                         stage0 (owner_body T k) w0))).
  { intros reply stage0 k w0. apply Emits_search.
    - intros c r. rewrite (owner_query_text profile since reply Hp).
      unfold P, owner_asks, search_url. cbn [fst snd].
      destruct reply, (nonempty c); cbn; auto.
    - exact I.
    - intros; exact I.
    - intros t w1. unfold owner_body. cbv zeta.
      destruct (publication_datetime (item t) <? T); repeat constructor. }
  unfold owner_run. cbv zeta.
  destruct (result_of (check_profile fuel profile w)) as [[]|e|];
    try (rewrite trace_of_finish; apply Hchk).
  destruct (default 1 (task_stage (Kwargs.stage (Kwargs.extra kwargs)))
            =? 1).
  - unfold owner_phase_1 at 1.
    destruct (result_of _) as [[|]|e|];
      rewrite trace_of_after, trace_of_finish;
      repeat (apply Forall_app; split);
      try apply Hchk; try apply Hphase.
  - rewrite trace_of_after, trace_of_finish. apply Forall_app. split;
      [apply Hchk | apply Hphase].
Qed.

(** * Properties of the page parser *)

Example parse_tweets_sample_page :
  match Page.parse_tweets decimal decimal no_digest no_image 100 sample_page
  with
  | Page.Val [a; b] =>
      to_twit a
      = {| item := {| id := 9; publication_datetime := 90;
                      url := "https://www.twitter.com/bob/status/9";
                      author := "bob"; text := "see example.org";
                      is_reply := false |};
           stage := {| TwitStage.last_tweet_pub_time := 90000;
                       TwitStage.max_position := "";
                       TwitStage.counter := 0 |} |}
      /\ Page.link a = Some ["http://example.org/"]
      /\ Page.video a
         = Some [{| Page.video_url := "https://www.twitter.com/i/videos/9";
                    Page.video_image := "" |}]
      /\ Page.photo a = None
      /\ Page.id b = 7 /\ Page.is_reply b = true
      /\ Page.publication_datetime b = 100
      /\ Page.attachments_photo b = Some ["a cat"]
      /\ Page.photo b
         = Some ["http://example.org/b.png"; "http://example.org/c.png"]
  | _ => False
  end.
Proof. vm_compute. repeat split. Qed.

Section PageProperties.

Variable py_int : string -> option Z.
Variable py_float : string -> option Z.
Variable sha256_hexdigest : string -> string.
Variable image_in : string -> string.
Variable now : Z.

Lemma bind_val {A B} (m : Page.res A) (k : A -> Page.res B) (b : B) :
  Page.bind m k = Page.Val b -> exists a, m = Page.Val a /\ k a = Page.Val b.
Proof. destruct m as [a|e]; [eauto | discriminate]. Qed.

Lemma getitem_val (n : Soup.Node) (k v : string) :
  Page.getitem n k = Page.Val v -> Soup.get n k = Some v.
Proof.
  unfold Page.getitem. destruct (Soup.get n k); [|discriminate].
  intros H. injection H as ->. reflexivity.
Qed.

Lemma to_int_val (o : option string) (z : Z) :
  Page.to_int py_int o = Page.Val z ->
  exists s, o = Some s /\ py_int s = Some z.
Proof.
  unfold Page.to_int. destruct o as [s|]; [|discriminate].
  destruct (py_int s) eqn:E; [|discriminate].
  intros H. injection H as ->. eauto.
Qed.

Lemma to_float_val (s : string) (z : Z) :
  Page.to_float py_float s = Page.Val z -> py_float s = Some z.
Proof.
  unfold Page.to_float. destruct (py_float s); [|discriminate].
  intros H. injection H as ->. reflexivity.
Qed.

Lemma parse_li_read_from (li : Soup.Node) (t : Page.Parsed) :
  Page.parse_li py_int py_float sha256_hexdigest image_in now li
  = Page.Val t -> read_from py_int py_float now li t.
Proof.
  unfold Page.parse_li. intros H.
  apply bind_val in H. destruct H as (twit_id & Hid & H).
  apply bind_val in H. destruct H as (reply & Hreply & H).
  apply bind_val in H. destruct H as (published & Hpub & H).
  destruct (match Soup.find "p" "tweet-text" li with
            | Some text_p => _
            | None => _
            end) as [text_ links].
  apply bind_val in H. destruct H as (user & Huser & H).
  cbv zeta in H.
  apply bind_val in H. destruct H as (media & Hmedia & H).
  injection H as <-. unfold read_from. cbn [Page.id Page.is_reply
    Page.publication_datetime Page.stage TwitStage.last_tweet_pub_time].
  split; [apply to_int_val, Hid|]. split.
  - destruct (Soup.find "div" "original-tweet" li) as [d|]; [|discriminate].
    injection Hreply as <-. eauto.
  - destruct (Soup.find "span" "_timestamp" li) as [date_span|].
    + apply bind_val in Hpub. destruct Hpub as (s & Hs & Hpub).
      apply bind_val in Hs. destruct Hs as (a & Ha & Hs).
      apply bind_val in Hpub. destruct Hpub as (ms & Hms & Hpub).
      apply bind_val in Hms. destruct Hms as (b & Hb & Hms).
      injection Hpub as <-. cbn [fst snd].
      apply to_int_val in Hs. destruct Hs as (a' & Ea & Hs).
      injection Ea as <-.
      exists a, b. repeat split;
        auto using getitem_val, to_float_val.
    + injection Hpub as <-. cbn [fst snd]. repeat split.
      intros watermark Hw. unfold unseen. cbn. apply Z.ltb_lt. exact Hw.
Qed.

Lemma parse_items_Forall2 (R : Soup.Node -> Page.Parsed -> Prop) :
  (forall li t, Page.parse_li py_int py_float sha256_hexdigest image_in now li
  = Page.Val t -> R li t) ->
  forall lis twits,
    Page.parse_items py_int py_float sha256_hexdigest image_in now lis
    = Page.Val twits ->
    Forall2 R (filter (Soup.has_attr "data-item-id") lis) twits.
Proof.
  intros HR. induction lis as [|li rest IH]; intros twits H.
  - injection H as <-. constructor.
  - cbn [Page.parse_items] in H. cbn [filter].
    destruct (Soup.has_attr "data-item-id" li); cbn [negb] in H.
    + apply bind_val in H. destruct H as (t & Ht & H).
      apply bind_val in H. destruct H as (ts & Hts & H).
      injection H as <-. constructor; [apply HR, Ht | apply IH, Hts].
    + apply IH, H.
Qed.

Lemma photos_nonempty (imgs : list Soup.Node) :
  forall alts urls alts' urls',
    Page.photos imgs alts urls = (alts', urls') ->
    (forall l, alts = Some l ->
               l <> [] /\ Forall (fun a => nonempty a = true) l) ->
    (forall l, urls = Some l ->
               l <> [] /\ Forall (fun a => nonempty a = true) l) ->
    (forall l, alts' = Some l ->
               l <> [] /\ Forall (fun a => nonempty a = true) l)
    /\ (forall l, urls' = Some l ->
                  l <> [] /\ Forall (fun a => nonempty a = true) l).
Proof.
  assert (Hpush : forall o x,
             nonempty x = true ->
             (forall l, o = Some l ->
                        l <> [] /\ Forall (fun a => nonempty a = true) l) ->
             forall l, Page.push o x = Some l ->
                       l <> [] /\ Forall (fun a => nonempty a = true) l).
  { intros o x Hx Ho l. destruct o as [l0|]; simpl; intros E;
      injection E as <-.
    - destruct (Ho l0 eq_refl) as [_ Hf]. split.
      + destruct l0; discriminate.
      + apply Forall_app. split; [exact Hf | repeat constructor; exact Hx].
    - split; [discriminate | repeat constructor; exact Hx]. }
  assert (Htruthy : forall o s, Page.truthy o = Some s -> nonempty s = true).
  { intros [s0|] s; simpl; [|discriminate].
    destruct (nonempty s0) eqn:E; [|discriminate].
    intros H. injection H as <-. exact E. }
  induction imgs as [|img rest IH]; intros alts urls alts' urls' H Ha Hu.
  - injection H as <- <-. auto.
  - cbn [Page.photos] in H. cbv zeta in H.
    apply (IH _ _ _ _ H).
    + destruct (Page.truthy (Soup.get img "alt")) eqn:E; [|exact Ha].
      apply Hpush; [apply (Htruthy _ _ E) | exact Ha].
    + destruct (Page.truthy (Soup.get img "src")) eqn:E; [|exact Hu].
      apply Hpush; [apply (Htruthy _ _ E) | exact Hu].
Qed.

Lemma playable_val (div : Soup.Node) (twit_id : Z) (v : Page.Video) :
  Page.playable image_in div twit_id = Page.Val v ->
  exists image,
    v = {| Page.video_url := construct_video_url twit_id;
           Page.video_image := image |}.
Proof.
  unfold Page.playable.
  destruct (Soup.find "div" "PlayableMedia-player" div) as [player|];
    [|discriminate].
  destruct (Soup.get player "style") as [style|]; [|discriminate].
  intros H. injection H as <-. eauto.
Qed.

Lemma parse_li_well_formed (li : Soup.Node) (t : Page.Parsed) :
  Page.parse_li py_int py_float sha256_hexdigest image_in now li
  = Page.Val t -> well_formed sha256_hexdigest now t.
Proof.
  unfold Page.parse_li. intros H.
  apply bind_val in H. destruct H as (twit_id & Hid & H).
  apply bind_val in H. destruct H as (reply & Hreply & H).
  apply bind_val in H. destruct H as (published & Hpub & H).
  destruct (Soup.find "p" "tweet-text" li) as [text_p|] eqn:Etext.
  - apply bind_val in H. destruct H as (user & Huser & H).
    cbv zeta in H.
    apply bind_val in H. destruct H as (media & Hmedia & H).
    injection H as <-. unfold well_formed. cbn.
    split; [reflexivity|]. split; [reflexivity|]. split; [reflexivity|].
    split; [|split; [discriminate|]].
    + destruct (Soup.find "div" "tweet" li) as [d|].
      * apply bind_val in Huser. destruct Huser as (path & _ & Huser).
        apply bind_val in Huser. destruct Huser as (name & _ & Huser).
        injection Huser as <-. cbn.
        split; [reflexivity | destruct path; reflexivity].
      * injection Huser as <-. cbn. auto.
    + revert Hmedia. clear.
      destruct (Soup.find "div" "PlayableMedia--video" li) as [vd|].
      { intros H. apply bind_val in H. destruct H as (v & Hv & H).
        injection H as <-. cbn. apply playable_val in Hv.
        destruct Hv as [image ->]. repeat split; eauto. }
      destruct (Soup.find "div" "PlayableMedia--gif" li) as [gd|].
      { intros H. apply bind_val in H. destruct H as (v & Hv & H).
        injection H as <-. cbn. apply playable_val in Hv.
        destruct Hv as [image ->]. repeat split; eauto. }
      destruct (Soup.find "div" "AdaptiveMedia" li) as [pd|].
      * destruct (Page.photos _ None None) as [alts urls] eqn:E.
        intros H. injection H as <-. cbn.
        destruct (photos_nonempty _ _ _ _ _ E) as [Ha Hu];
          try (intros l; discriminate).
        split; [exact I|]. split.
        -- destruct urls as [l|]; [apply Hu; reflexivity | exact I].
        -- destruct alts as [l|]; [apply Ha; reflexivity | exact I].
      * intros H. injection H as <-. cbn. auto.
  - apply bind_val in H. destruct H as (user & Huser & H).
    cbv zeta in H.
    apply bind_val in H. destruct H as (media & Hmedia & H).
    injection H as <-. unfold well_formed. cbn.
    split; [reflexivity|]. split; [reflexivity|]. split; [reflexivity|].
    split; [|split; [reflexivity|]].
    + destruct (Soup.find "div" "tweet" li) as [d|].
      * apply bind_val in Huser. destruct Huser as (path & _ & Huser).
        apply bind_val in Huser. destruct Huser as (name & _ & Huser).
        injection Huser as <-. cbn.
        split; [reflexivity | destruct path; reflexivity].
      * injection Huser as <-. cbn. auto.
    + revert Hmedia. clear.
      destruct (Soup.find "div" "PlayableMedia--video" li) as [vd|].
      { intros H. apply bind_val in H. destruct H as (v & Hv & H).
        injection H as <-. cbn. apply playable_val in Hv.
        destruct Hv as [image ->]. repeat split; eauto. }
      destruct (Soup.find "div" "PlayableMedia--gif" li) as [gd|].
      { intros H. apply bind_val in H. destruct H as (v & Hv & H).
        injection H as <-. cbn. apply playable_val in Hv.
        destruct Hv as [image ->]. repeat split; eauto. }
      destruct (Soup.find "div" "AdaptiveMedia" li) as [pd|].
      * destruct (Page.photos _ None None) as [alts urls] eqn:E.
        intros H. injection H as <-. cbn.
        destruct (photos_nonempty _ _ _ _ _ E) as [Ha Hu];
          try (intros l; discriminate).
        split; [exact I|]. split.
        -- destruct urls as [l|]; [apply Hu; reflexivity | exact I].
        -- destruct alts as [l|]; [apply Ha; reflexivity | exact I].
      * intros H. injection H as <-. cbn. auto.
Qed.

End PageProperties.

Lemma Forall2_Forall_r {A B} (P : B -> Prop) (l : list A) (l' : list B) :
  Forall2 (fun _ b => P b) l l' -> Forall P l'.
Proof. induction 1; constructor; auto. Qed.

Lemma parse_items_filter (py_int py_float : string -> option Z)
      (sha256_hexdigest image_in : string -> string) (now : Z)
      (lis : list Soup.Node) :
  Page.parse_items py_int py_float sha256_hexdigest image_in now lis
  = Page.parse_items py_int py_float sha256_hexdigest image_in now
      (filter (Soup.has_attr "data-item-id") lis).
Proof.
  induction lis as [|li rest IH]; [reflexivity|].
  cbn [Page.parse_items filter].
  destruct (Soup.has_attr "data-item-id" li) eqn:E; cbn [negb].
  - cbn [Page.parse_items]. rewrite E. cbn [negb]. rewrite IH. reflexivity.
  - exact IH.
Qed.

Lemma parse_items_first_failure (py_int py_float : string -> option Z)
      (sha256_hexdigest image_in : string -> string) (now : Z)
      (li : Soup.Node) (post : list Soup.Node) (e : Page.PyError) :
  Soup.has_attr "data-item-id" li = true ->
  Page.parse_li py_int py_float sha256_hexdigest image_in now li
  = Page.Err e ->
  forall pre,
    Forall (fun l =>
              Soup.has_attr "data-item-id" l = true
              /\ exists t,
                  Page.parse_li py_int py_float sha256_hexdigest image_in
                                now l = Page.Val t) pre ->
    Page.parse_items py_int py_float sha256_hexdigest image_in now
                     (pre ++ li :: post)
    = Page.Err e.
Proof.
  intros Hli He. induction 1 as [|l pre [Hl [t Ht]] _ IH].
  - cbn [app Page.parse_items]. rewrite Hli, He. reflexivity.
  - cbn [app Page.parse_items]. rewrite Hl, Ht. cbn [negb Page.bind].
    rewrite IH. reflexivity.
Qed.

(** X18: [parse_tweets] gives one post for every stream item of the page
    that carries an id, in the order of the document, and none for a stream
    item without an id.  The post has the id of its item and is a reply if
    the item's [original-tweet] block says so.  Its two times are those of
    the time stamp of the item; for an item without a time stamp the time
    of publication is the time of parsing and the time in milliseconds stays
    zero, so that such a post is before every positive watermark of the
    stream. *)
Theorem parse_tweets_reads_each_item :
  forall (py_int py_float : string -> option Z)
         (sha256_hexdigest image_in : string -> string) (now : Z)
         (soup : Soup.Node) (twits : list Page.Parsed),
    Page.parse_tweets py_int py_float sha256_hexdigest image_in now soup
    = Page.Val twits ->
    Forall2 (read_from py_int py_float now) (page_items soup) twits.
Proof.
  intros py_int py_float sha256_hexdigest image_in now soup twits H.
  unfold page_items.
  apply (parse_items_Forall2 py_int py_float sha256_hexdigest image_in now);
    [|exact H].
  apply parse_li_read_from.
Qed.

(** Of the three stream items of the sample page, the two with an id are
    read. *)
Lemma parse_tweets_reads_each_item_witness :
  exists twits,
    Page.parse_tweets decimal decimal no_digest no_image 100 sample_page
    = Page.Val twits
    /\ map Page.id twits = [9; 7]
    /\ Forall2 (read_from decimal decimal 100) (page_items sample_page)
               twits.
Proof.
  eexists. split; [vm_compute; reflexivity|]. split; [reflexivity|].
  apply (parse_tweets_reads_each_item decimal decimal no_digest no_image
                                      100 sample_page).
  vm_compute. reflexivity.
Defined.

(** X19: every post that [parse_tweets] returns is complete in itself.  Its
    checkpoint is fresh (counter zero, no cursor).  It has a [hash] exactly
    when it has an address, which then begins with the [URL] of the class
    and whose digest the hash is; without one the address and the author
    are empty.  A post without the key [link] has no text.  A post with the
    key [video] has exactly one video, at the address that
    [construct_video_url] gives for the id of the post, and neither photos
    nor their captions: a video goes before a gif and both before photos.
    The lists under [photo] and under the captions are never empty and hold
    no empty string. *)
Theorem parsed_posts_are_well_formed :
  forall (py_int py_float : string -> option Z)
         (sha256_hexdigest image_in : string -> string) (now : Z)
         (soup : Soup.Node) (twits : list Page.Parsed),
    Page.parse_tweets py_int py_float sha256_hexdigest image_in now soup
    = Page.Val twits ->
    Forall (well_formed sha256_hexdigest now) twits.
Proof.
  intros py_int py_float sha256_hexdigest image_in now soup twits H.
  apply (Forall2_Forall_r _ (page_items soup)).
  apply (parse_items_Forall2 py_int py_float sha256_hexdigest image_in now);
    [|exact H].
  apply parse_li_well_formed.
Qed.

Lemma parsed_posts_are_well_formed_witness :
  exists twits,
    Page.parse_tweets decimal decimal no_digest no_image 100 sample_page
    = Page.Val twits
    /\ map (fun t => (Page.video t, Page.photo t)) twits
       = [(Some [{| Page.video_url := "https://www.twitter.com/i/videos/9";
                    Page.video_image := "" |}], None);
          (None, Some ["http://example.org/b.png";
                       "http://example.org/c.png"])]
    /\ Forall (well_formed no_digest 100) twits.
Proof.
  eexists. split; [vm_compute; reflexivity|]. split; [reflexivity|].
  apply (parsed_posts_are_well_formed decimal decimal no_digest no_image
                                      100 sample_page).
  vm_compute. reflexivity.
Defined.

(** X20: one stream item without its [original-tweet] block costs the whole
    page.  When the items before it are parsed and its id is a number,
    [parse_tweets] ends with the [AttributeError] of the attribute that is
    asked of [None]: no post of the page is returned, neither those before
    the item nor those after it, and as the [except] clause around the call
    in [_search] names [TypeError] and [KeyError] only, the error is not
    turned into an [ApiError]. *)
Theorem item_without_tweet_costs_the_page :
  forall (py_int py_float : string -> option Z)
         (sha256_hexdigest image_in : string -> string) (now : Z)
         (soup : Soup.Node) (pre : list Soup.Node) (li : Soup.Node)
         (post : list Soup.Node),
    page_items soup = pre ++ li :: post ->
    Forall (fun l =>
              exists t,
                Page.parse_li py_int py_float sha256_hexdigest image_in now l
                = Page.Val t) pre ->
    (exists s z, Soup.get li "data-item-id" = Some s /\ py_int s = Some z) ->
    Soup.find "div" "original-tweet" li = None ->
    Page.parse_tweets py_int py_float sha256_hexdigest image_in now soup
    = Page.Err Page.AttributeError
    /\ Page.caught Page.AttributeError = false.
Proof.
  intros py_int py_float sha256_hexdigest image_in now soup pre li post
         Hitems Hpre (s & z & Hs & Hz) Hdiv.
  split; [|reflexivity].
  unfold Page.parse_tweets. rewrite parse_items_filter.
  fold (page_items soup). rewrite Hitems.
  assert (Hattr : forall l, In l (pre ++ li :: post) ->
                            Soup.has_attr "data-item-id" l = true).
  { intros l Hl. rewrite <- Hitems in Hl. unfold page_items in Hl.
    apply filter_In in Hl. apply Hl. }
  apply parse_items_first_failure.
  - apply Hattr. apply in_or_app. right. left. reflexivity.
  - unfold Page.parse_li, Page.to_int. rewrite Hs, Hz. cbn [Page.bind].
    rewrite Hdiv. reflexivity.
  - rewrite Forall_forall in Hpre |- *. intros l Hl. split.
    + apply Hattr. apply in_or_app. left. exact Hl.
    + apply Hpre, Hl.
Qed.

(** The second item of the broken page has an id and nothing else: the page
    gives no post at all, though its first and third items are sound. *)
Lemma item_without_tweet_costs_the_page_witness :
  page_items broken_page
  = [item_with_photos] ++ item_without_tweet :: [item_with_video]
  /\ Page.parse_tweets decimal decimal no_digest no_image 100 broken_page
     = Page.Err Page.AttributeError
  /\ Page.caught Page.AttributeError = false.
Proof.
  split; [reflexivity|].
  apply (item_without_tweet_costs_the_page
           decimal decimal no_digest no_image 100 broken_page
           [item_with_photos] item_without_tweet [item_with_video]).
  - reflexivity.
  - constructor; [|constructor]. eexists. vm_compute. reflexivity.
  - exists "5", 5. split; reflexivity.
  - reflexivity.
Defined.
